(** * The ocean-model time stepper and its diagnostics

    A shallow embedding of
    - [src/climate/pyom/pyom.py]
      ([PyOM]: [set_default_settings], [setup], [run]),
    - [src/climate/setup/global_1deg/global_one_degree.py]
      ([GlobalOneDegree]: [__init__], [set_initial_conditions],
      [set_topography], [_get_periodic_interval] and its call in [set_forcing]),
    - [src/veros/diagnostics/tracer_monitor.py] ([TracerMonitor.output]),
    - [src/veros/diagnostics/overturning.py] ([Overturning]: [diagnose],
      [output]),
    followed by the properties the specification states about them and by
    further properties of the same code.

    Conventions.
    - Python objects mutated in place are records passed from state to state.
    - A Python exception is a value of [exn]; a method that may raise returns its
      final state together with its outcome, because the mutations made before
      the exception stay visible to the caller.
    - Grid arrays are total functions of their integer indices; the shape lives in
      [nx], [ny], [nz] and the slices of the source become index tests.
    - Array entries are taken in an arbitrary arithmetic [F] ([Scalar]); where a
      property needs an arithmetic law (such as [x * 0 = 0], which IEEE numbers
      obey on finite values only) the law is an explicit hypothesis.
    - The times of [_get_periodic_interval] are exact rationals. *)

From Stdlib Require Import ZArith List Bool Lia String QArith Qround Lqa Sorted
  Permutation.
Import ListNotations.
Local Open Scope Z_scope.

(** ** Exceptions *)

Inductive exn : Type :=
| RuntimeError (msg : string)
| NotImplementedError
| UnboundLocalError (name : string)
| ExternalError (tag : string)
| ValueError
| IndexError.

Inductive result (A : Type) : Type :=
| Ok (a : A)
| Raise (e : exn).
Arguments Ok {A} a.
Arguments Raise {A} e.

(** ** Arithmetic of array entries *)

Class Scalar (F : Type) : Type := {
  lit   : Q -> F;              (* a literal of the source text *)
  of_int : Z -> F;             (* an integer promoted to the array's type *)
  fadd  : F -> F -> F;
  fsub  : F -> F -> F;
  fmul  : F -> F -> F;
  fdiv  : F -> F -> F;
  fneg  : F -> F;
  fabs  : F -> F;
  fmax  : F -> F -> F;
  fexp  : F -> F;
  feqb  : F -> F -> bool;      (* == *)
  fltb  : F -> F -> bool;      (* <  *)
  fleb  : F -> F -> bool       (* <= *)
}.

Definition fzero {F} `{Scalar F} : F := lit 0%Q.
Definition fone  {F} `{Scalar F} : F := lit 1%Q.

(** The laws of exact arithmetic that the masking arguments use. *)
Record ScalarLaws (F : Type) `{Scalar F} : Prop := {
  fmul_0_r : forall x : F, fmul x fzero = fzero;
  fmul_0_l : forall x : F, fmul fzero x = fzero;
  fadd_0_r : forall x : F, fadd x fzero = x
}.

(** The integers, used to run the definitions on small grids. *)
#[global] Instance Scalar_Z : Scalar Z := {
  lit q := Qnum q / Z.pos (Qden q);
  of_int z := z;
  fadd := Z.add;
  fsub := Z.sub;
  fmul := Z.mul;
  fdiv := Z.div;
  fneg := Z.opp;
  fabs := Z.abs;
  fmax := Z.max;
  fexp x := 2 ^ x;
  feqb := Z.eqb;
  fltb := Z.ltb;
  fleb := Z.leb
}.

Lemma scalar_laws_Z : ScalarLaws Z.
Proof.
  constructor; intros x; change (@fzero Z Scalar_Z) with 0; simpl; lia.
Qed.

(** Index ranges: [range n] is Python's [range(n)]. *)
Definition range (n : Z) : list Z := map Z.of_nat (seq 0 (Z.to_nat n)).

(** [2:-2] on an axis of length [n + 4]. *)
Definition inner (n i : Z) : bool := (2 <=? i) && (i <? n + 2).

(** * pyom.py: the time-step orchestrator

    The timers ([with self.timers[...]]) and the lines printed to the console
    are not modelled. *)

Module Pyom.

(** The prognostic fields named by [PyOM.run]'s boundary exchange, and the
    tracer and vertical-velocity fields the solvers write besides. *)
Inductive Field : Type :=
| fld_u | fld_v | fld_w | fld_temp | fld_salt | fld_rho
| fld_tke | fld_eke | fld_E_iw | fld_E_M2 | fld_E_niw.

(** The calls [PyOM.setup] and [PyOM.run] make into code they do not define:
    the methods a setup class overrides ([self_...]) and the functions of the
    solver modules ([module_function]).  [self.set_parameter()], which chooses
    the settings, is kept apart ([ev_set_parameter] below). *)
Inductive Call : Type :=
| self_allocate | self_set_grid | numerics_calc_grid
| self_set_coriolis | numerics_calc_beta | self_set_topography | numerics_calc_topo
| idemix_calc_spectral_topo | self_set_initial_conditions
| numerics_calc_initial_conditions | self_set_forcing | external_streamfunction_init
| diagnostics_init_diagnostics | self_set_diagnostics | eke_init_eke
| isoneutral_check_isoneutral_slope_crit
| restart_read_restart (itt_arg : Z)
| diagnostics_diag_averages_read_restart | diagnostics_diag_energy_read_restart
| diagnostics_diag_over_read_restart | diagnostics_diag_particles_read_restart
| idemix_set_idemix_parameter | idemix_set_spectral_parameter
| eke_set_eke_diffusivities | tke_set_tke_diffusivities
| momentum_momentum | thermodynamics_thermodynamics
| advection_calculate_velocity_on_wgrid
| eke_integrate_eke
| idemix_integrate_idemix_M2 | idemix_integrate_idemix_niw
| idemix_integrate_idemix | idemix_wave_interaction
| tke_integrate_tke
| cyclic_setcyclic_x (f : Field) (slot : Z)
| momentum_vertical_velocity | np_flush
| diagnostics_diagnose | diagnostics_panic_snap.

(** What an execution leaves behind, in order: the calls it made and the
    time-level rotations it performed. *)
Inductive Event : Type :=
| ev_call (c : Call)
| ev_set_parameter
| ev_shift_time.

Definition nl : string := String (Ascii.ascii_of_nat 10) EmptyString.
Definition tab : string := String (Ascii.ascii_of_nat 9) EmptyString.

Definition tke_error_message : string :=
  ("ERROR: use TKE model only with implicit vertical friction" ++ nl ++ tab
   ++ "-> switch on enable_implicit_vert_fricton in setup")%string.

Section Model.

(** Python floats among the settings; [int_of_quotient a b] is [int(a / b)],
    which raises when [b] is zero. *)
Context {Float : Type}.
Variable float_zero : Float.
Variable int_of_quotient : Float -> Float -> result Z.

(** The arrays and scalars owned by the solver modules. *)
Context {Vars : Type}.

(** [climate.is_bohrium]. *)
Variable is_bohrium : bool.

(** The attributes that [set_parameter] chooses, as far as [setup] and [run]
    read them.  [runlen] and [snapint] are among them: [run] stores its
    arguments there before it calls [setup], and reads [runlen] again after
    [set_parameter] has run. *)
Record Settings : Type := mk_settings {
  dt_tracer : Float;
  enable_cyclic_x : bool;
  enable_implicit_vert_friction : bool;
  enable_hydrostatic : bool;
  enable_streamfunction : bool;
  enable_idemix : bool;
  enable_idemix_M2 : bool;
  enable_idemix_niw : bool;
  enable_tke : bool;
  enable_eke : bool;
  enable_diag_averages : bool;
  enable_diag_energy : bool;
  enable_diag_overturning : bool;
  enable_diag_particles : bool;
  runlen : Float;    (* length of simulation in seconds *)
  snapint : Float    (* interval between snapshots *)
}.

Record PyOM : Type := mk_pyom {
  taum1 : Z;     (* pointer to last time step *)
  tau : Z;       (* pointer to current time step *)
  taup1 : Z;     (* pointer to next time step *)
  itt : Z;       (* time step number *)
  enditt : Z;    (* last time step of simulation *)
  settings : Settings;
  vars : Vars
}.

Definition set_taum1 (s : PyOM) (x : Z) : PyOM :=
  mk_pyom x (tau s) (taup1 s) (itt s) (enditt s) (settings s) (vars s).
Definition set_tau (s : PyOM) (x : Z) : PyOM :=
  mk_pyom (taum1 s) x (taup1 s) (itt s) (enditt s) (settings s) (vars s).
Definition set_taup1 (s : PyOM) (x : Z) : PyOM :=
  mk_pyom (taum1 s) (tau s) x (itt s) (enditt s) (settings s) (vars s).
Definition set_itt (s : PyOM) (x : Z) : PyOM :=
  mk_pyom (taum1 s) (tau s) (taup1 s) x (enditt s) (settings s) (vars s).
Definition set_enditt (s : PyOM) (x : Z) : PyOM :=
  mk_pyom (taum1 s) (tau s) (taup1 s) (itt s) x (settings s) (vars s).
Definition set_settings (s : PyOM) (x : Settings) : PyOM :=
  mk_pyom (taum1 s) (tau s) (taup1 s) (itt s) (enditt s) x (vars s).
Definition set_vars (s : PyOM) (x : Vars) : PyOM :=
  mk_pyom (taum1 s) (tau s) (taup1 s) (itt s) (enditt s) (settings s) x.

(** [self.runlen = x] and [self.snapint = x]. *)
Definition with_runlen (c : Settings) (x : Float) : Settings :=
  mk_settings (dt_tracer c) (enable_cyclic_x c) (enable_implicit_vert_friction c)
    (enable_hydrostatic c) (enable_streamfunction c) (enable_idemix c)
    (enable_idemix_M2 c) (enable_idemix_niw c) (enable_tke c) (enable_eke c)
    (enable_diag_averages c) (enable_diag_energy c) (enable_diag_overturning c)
    (enable_diag_particles c) x (snapint c).
Definition with_snapint (c : Settings) (x : Float) : Settings :=
  mk_settings (dt_tracer c) (enable_cyclic_x c) (enable_implicit_vert_friction c)
    (enable_hydrostatic c) (enable_streamfunction c) (enable_idemix c)
    (enable_idemix_M2 c) (enable_idemix_niw c) (enable_tke c) (enable_eke c)
    (enable_diag_averages c) (enable_diag_energy c) (enable_diag_overturning c)
    (enable_diag_particles c) (runlen c) x.
Definition set_runlen (s : PyOM) (x : Float) : PyOM :=
  set_settings s (with_runlen (settings s) x).
Definition set_snapint (s : PyOM) (x : Float) : PyOM :=
  set_settings s (with_snapint (settings s) x).

(** The code outside this file.  A solver, hook or diagnostic reads the whole
    model object and leaves new contents in the arrays it owns; it may raise.
    The time pointers and the step counters are written by [PyOM] itself; the
    settings (the time step, the switches, and also [runlen] and [snapint],
    which [run] has stored before) are written by [set_parameter], the hook
    that chooses them. *)
Variable exec : Call -> PyOM -> Vars * option exn.
Variable set_parameter : PyOM -> Settings * Vars * option exn.

(** *** State, log and exceptions *)

Record out (A : Type) : Type := mk_out {
  res : result A;
  st : PyOM;
  log : list Event
}.
Arguments mk_out {A} _ _ _.
Arguments res {A} _.
Arguments st {A} _.
Arguments log {A} _.

Definition M (A : Type) : Type := PyOM -> out A.

Definition ret {A} (a : A) : M A := fun s => mk_out (Ok a) s [].

Definition raise {A} (e : exn) : M A := fun s => mk_out (Raise e) s [].

Definition bind {A B} (m : M A) (k : A -> M B) : M B := fun s =>
  let o := m s in
  match res o with
  | Ok a => let o' := k a (st o) in mk_out (res o') (st o') (log o ++ log o')
  | Raise e => mk_out (Raise e) (st o) (log o)
  end.

Definition get : M PyOM := fun s => mk_out (Ok s) s [].

Definition modify (f : PyOM -> PyOM) : M unit := fun s => mk_out (Ok tt) (f s) [].

Definition lift {A} (r : result A) : M A := fun s => mk_out r s [].

Definition outcome (r : option exn) : result unit :=
  match r with None => Ok tt | Some e => Raise e end.

Definition call (c : Call) : M unit := fun s =>
  let (v, r) := exec c s in
  mk_out (outcome r) (set_vars s v) [ev_call c].

Definition call_set_parameter : M unit := fun s =>
  let '(c, v, r) := set_parameter s in
  mk_out (outcome r) (set_vars (set_settings s c) v) [ev_set_parameter].

Definition when_ (b : Settings -> bool) (m : M unit) : M unit := fun s =>
  if b (settings s) then m s else ret tt s.

(** [try: m  except: handler; raise]. *)
Definition try_except_reraise (m handler : M unit) : M unit := fun s =>
  let o := m s in
  match res o with
  | Ok a => o
  | Raise e =>
      let o' := handler (st o) in
      mk_out (match res o' with Ok _ => Raise e | Raise e' => Raise e' end)
             (st o') (log o ++ log o')
  end.

Notation "m1 ;; m2" := (bind m1 (fun _ => m2)) (at level 61, right associativity).
Notation "x <- m1 ;; m2" := (bind m1 (fun x => m2))
  (at level 61, m1 at next level, right associativity).

(** *** PyOM.set_default_settings (the attributes [run] and [setup] read) *)

Definition default_settings : Settings :=
  {| dt_tracer := float_zero;
     enable_cyclic_x := false;
     enable_implicit_vert_friction := false;
     enable_hydrostatic := true;
     enable_streamfunction := false;
     enable_idemix := false;
     enable_idemix_M2 := false;
     enable_idemix_niw := false;
     enable_tke := false;
     enable_eke := false;
     enable_diag_averages := false;
     enable_diag_energy := false;
     enable_diag_overturning := false;
     enable_diag_particles := false;
     runlen := float_zero;
     snapint := float_zero |}.

Definition set_default_settings (v : Vars) : PyOM :=
  {| taum1 := 0; tau := 1; taup1 := 2;
     itt := 1; enditt := 1;
     settings := default_settings;
     vars := v |}.

(** *** PyOM.setup *)

Definition setup : M unit :=
  call_set_parameter ;;
  call self_allocate ;;
  call self_set_grid ;;
  call numerics_calc_grid ;;
  call self_set_coriolis ;;
  call numerics_calc_beta ;;
  call self_set_topography ;;
  call numerics_calc_topo ;;
  call idemix_calc_spectral_topo ;;
  call self_set_initial_conditions ;;
  call numerics_calc_initial_conditions ;;
  call self_set_forcing ;;
  when_ enable_streamfunction (call external_streamfunction_init) ;;
  call diagnostics_init_diagnostics ;;
  call self_set_diagnostics ;;
  call eke_init_eke ;;
  call isoneutral_check_isoneutral_slope_crit ;;
  s <- get ;;
  if enable_tke (settings s) && negb (enable_implicit_vert_friction (settings s))
  then raise (RuntimeError tke_error_message)
  else ret tt.

(** *** PyOM.run: one pass through the body of the main loop *)

Definition setcyclic_x_taup1 (f : Field) : M unit :=
  s <- get ;; call (cyclic_setcyclic_x f (taup1 s)).

Definition main_boundary_exchange : M unit :=
  setcyclic_x_taup1 fld_u ;;
  setcyclic_x_taup1 fld_v ;;
  when_ enable_tke (setcyclic_x_taup1 fld_tke) ;;
  when_ enable_eke (setcyclic_x_taup1 fld_eke) ;;
  when_ enable_idemix (setcyclic_x_taup1 fld_E_iw) ;;
  when_ enable_idemix_M2 (setcyclic_x_taup1 fld_E_M2) ;;
  when_ enable_idemix_niw (setcyclic_x_taup1 fld_E_niw).

(** The block under [with self.timers["main"]]. *)
Definition main_block : M unit :=
  call self_set_forcing ;;
  when_ enable_idemix (call idemix_set_idemix_parameter) ;;
  when_ (fun c => enable_idemix_M2 c || enable_idemix_niw c)
        (call idemix_set_spectral_parameter) ;;
  call eke_set_eke_diffusivities ;;
  call tke_set_tke_diffusivities ;;
  call momentum_momentum ;;
  call thermodynamics_thermodynamics ;;
  when_ (fun c => enable_eke c || enable_tke c || enable_idemix c)
        (call advection_calculate_velocity_on_wgrid) ;;
  when_ enable_eke (call eke_integrate_eke) ;;
  when_ enable_idemix_M2 (call idemix_integrate_idemix_M2) ;;
  when_ enable_idemix_niw (call idemix_integrate_idemix_niw) ;;
  when_ enable_idemix (call idemix_integrate_idemix) ;;
  when_ (fun c => enable_idemix_M2 c || enable_idemix_niw c)
        (call idemix_wave_interaction) ;;
  when_ enable_tke (call tke_integrate_tke) ;;
  when_ enable_cyclic_x main_boundary_exchange ;;
  when_ enable_hydrostatic (call momentum_vertical_velocity).

(** [# shift time]. *)
Definition shift_time : M unit := fun s =>
  let otaum1 := taum1 s in
  let s1 := set_taum1 s (tau s) in
  let s2 := set_tau s1 (taup1 s1) in
  let s3 := set_taup1 s2 otaum1 in
  let s4 := set_itt s3 (itt s3 + 1) in
  mk_out (Ok tt) s4 [ev_shift_time].

(** The body of [try]. *)
Definition timestep : M unit :=
  main_block ;;
  (if is_bohrium then call np_flush else ret tt) ;;
  call diagnostics_diagnose ;;
  shift_time.

(** [except: diagnostics.panic_snap(self); raise]. *)
Definition iteration : M unit :=
  try_except_reraise timestep (call diagnostics_panic_snap).

Definition prepend {A} (l : list Event) (o : out A) : out A :=
  mk_out (res o) (st o) (l ++ log o).

(** [while self.itt < self.enditt], unrolled at most [fuel] times; [None] when
    the loop is still running after [fuel] passes. *)
Fixpoint main_loop (fuel : nat) (s : PyOM) {struct fuel} : option (out unit) :=
  if itt s <? enditt s then
    match fuel with
    | O => None
    | S fuel' =>
        let o := iteration s in
        match res o with
        | Ok _ => option_map (prepend (log o)) (main_loop fuel' (st o))
        | Raise _ => Some o
        end
    end
  else Some (ret tt s).

(** Everything [run] does before the loop. *)
Definition run_prologue (snapint_arg runlen_arg : Float) : M unit :=
  modify (fun s => set_snapint (set_runlen s runlen_arg) snapint_arg) ;;
  setup ;;
  s <- get ;;
  call (restart_read_restart (itt s)) ;;
  when_ enable_diag_averages (call diagnostics_diag_averages_read_restart) ;;
  when_ enable_diag_energy (call diagnostics_diag_energy_read_restart) ;;
  when_ enable_diag_overturning (call diagnostics_diag_over_read_restart) ;;
  when_ enable_diag_particles (call diagnostics_diag_particles_read_restart) ;;
  s <- get ;;
  n <- lift (int_of_quotient (runlen (settings s)) (dt_tracer (settings s))) ;;
  modify (fun s => set_enditt s (itt s + n)).

Definition run (snapint_arg runlen_arg : Float) (fuel : nat) (s : PyOM)
  : option (out unit) :=
  let o := run_prologue snapint_arg runlen_arg s in
  match res o with
  | Ok _ => option_map (prepend (log o)) (main_loop fuel (st o))
  | Raise _ => Some o
  end.

(** ** Properties of the orchestrator *)

(** *** The state an execution reaches is determined by its log *)

Definition apply_event (s : PyOM) (ev : Event) : PyOM :=
  match ev with
  | ev_call c => set_vars s (fst (exec c s))
  | ev_set_parameter =>
      let '(c, v, _) := set_parameter s in set_vars (set_settings s c) v
  | ev_shift_time => st (shift_time s)
  end.

Definition replay (s : PyOM) (l : list Event) : PyOM := fold_left apply_event l s.

Definition is_call (ev : Event) : Prop :=
  match ev with ev_call _ => True | _ => False end.

(** [raised_by s l e]: the last entry of the log [l], started in [s], is a call
    and [e] is the exception this call raised. *)
Definition raised_by (s : PyOM) (l : list Event) (e : exn) : Prop :=
  exists pre c, l = pre ++ [ev_call c] /\ snd (exec c (replay s pre)) = Some e.

(** [follows m L]: [m] performs the events [L settings taup1] in this order,
    stopping at the first call that raises. *)
Definition follows (m : M unit) (L : Settings -> Z -> list Event) : Prop :=
  forall s,
    st (m s) = replay s (log (m s)) /\
    match res (m s) with
    | Ok _ => log (m s) = L (settings s) (taup1 s)
    | Raise e =>
        raised_by s (log (m s)) e /\
        exists rest, L (settings s) (taup1 s) = log (m s) ++ rest
    end.

Lemma replay_app (s : PyOM) (l1 l2 : list Event) :
  replay s (l1 ++ l2) = replay (replay s l1) l2.
Proof. unfold replay. apply fold_left_app. Qed.

Lemma set_vars_set_vars (s : PyOM) (v1 v2 : Vars) :
  set_vars (set_vars s v1) v2 = set_vars s v2.
Proof. reflexivity. Qed.

Lemma replay_calls (l : list Event) :
  Forall is_call l -> forall s, replay s l = set_vars s (vars (replay s l)).
Proof.
  induction 1 as [|ev l Hev _ IH]; intros s.
  - destruct s; reflexivity.
  - destruct ev as [c| |]; try contradiction. simpl.
    rewrite IH at 1. apply set_vars_set_vars.
Qed.

Lemma replay_calls_settings (l : list Event) (s : PyOM) :
  Forall is_call l -> settings (replay s l) = settings s.
Proof. intros H. rewrite (replay_calls l H s). reflexivity. Qed.

Lemma replay_calls_taup1 (l : list Event) (s : PyOM) :
  Forall is_call l -> taup1 (replay s l) = taup1 s.
Proof. intros H. rewrite (replay_calls l H s). reflexivity. Qed.

Lemma follows_ret : follows (ret tt) (fun _ _ => []).
Proof. intros s. simpl. auto. Qed.

Lemma follows_call (c : Call) : follows (call c) (fun _ _ => [ev_call c]).
Proof.
  intros s. unfold call. destruct (exec c s) as [v r] eqn:E. simpl.
  rewrite E. simpl. split; [reflexivity|].
  destruct r as [e|]; simpl; [|reflexivity].
  split.
  - exists [], c. simpl. rewrite E. auto.
  - exists []. reflexivity.
Qed.

Lemma follows_setcyclic_x_taup1 (f : Field) :
  follows (setcyclic_x_taup1 f) (fun _ k => [ev_call (cyclic_setcyclic_x f k)]).
Proof.
  intros s. unfold setcyclic_x_taup1, bind, get. simpl.
  exact (follows_call (cyclic_setcyclic_x f (taup1 s)) s).
Qed.

Lemma follows_shift_time : follows shift_time (fun _ _ => [ev_shift_time]).
Proof. intros s. simpl. auto. Qed.

Lemma follows_when (b : Settings -> bool) (m : M unit) L :
  follows m L ->
  follows (when_ b m) (fun c k => if b c then L c k else []).
Proof.
  intros H s. unfold when_. destruct (b (settings s)).
  - apply H.
  - apply follows_ret.
Qed.

Lemma follows_if (b : bool) (m1 m2 : M unit) L1 L2 :
  follows m1 L1 -> follows m2 L2 ->
  follows (if b then m1 else m2) (fun c k => if b then L1 c k else L2 c k).
Proof. destruct b; auto. Qed.

Lemma follows_bind (m1 m2 : M unit) L1 L2 :
  (forall c k, Forall is_call (L1 c k)) ->
  follows m1 L1 -> follows m2 L2 ->
  follows (m1 ;; m2) (fun c k => L1 c k ++ L2 c k).
Proof.
  intros Hcalls H1 H2 s. unfold bind.
  destruct (H1 s) as [Hst1 Hlog1].
  destruct (res (m1 s)) as [[]|e] eqn:R1; simpl.
  - assert (Hc : Forall is_call (log (m1 s))) by (rewrite Hlog1; apply Hcalls).
    destruct (H2 (st (m1 s))) as [Hst2 Hlog2].
    split.
    + rewrite replay_app, <- Hst1. exact Hst2.
    + assert (Hs : settings (st (m1 s)) = settings s)
        by (rewrite Hst1; apply replay_calls_settings, Hc).
      assert (Hk : taup1 (st (m1 s)) = taup1 s)
        by (rewrite Hst1; apply replay_calls_taup1, Hc).
      rewrite Hs, Hk in Hlog2.
      destruct (res (m2 (st (m1 s)))) as [[]|e].
      * rewrite Hlog1, Hlog2. reflexivity.
      * destruct Hlog2 as [[pre [c [Hl He]]] [rest Hrest]]. split.
        -- exists (log (m1 s) ++ pre), c. split.
           ++ rewrite Hl. apply app_assoc.
           ++ rewrite replay_app, <- Hst1. exact He.
        -- exists rest. rewrite Hlog1, Hrest. apply app_assoc.
  - destruct Hlog1 as [Hr [rest Hrest]]. repeat split; auto.
    exists (rest ++ L2 (settings s) (taup1 s)). rewrite Hrest. symmetry. apply app_assoc.
Qed.

(** *** The order of the stages, as the specification lists them *)

Definition opt (b : bool) (l : list Event) : list Event := if b then l else [].

Definition forcing_stage : list Event := [ev_call self_set_forcing].

Definition precompute_stage (c : Settings) : list Event :=
  opt (enable_idemix c) [ev_call idemix_set_idemix_parameter]
  ++ opt (enable_idemix_M2 c || enable_idemix_niw c) [ev_call idemix_set_spectral_parameter]
  ++ [ev_call eke_set_eke_diffusivities]
  ++ [ev_call tke_set_tke_diffusivities].

Definition momentum_stage : list Event := [ev_call momentum_momentum].

Definition tracer_stage : list Event := [ev_call thermodynamics_thermodynamics].

Definition wgrid_stage (c : Settings) : list Event :=
  opt (enable_eke c || enable_tke c || enable_idemix c)
      [ev_call advection_calculate_velocity_on_wgrid].

Definition eke_stage (c : Settings) : list Event :=
  opt (enable_eke c) [ev_call eke_integrate_eke].

Definition idemix_stage (c : Settings) : list Event :=
  opt (enable_idemix_M2 c) [ev_call idemix_integrate_idemix_M2]
  ++ opt (enable_idemix_niw c) [ev_call idemix_integrate_idemix_niw]
  ++ opt (enable_idemix c) [ev_call idemix_integrate_idemix]
  ++ opt (enable_idemix_M2 c || enable_idemix_niw c) [ev_call idemix_wave_interaction].

Definition tke_stage (c : Settings) : list Event :=
  opt (enable_tke c) [ev_call tke_integrate_tke].

(** The fields [run] exchanges, in the order it exchanges them. *)
Definition exchanged_fields (c : Settings) : list Field :=
  [fld_u; fld_v]
  ++ (if enable_tke c then [fld_tke] else [])
  ++ (if enable_eke c then [fld_eke] else [])
  ++ (if enable_idemix c then [fld_E_iw] else [])
  ++ (if enable_idemix_M2 c then [fld_E_M2] else [])
  ++ (if enable_idemix_niw c then [fld_E_niw] else []).

Definition exchange_stage (c : Settings) (k : Z) : list Event :=
  opt (enable_cyclic_x c)
      (map (fun f => ev_call (cyclic_setcyclic_x f k)) (exchanged_fields c)).

(** Between the exchange and the rotation: the vertical velocity, the flush
    and the diagnostics. *)
Definition diagnostic_stage (c : Settings) : list Event :=
  opt (enable_hydrostatic c) [ev_call momentum_vertical_velocity]
  ++ opt is_bohrium [ev_call np_flush]
  ++ [ev_call diagnostics_diagnose].

Definition rotation_stage : list Event := [ev_shift_time].

Definition step_trace (c : Settings) (k : Z) : list Event :=
  forcing_stage ++ precompute_stage c ++ momentum_stage ++ tracer_stage
  ++ wgrid_stage c ++ eke_stage c ++ idemix_stage c ++ tke_stage c
  ++ exchange_stage c k ++ diagnostic_stage c ++ rotation_stage.

(** The position of an event in the list of stages of section 4.1. *)
Definition stage (ev : Event) : Z :=
  match ev with
  | ev_call self_set_forcing => 1
  | ev_call idemix_set_idemix_parameter
  | ev_call idemix_set_spectral_parameter
  | ev_call eke_set_eke_diffusivities
  | ev_call tke_set_tke_diffusivities => 2
  | ev_call momentum_momentum => 3
  | ev_call thermodynamics_thermodynamics => 4
  | ev_call advection_calculate_velocity_on_wgrid => 5
  | ev_call eke_integrate_eke => 6
  | ev_call idemix_integrate_idemix_M2
  | ev_call idemix_integrate_idemix_niw
  | ev_call idemix_integrate_idemix
  | ev_call idemix_wave_interaction => 7
  | ev_call tke_integrate_tke => 8
  | ev_call (cyclic_setcyclic_x _ _) => 9
  | ev_call momentum_vertical_velocity
  | ev_call np_flush
  | ev_call diagnostics_diagnose => 10
  | ev_shift_time => 11
  | _ => 0
  end.

Definition stage_le (a b : Event) : Prop := stage a <= stage b.

Lemma follows_ext (m : M unit) L L' :
  follows m L -> (forall c k, L c k = L' c k) -> follows m L'.
Proof.
  intros H E s. destruct (H s) as [Hst Hlog]. split; [exact Hst|].
  rewrite <- E. exact Hlog.
Qed.

Lemma follows_seq (m1 m2 : M unit) L1 L2 :
  follows m1 L1 ->
  (forall c k, Forall is_call (L1 c k)) ->
  follows m2 L2 ->
  follows (m1 ;; m2) (fun c k => L1 c k ++ L2 c k).
Proof. intros H1 Hc H2. apply follows_bind; assumption. Qed.

Lemma calls_of_fields (g : Field -> Call) (l : list Field) :
  Forall is_call (map (fun f => ev_call (g f)) l).
Proof.
  apply Forall_forall. intros ev H. apply in_map_iff in H.
  destruct H as [f [<- _]]. exact I.
Qed.

Ltac all_calls :=
  intros; cbv beta;
  repeat first
    [ apply calls_of_fields
    | apply Forall_nil
    | apply Forall_cons; [exact I|]
    | apply Forall_app; split
    | match goal with |- Forall _ (if ?b then _ else _) => destruct b; cbv beta end ].

Ltac follow_with leaf :=
  lazymatch goal with
  | |- follows (bind _ _) _ =>
      eapply follows_seq; [follow_with leaf | all_calls | follow_with leaf]
  | |- follows (when_ _ _) _ => eapply follows_when; follow_with leaf
  | |- follows (if _ then _ else _) _ => eapply follows_if; follow_with leaf
  | |- follows (call _) _ => apply follows_call
  | |- follows (setcyclic_x_taup1 _) _ => apply follows_setcyclic_x_taup1
  | |- follows shift_time _ => apply follows_shift_time
  | |- follows (ret tt) _ => apply follows_ret
  | |- _ => leaf
  end.

Lemma main_boundary_exchange_follows :
  follows main_boundary_exchange
          (fun c k => map (fun f => ev_call (cyclic_setcyclic_x f k)) (exchanged_fields c)).
Proof.
  eapply follows_ext.
  - unfold main_boundary_exchange. follow_with fail.
  - intros c k. unfold exchanged_fields. cbv beta.
    destruct (enable_tke c), (enable_eke c), (enable_idemix c),
      (enable_idemix_M2 c), (enable_idemix_niw c); reflexivity.
Qed.

Lemma timestep_follows : follows timestep step_trace.
Proof.
  eapply follows_ext.
  - unfold timestep, main_block.
    follow_with ltac:(apply main_boundary_exchange_follows).
  - intros c k. cbv beta.
    unfold step_trace, forcing_stage, precompute_stage, momentum_stage, tracer_stage,
      wgrid_stage, eke_stage, idemix_stage, tke_stage, exchange_stage, diagnostic_stage,
      rotation_stage, opt.
    repeat rewrite <- app_assoc. reflexivity.
Qed.

Fixpoint nondecreasing (l : list Z) : bool :=
  match l with
  | a :: (b :: _) as t => (a <=? b) && nondecreasing t
  | _ => true
  end.

Lemma nondecreasing_sorted (l : list Z) :
  nondecreasing l = true -> StronglySorted Z.le l.
Proof.
  intros H. apply Sorted_StronglySorted.
  - intros x y z. apply Z.le_trans.
  - induction l as [|a [|b t] IH].
    + constructor.
    + repeat constructor.
    + simpl in H. apply andb_true_iff in H. destruct H as [Hab Ht].
      constructor; [apply IH; exact Ht|]. constructor. apply Z.leb_le, Hab.
Qed.

Lemma sorted_by_stage (l : list Event) :
  StronglySorted Z.le (map stage l) -> StronglySorted stage_le l.
Proof.
  induction l as [|a l IH]; intros H; [constructor|].
  simpl in H. inversion H as [|x y Hs Hf]; subst.
  constructor; [apply IH; exact Hs|].
  rewrite Forall_map in Hf. exact Hf.
Qed.

Ltac unfold_stages :=
  unfold step_trace, forcing_stage, precompute_stage, momentum_stage, tracer_stage,
    wgrid_stage, eke_stage, idemix_stage, tke_stage, exchange_stage, exchanged_fields,
    diagnostic_stage, rotation_stage, opt.

Ltac by_settings c :=
  generalize is_bohrium; intros bohrium;
  destruct c as [dt cx ivf hyd sf idm m2 niw tk ek da de dov dp rl si]; cbn [enable_cyclic_x
    enable_hydrostatic enable_idemix enable_idemix_M2 enable_idemix_niw enable_tke
    enable_eke];
  destruct cx, hyd, idm, m2, niw, tk, ek, bohrium.

Lemma step_trace_sorted (c : Settings) (k : Z) :
  StronglySorted stage_le (step_trace c k).
Proof.
  apply sorted_by_stage, nondecreasing_sorted.
  unfold_stages. by_settings c; reflexivity.
Qed.

Lemma step_trace_momentum_then_tracer (c : Settings) (k : Z) :
  exists before after,
    step_trace c k
    = before ++ ev_call momentum_momentum :: ev_call thermodynamics_thermodynamics :: after
    /\ (forall ev, In ev before -> stage ev < 3)
    /\ (forall ev, In ev after -> 4 < stage ev).
Proof.
  exists (forcing_stage ++ precompute_stage c).
  exists (wgrid_stage c ++ eke_stage c ++ idemix_stage c ++ tke_stage c
          ++ exchange_stage c k ++ diagnostic_stage c ++ rotation_stage).
  split; [|split].
  - unfold step_trace, momentum_stage, tracer_stage.
    rewrite <- app_assoc. reflexivity.
  - intros ev H. apply Z.ltb_lt. revert ev H. apply forallb_forall.
    unfold_stages. by_settings c; reflexivity.
  - intros ev H. apply Z.ltb_lt. revert ev H. apply forallb_forall.
    unfold_stages. by_settings c; reflexivity.
Qed.

(** *** Completed passes *)

(** [steps n]: [n] passes through the loop body, one after the other. *)
Fixpoint steps (n : nat) : M unit :=
  match n with
  | O => ret tt
  | S n' => steps n' ;; timestep
  end.

Definition solver_trace (c : Settings) (k : Z) : list Event :=
  forcing_stage ++ precompute_stage c ++ momentum_stage ++ tracer_stage
  ++ wgrid_stage c ++ eke_stage c ++ idemix_stage c ++ tke_stage c
  ++ exchange_stage c k ++ diagnostic_stage c.

Lemma step_trace_split (c : Settings) (k : Z) :
  step_trace c k = solver_trace c k ++ [ev_shift_time].
Proof.
  unfold step_trace, solver_trace, rotation_stage.
  repeat rewrite <- app_assoc. reflexivity.
Qed.

Lemma solver_trace_calls (c : Settings) (k : Z) : Forall is_call (solver_trace c k).
Proof.
  unfold solver_trace, forcing_stage, precompute_stage, momentum_stage, tracer_stage,
    wgrid_stage, eke_stage, idemix_stage, tke_stage, exchange_stage,
    diagnostic_stage, opt.
  generalize is_bohrium. intros bohrium. all_calls.
Qed.

Lemma out_eta {A} (o : out A) : mk_out (res o) (st o) (log o) = o.
Proof. destruct o; reflexivity. Qed.

Lemma bind_assoc {A B C} (m : M A) (f : A -> M B) (g : B -> M C) (s : PyOM) :
  bind (bind m f) g s = bind m (fun x => bind (f x) g) s.
Proof.
  unfold bind. simpl. destruct (res (m s)) as [a|e]; simpl; [|reflexivity].
  destruct (res (f a (st (m s)))) as [b|e]; simpl; [|reflexivity].
  rewrite app_assoc. reflexivity.
Qed.

Lemma bind_ret_l {B} (k : unit -> M B) (s : PyOM) : bind (ret tt) k s = k tt s.
Proof. unfold bind, ret. simpl. apply out_eta. Qed.

Lemma bind_ret_r (m : M unit) (s : PyOM) : (m ;; ret tt) s = m s.
Proof.
  unfold bind, ret. simpl. destruct (m s) as [[[]|e] s' l]; simpl; [|reflexivity].
  rewrite app_nil_r. reflexivity.
Qed.

Lemma bind_congr {A B} (m m' : M A) (k : A -> M B) (s : PyOM) :
  m s = m' s -> bind m k s = bind m' k s.
Proof. unfold bind. intros ->. reflexivity. Qed.

Lemma steps_cons (n : nat) (s : PyOM) : steps (S n) s = (timestep ;; steps n) s.
Proof.
  induction n as [|n IH].
  - simpl. rewrite bind_ret_l, bind_ret_r. reflexivity.
  - change (steps (S (S n))) with (steps (S n) ;; timestep).
    rewrite (bind_congr _ (timestep ;; steps n) _ s IH).
    rewrite bind_assoc. reflexivity.
Qed.

(** A completed pass: the solvers have rewritten the arrays, the pointers have
    rotated and the step counter has advanced by one. *)
Lemma timestep_ok (s : PyOM) :
  res (timestep s) = Ok tt ->
  st (timestep s)
  = st (shift_time (set_vars s (vars (replay s (solver_trace (settings s) (taup1 s))))))
  /\ log (timestep s) = solver_trace (settings s) (taup1 s) ++ [ev_shift_time].
Proof.
  intros R. destruct (timestep_follows s) as [Hst Hlog]. rewrite R in Hlog.
  rewrite step_trace_split in Hlog. split; [|exact Hlog].
  rewrite Hst, Hlog, replay_app.
  transitivity (st (shift_time (replay s (solver_trace (settings s) (taup1 s)))));
    [reflexivity|].
  rewrite <- (replay_calls _ (solver_trace_calls (settings s) (taup1 s)) s).
  reflexivity.
Qed.

Lemma prefix_before_last {A} (l pre rest : list A) (x y : A) :
  l ++ [y] = (pre ++ [x]) ++ rest -> x <> y -> exists rest', l = (pre ++ [x]) ++ rest'.
Proof.
  intros E Hxy. destruct rest as [|r0 rest0].
  - rewrite app_nil_r in E. apply app_inj_tail in E.
    destruct E as [_ E]. congruence.
  - destruct (@exists_last _ (r0 :: rest0)) as [r' [z Hr]]; [discriminate|].
    exists r'. rewrite Hr, app_assoc in E.
    apply app_inj_tail in E. apply E.
Qed.

(** A pass that raises: the last call logged raised, no rotation took place,
    and only the arrays have changed. *)
Lemma timestep_raise (s : PyOM) (e : exn) :
  res (timestep s) = Raise e ->
  raised_by s (log (timestep s)) e
  /\ Forall is_call (log (timestep s))
  /\ st (timestep s) = set_vars s (vars (st (timestep s))).
Proof.
  intros R. destruct (timestep_follows s) as [Hst Hlog]. rewrite R in Hlog.
  destruct Hlog as [Hr [rest Hrest]]. split; [exact Hr|].
  assert (Hc : Forall is_call (log (timestep s))).
  { destruct Hr as [pre [c [Hl _]]]. rewrite step_trace_split, Hl in Hrest.
    apply prefix_before_last in Hrest; [|discriminate].
    destruct Hrest as [rest' Hrest'].
    pose proof (solver_trace_calls (settings s) (taup1 s)) as Hs.
    rewrite Hrest' in Hs. apply Forall_app in Hs. rewrite Hl. apply Hs. }
  split; [exact Hc|]. rewrite Hst at 1. rewrite Hst at 1.
  apply replay_calls, Hc.
Qed.

Lemma steps_S_ok (n : nat) (s : PyOM) :
  res (steps (S n) s) = Ok tt ->
  res (steps n s) = Ok tt
  /\ res (timestep (st (steps n s))) = Ok tt
  /\ st (steps (S n) s) = st (timestep (st (steps n s)))
  /\ log (steps (S n) s) = log (steps n s) ++ log (timestep (st (steps n s))).
Proof.
  simpl. unfold bind. destruct (res (steps n s)) as [[]|e]; simpl; [|discriminate].
  intros R. auto.
Qed.

(** The calls made inside the loop body. *)
Definition is_step_call (c : Call) : bool :=
  match c with
  | self_set_forcing
  | idemix_set_idemix_parameter | idemix_set_spectral_parameter
  | eke_set_eke_diffusivities | tke_set_tke_diffusivities
  | momentum_momentum | thermodynamics_thermodynamics
  | advection_calculate_velocity_on_wgrid
  | eke_integrate_eke
  | idemix_integrate_idemix_M2 | idemix_integrate_idemix_niw
  | idemix_integrate_idemix | idemix_wave_interaction
  | tke_integrate_tke
  | cyclic_setcyclic_x _ _
  | momentum_vertical_velocity | np_flush | diagnostics_diagnose => true
  | _ => false
  end.

Definition is_step_event (ev : Event) : bool :=
  match ev with ev_call c => is_step_call c | _ => false end.

Lemma solver_trace_step_events (c : Settings) (k : Z) :
  forallb is_step_event (solver_trace c k) = true.
Proof.
  unfold solver_trace, forcing_stage, precompute_stage, momentum_stage, tracer_stage,
    wgrid_stage, eke_stage, idemix_stage, tke_stage, exchange_stage, exchanged_fields,
    diagnostic_stage, opt.
  by_settings c; reflexivity.
Qed.

(** The three pointers, as a triple. *)
Definition pointers (s : PyOM) : Z * Z * Z := (taum1 s, tau s, taup1 s).

Definition rotated (p : Z * Z * Z) : Z * Z * Z :=
  let '(a, b, c) := p in (b, c, a).

Lemma shift_time_pointers (s : PyOM) :
  pointers (st (shift_time s)) = rotated (pointers s)
  /\ itt (st (shift_time s)) = itt s + 1
  /\ enditt (st (shift_time s)) = enditt s
  /\ settings (st (shift_time s)) = settings s
  /\ vars (st (shift_time s)) = vars s.
Proof. repeat split. Qed.

Lemma timestep_ok_pointers (s : PyOM) :
  res (timestep s) = Ok tt ->
  pointers (st (timestep s)) = rotated (pointers s)
  /\ itt (st (timestep s)) = itt s + 1
  /\ enditt (st (timestep s)) = enditt s
  /\ settings (st (timestep s)) = settings s.
Proof.
  intros R. destruct (timestep_ok s R) as [-> _]. repeat split.
Qed.

Definition on_cycle (p : Z * Z * Z) : Prop :=
  p = (0, 1, 2) \/ p = (1, 2, 0) \/ p = (2, 0, 1).

Lemma on_cycle_rotated (p : Z * Z * Z) : on_cycle p -> on_cycle (rotated p).
Proof. unfold on_cycle. intros [ -> | [ -> | -> ] ]; simpl; auto. Qed.

Lemma steps_on_cycle (n : nat) (s : PyOM) :
  on_cycle (pointers s) -> res (steps n s) = Ok tt ->
  on_cycle (pointers (st (steps n s))).
Proof.
  intros H0. induction n as [|n IH]; intros R.
  - exact H0.
  - destruct (steps_S_ok n s R) as [Rn [Rt [-> _]]].
    destruct (timestep_ok_pointers _ Rt) as [-> _].
    apply on_cycle_rotated, IH, Rn.
Qed.

Lemma on_cycle_permutation (a b c : Z) :
  on_cycle (a, b, c) -> Permutation [a; b; c] [0; 1; 2] /\ NoDup [a; b; c].
Proof.
  intros [E|[E|E]]; injection E as -> -> ->; split.
  - apply Permutation_refl.
  - repeat constructor; simpl; lia.
  - symmetry. exact (Permutation_cons_append [1; 2] 0).
  - repeat constructor; simpl; lia.
  - exact (Permutation_cons_append [0; 1] 2).
  - repeat constructor; simpl; lia.
Qed.

(** [keeps_clock m]: [m] leaves the three pointers and the step counter as
    it found them. *)
Definition clock (s : PyOM) : Z * Z * Z * Z := (taum1 s, tau s, taup1 s, itt s).

Definition keeps_clock {A} (m : M A) : Prop := forall s, clock (st (m s)) = clock s.

Lemma keeps_clock_bind {A B} (m : M A) (k : A -> M B) :
  keeps_clock m -> (forall a, keeps_clock (k a)) -> keeps_clock (bind m k).
Proof.
  intros Hm Hk s. unfold bind. destruct (res (m s)) as [a|e]; simpl.
  - rewrite Hk. apply Hm.
  - apply Hm.
Qed.

Lemma keeps_clock_call (c : Call) : keeps_clock (call c).
Proof. intros s. unfold call. destruct (exec c s). reflexivity. Qed.

Lemma keeps_clock_set_parameter : keeps_clock call_set_parameter.
Proof.
  intros s. unfold call_set_parameter. destruct (set_parameter s) as [[c v] r].
  reflexivity.
Qed.

Lemma keeps_clock_when (b : Settings -> bool) (m : M unit) :
  keeps_clock m -> keeps_clock (when_ b m).
Proof. intros H s. unfold when_. destruct (b (settings s)); [apply H|reflexivity]. Qed.

Ltac keep_clock :=
  repeat first
    [ apply keeps_clock_bind; [|intros ?]
    | apply keeps_clock_call
    | apply keeps_clock_set_parameter
    | apply keeps_clock_when
    | match goal with |- keeps_clock (if ?b then _ else _) => destruct b end
    | (intros ?; reflexivity) ].

Lemma setup_keeps_clock : keeps_clock setup.
Proof. unfold setup. keep_clock. Qed.

(** [run] reaches its loop with the pointers and the step counter that it
    was called with. *)
Lemma run_prologue_keeps_clock (snapint_arg runlen_arg : Float) :
  keeps_clock (run_prologue snapint_arg runlen_arg).
Proof.
  unfold run_prologue, setup. keep_clock.
Qed.

Section Slots.

(** [slot v f k] is [self.f[..., k]]: the contents of time level [k] of the
    field [f]. *)
Variable Arr : Type.
Variable slot : Vars -> Field -> Z -> Arr.

(** The solvers, the exchange and the diagnostics of the loop body write no
    time level but the next one. *)
Hypothesis writes_next_only :
  forall c s f k,
    is_step_call c = true -> k <> taup1 s ->
    slot (fst (exec c s)) f k = slot (vars s) f k.

Lemma replay_keeps_levels (l : list Event) :
  forallb is_step_event l = true ->
  forall s f k, k <> taup1 s -> slot (vars (replay s l)) f k = slot (vars s) f k.
Proof.
  induction l as [|ev l IH]; intros Hl s f k Hk; [reflexivity|].
  simpl in Hl. apply andb_true_iff in Hl. destruct Hl as [Hev Hl].
  destruct ev as [c| |]; try discriminate. simpl.
  rewrite IH by assumption. apply writes_next_only; assumption.
Qed.

(** C2.  The pointers start as (0, 1, 2) and [run] enters its loop with the
    pointers it was called with; the rotation at the end of a pass only
    permutes them (past takes current, current takes next, next takes past)
    and leaves every array as it is; hence, from pointers (0, 1, 2), after any
    number of completed passes they are a permutation of 0, 1, 2 without
    repetition, and after pass [n + 1] the past level of every field holds
    what its current level held after pass [n]. *)
Theorem time_level_rotation (v : Vars) (snapint_arg runlen_arg : Float) :
  pointers (set_default_settings v) = (0, 1, 2)
  /\ (forall s, pointers (st (run_prologue snapint_arg runlen_arg s)) = pointers s)
  /\ (forall s,
        taum1 (st (shift_time s)) = tau s
        /\ tau (st (shift_time s)) = taup1 s
        /\ taup1 (st (shift_time s)) = taum1 s
        /\ vars (st (shift_time s)) = vars s)
  /\ (forall s0 n,
        pointers s0 = (0, 1, 2) ->
        res (steps n s0) = Ok tt ->
        let s := st (steps n s0) in
        Permutation [taum1 s; tau s; taup1 s] [0; 1; 2]
        /\ NoDup [taum1 s; tau s; taup1 s])
  /\ (forall s0 n,
        pointers s0 = (0, 1, 2) ->
        res (steps (S n) s0) = Ok tt ->
        let s := st (steps n s0) in
        let s' := st (steps (S n) s0) in
        taum1 s' = tau s /\ tau s' = taup1 s /\ taup1 s' = taum1 s
        /\ forall f, slot (vars s') f (taum1 s') = slot (vars s) f (tau s)).
Proof.
  split; [reflexivity|]. split.
  { intros s. pose proof (run_prologue_keeps_clock snapint_arg runlen_arg s) as K.
    unfold clock in K. unfold pointers. congruence. }
  split; [intros s; repeat split|]. split.
  - intros s0 n H0 R s. apply on_cycle_permutation.
    apply (steps_on_cycle n s0); [left; exact H0|exact R].
  - intros s0 n H0 R s s'.
    destruct (steps_S_ok n _ R) as [Rn [Rt [Hst _]]].
    assert (Hc : on_cycle (pointers s))
      by (apply (steps_on_cycle n s0); [left; exact H0|exact Rn]).
    fold s in Rt, Hst.
    destruct (timestep_ok s Rt) as [Hs' _].
    assert (E : s' = st (timestep s)) by exact Hst.
    rewrite Hs' in E.
    remember (solver_trace (settings s) (taup1 s)) as L eqn:HL.
    rewrite E. simpl. repeat split.
    intros f. apply replay_keeps_levels; [rewrite HL; apply solver_trace_step_events|].
    apply on_cycle_permutation in Hc. destruct Hc as [_ Hn].
    inversion Hn as [|x l Hx Hn']; subst. inversion Hn' as [|y l' Hy _]; subst.
    intros Eq. apply Hy. left. symmetry. exact Eq.
Qed.

End Slots.

(** *** The loop *)

Lemma iteration_ok (s : PyOM) :
  res (timestep s) = Ok tt -> iteration s = timestep s.
Proof. unfold iteration, try_except_reraise. intros ->. reflexivity. Qed.

Definition reraised (after_panic : option exn) (e0 : exn) : exn :=
  match after_panic with None => e0 | Some e' => e' end.

Lemma iteration_raise (s : PyOM) (e0 : exn) :
  res (timestep s) = Raise e0 ->
  res (iteration s)
  = Raise (reraised (snd (exec diagnostics_panic_snap (st (timestep s)))) e0)
  /\ st (iteration s) = apply_event (st (timestep s)) (ev_call diagnostics_panic_snap)
  /\ log (iteration s) = log (timestep s) ++ [ev_call diagnostics_panic_snap].
Proof.
  unfold iteration, try_except_reraise, call, apply_event. intros ->.
  destruct (exec diagnostics_panic_snap (st (timestep s))) as [v [e'|]]; simpl; auto.
Qed.

Lemma steps_cons_ok (n : nat) (s : PyOM) :
  res (timestep s) = Ok tt ->
  res (steps (S n) s) = res (steps n (st (timestep s)))
  /\ st (steps (S n) s) = st (steps n (st (timestep s)))
  /\ log (steps (S n) s) = log (timestep s) ++ log (steps n (st (timestep s))).
Proof.
  intros R. rewrite steps_cons. unfold bind. rewrite R. simpl. auto.
Qed.

(** What the loop returns: after some number [n] of completed passes either
    the loop test fails, or pass [n + 1] raises and the handler has run. *)
Lemma main_loop_inv (fuel : nat) :
  forall s o, main_loop fuel s = Some o ->
  exists n,
    res (steps n s) = Ok tt /\
    match res o with
    | Ok _ =>
        st o = st (steps n s) /\ log o = log (steps n s)
        /\ enditt (st o) <= itt (st o)
    | Raise e =>
        itt (st (steps n s)) < enditt (st (steps n s))
        /\ res o = res (iteration (st (steps n s)))
        /\ st o = st (iteration (st (steps n s)))
        /\ log o = log (steps n s) ++ log (iteration (st (steps n s)))
        /\ exists e0, res (timestep (st (steps n s))) = Raise e0
    end.
Proof.
  induction fuel as [|fuel IH]; intros s o H.
  - simpl in H. destruct (itt s <? enditt s) eqn:T; [discriminate|].
    injection H as <-. exists O. simpl. apply Z.ltb_ge in T. auto.
  - simpl in H. destruct (itt s <? enditt s) eqn:T.
    + destruct (res (iteration s)) as [[]|e] eqn:R.
      * assert (Rt : res (timestep s) = Ok tt).
        { destruct (res (timestep s)) as [[]|e0] eqn:Rt; [reflexivity|].
          destruct (iteration_raise s e0 Rt) as [R' _]. congruence. }
        rewrite (iteration_ok s Rt) in H.
        destruct (main_loop fuel (st (timestep s))) as [o2|] eqn:M; [|discriminate].
        injection H as <-. destruct (IH _ _ M) as [n [Rn Hn]].
        destruct (steps_cons_ok n s Rt) as [E1 [E2 E3]].
        exists (S n). rewrite E1, E2, E3. split; [exact Rn|].
        simpl. destruct (res o2) as [[]|e].
        -- destruct Hn as [-> [-> Hle]]. auto.
        -- destruct Hn as [Hlt [Hr [Hs [Hl He]]]].
           rewrite Hl, app_assoc. auto.
      * injection H as <-. exists O. simpl. rewrite R.
        apply Z.ltb_lt in T. repeat split; auto.
        destruct (res (timestep s)) as [[]|e0] eqn:Rt; [|eauto].
        rewrite (iteration_ok s Rt) in R. congruence.
    + injection H as <-. exists O. simpl. apply Z.ltb_ge in T. auto.
Qed.

Lemma steps_ok_counters (n : nat) (s : PyOM) :
  res (steps n s) = Ok tt ->
  itt (st (steps n s)) = itt s + Z.of_nat n
  /\ enditt (st (steps n s)) = enditt s
  /\ settings (st (steps n s)) = settings s.
Proof.
  induction n as [|n IH]; intros R.
  - simpl. repeat split. lia.
  - destruct (steps_S_ok n s R) as [Rn [Rt [-> _]]].
    destruct (timestep_ok_pointers _ Rt) as [_ [-> [-> ->]]].
    destruct (IH Rn) as [-> [-> ->]]. repeat split. lia.
Qed.

(** C1.  One pass through the loop body of [PyOM.run] performs its stages in
    the order forcing, closure-parameter precompute (IDEMIX parameters, then the
    EKE and TKE diffusivities), momentum, thermodynamics, velocity on the w-grid
    (when a closure is enabled), EKE, IDEMIX, TKE, cyclic exchange, diagnostics,
    time-level rotation.  The state a pass reaches is the state its logged
    events produce; a completed pass logs exactly [step_trace]; a pass that
    raises logs a prefix of it that ends with the call that raised, so that
    no stage is skipped before it.  [step_trace] never steps back to an
    earlier stage, and in it the tracer solve comes right after the momentum
    solve, with only forcing and precompute before and only later stages
    after.  The same holds of every pass of the loop: each completed pass
    appends the [step_trace] of its own time level to the log, and the log of
    the loop is the log of its completed passes, followed, when a pass
    raises, by the log of that pass and the panic snapshot. *)
Theorem run_stage_order (s : PyOM) :
  st (timestep s) = replay s (log (timestep s))
  /\ match res (timestep s) with
     | Ok _ => log (timestep s) = step_trace (settings s) (taup1 s)
     | Raise e =>
         raised_by s (log (timestep s)) e
         /\ exists rest, step_trace (settings s) (taup1 s) = log (timestep s) ++ rest
     end
  /\ StronglySorted stage_le (step_trace (settings s) (taup1 s))
  /\ (exists before after,
        step_trace (settings s) (taup1 s)
        = before ++ ev_call momentum_momentum
                 :: ev_call thermodynamics_thermodynamics :: after
        /\ (forall ev, In ev before -> stage ev < 3)
        /\ (forall ev, In ev after -> 4 < stage ev))
  /\ (forall n,
        res (steps (S n) s) = Ok tt ->
        log (steps (S n) s)
        = log (steps n s) ++ step_trace (settings s) (taup1 (st (steps n s))))
  /\ (forall fuel o,
        main_loop fuel s = Some o ->
        exists n,
          res (steps n s) = Ok tt
          /\ match res o with
             | Ok _ => log o = log (steps n s)
             | Raise _ =>
                 exists e0,
                   res (timestep (st (steps n s))) = Raise e0
                   /\ raised_by (st (steps n s)) (log (timestep (st (steps n s)))) e0
                   /\ log o = log (steps n s) ++ log (timestep (st (steps n s)))
                              ++ [ev_call diagnostics_panic_snap]
             end).
Proof.
  split; [|split; [|split; [|split; [|split]]]].
  - apply (timestep_follows s).
  - destruct (timestep_follows s) as [_ H].
    destruct (res (timestep s)); exact H.
  - apply step_trace_sorted.
  - apply step_trace_momentum_then_tracer.
  - intros n R. destruct (steps_S_ok n s R) as [Rn [Rt [_ Hl]]].
    destruct (timestep_follows (st (steps n s))) as [_ H]. rewrite Rt in H.
    destruct (steps_ok_counters n s Rn) as [_ [_ Hc]].
    rewrite Hl, H, Hc. reflexivity.
  - intros fuel o H. destruct (main_loop_inv fuel s o H) as [n [Rn Hn]].
    exists n. split; [exact Rn|].
    destruct (res o) as [[]|e].
    + apply Hn.
    + destruct Hn as [_ [_ [_ [Hl [e0 He0]]]]]. exists e0.
      destruct (iteration_raise _ e0 He0) as [_ [_ I3]].
      destruct (timestep_follows (st (steps n s))) as [_ Ht]. rewrite He0 in Ht.
      split; [exact He0|]. split; [apply Ht|]. rewrite Hl, I3. reflexivity.
Qed.

(** The loop is over after [enditt - itt] passes at most. *)
Lemma main_loop_terminates (fuel : nat) :
  forall s, (Z.to_nat (enditt s - itt s) <= fuel)%nat ->
  exists o, main_loop fuel s = Some o.
Proof.
  induction fuel as [|fuel IH]; intros s Hf; simpl.
  - destruct (itt s <? enditt s) eqn:T; [|eauto].
    apply Z.ltb_lt in T. lia.
  - destruct (itt s <? enditt s) eqn:T; [|eauto].
    apply Z.ltb_lt in T.
    destruct (res (iteration s)) as [[]|e] eqn:R; [|eauto].
    assert (Rt : res (timestep s) = Ok tt).
    { destruct (res (timestep s)) as [[]|e0] eqn:Rt; [reflexivity|].
      destruct (iteration_raise s e0 Rt) as [R' _]. congruence. }
    rewrite (iteration_ok s Rt).
    destruct (timestep_ok_pointers s Rt) as [_ [Hi [He _]]].
    destruct (IH (st (timestep s))) as [o Ho]; [lia|].
    rewrite Ho. simpl. eauto.
Qed.

Definition has_min_stage (ev : Event) : bool := 1 <=? stage ev.

Lemma step_trace_stages (c : Settings) (k : Z) :
  forallb has_min_stage (step_trace c k) = true.
Proof. unfold_stages. by_settings c; reflexivity. Qed.

Lemma timestep_log_stages (s : PyOM) (ev : Event) :
  In ev (log (timestep s)) -> 1 <= stage ev.
Proof.
  intros H. apply Z.leb_le. change (has_min_stage ev = true).
  pose proof (step_trace_stages (settings s) (taup1 s)) as A.
  rewrite forallb_forall in A. apply A.
  destruct (timestep_follows s) as [_ Hl].
  destruct (res (timestep s)).
  - rewrite <- Hl. exact H.
  - destruct Hl as [_ [rest ->]]. apply in_or_app. auto.
Qed.

Lemma steps_log_stages (n : nat) (s : PyOM) (ev : Event) :
  res (steps n s) = Ok tt -> In ev (log (steps n s)) -> 1 <= stage ev.
Proof.
  induction n as [|n IH]; intros R H.
  - contradiction.
  - destruct (steps_S_ok n s R) as [Rn [_ [_ Hl]]]. rewrite Hl in H.
    apply in_app_or in H. destruct H as [H|H].
    + apply IH; assumption.
    + eapply timestep_log_stages, H.
Qed.

(** Where an exception that leaves the loop comes from: some number [n] of
    passes completed, pass [n + 1] raised in one of its calls, and the handler
    ran once. *)
Lemma loop_exception_origin (fuel : nat) (s : PyOM) (o : out unit) (e : exn) :
  main_loop fuel s = Some o ->
  res o = Raise e ->
  exists n e0,
    res (steps n s) = Ok tt /\
    let sn := st (steps n s) in
    itt sn < enditt sn
    /\ res (timestep sn) = Raise e0
    /\ raised_by sn (log (timestep sn)) e0
    /\ log o = log (steps n s) ++ log (timestep sn) ++ [ev_call diagnostics_panic_snap]
    /\ ~ In (ev_call diagnostics_panic_snap) (log (steps n s) ++ log (timestep sn))
    /\ ~ In ev_shift_time (log (timestep sn))
    /\ st o = apply_event (st (timestep sn)) (ev_call diagnostics_panic_snap)
    /\ e = reraised (snd (exec diagnostics_panic_snap (st (timestep sn)))) e0
    /\ itt (st o) = itt sn
    /\ itt (st o) = itt s + Z.of_nat n
    /\ pointers (st o) = pointers sn.
Proof.
  intros H R. destruct (main_loop_inv fuel s o H) as [n [Rn Hn]].
  rewrite R in Hn. destruct Hn as [Hlt [Hr [Hs [Hl [e0 He0]]]]].
  destruct (iteration_raise _ e0 He0) as [I1 [I2 I3]].
  destruct (timestep_raise _ e0 He0) as [T1 [T2 T3]].
  destruct (steps_ok_counters n s Rn) as [C1 _].
  exists n, e0. split; [exact Rn|]. cbv zeta.
  assert (Hst : st o = set_vars (st (steps n s)) (vars (st o))).
  { rewrite Hs, I2. simpl. rewrite T3 at 1. reflexivity. }
  repeat split; try assumption.
  - rewrite Hl, I3. reflexivity.
  - intros Hin. apply in_app_or in Hin. destruct Hin as [Hin|Hin].
    + apply (steps_log_stages n s _ Rn) in Hin. simpl in Hin. lia.
    + apply timestep_log_stages in Hin. simpl in Hin. lia.
  - intros Hin. rewrite Forall_forall in T2. exact (T2 _ Hin).
  - rewrite Hs. exact I2.
  - rewrite Hr, I1 in R. congruence.
  - rewrite Hst. reflexivity.
  - rewrite Hst. simpl. exact C1.
  - rewrite Hst. reflexivity.
Qed.

Lemma steps_cons_inv (n : nat) (s : PyOM) :
  res (steps (S n) s) = Ok tt -> res (timestep s) = Ok tt.
Proof.
  rewrite steps_cons. unfold bind.
  destruct (res (timestep s)) as [[]|e]; [reflexivity|discriminate].
Qed.

Lemma main_loop_pass (fuel : nat) (s : PyOM) :
  itt s < enditt s -> res (timestep s) = Ok tt ->
  main_loop (S fuel) s
  = option_map (prepend (log (timestep s))) (main_loop fuel (st (timestep s))).
Proof.
  intros T R. apply Z.ltb_lt in T. simpl. rewrite T.
  rewrite (iteration_ok s R), R. reflexivity.
Qed.

Lemma main_loop_fail (fuel : nat) (s : PyOM) (e0 : exn) :
  itt s < enditt s -> res (timestep s) = Raise e0 ->
  main_loop (S fuel) s = Some (iteration s).
Proof.
  intros T R. apply Z.ltb_lt in T. simpl. rewrite T.
  destruct (iteration_raise s e0 R) as [-> _]. reflexivity.
Qed.

(** C3.  Let [n] passes of the loop of [PyOM.run] complete and let pass
    [n + 1], entered with [itt < enditt], raise [e0] in one of its calls.
    Then the loop ends (given fuel for [n + 1] passes) with an exception:
    [diagnostics.panic_snap] is called on the state the failing call left
    and is the last entry of the log, so nothing is retried and no further
    pass begins; the exception is [e0] (unless [panic_snap] raised one of its
    own); the step counter stands where pass [n + 1] found it, and the failed
    pass logged no rotation, so its next level was not promoted. *)
Theorem panic_snap_then_reraise (n fuel : nat) (s : PyOM) (e0 : exn) :
  res (steps n s) = Ok tt ->
  itt s + Z.of_nat n < enditt s ->
  res (timestep (st (steps n s))) = Raise e0 ->
  (n < fuel)%nat ->
  exists o,
    main_loop fuel s = Some o
    /\ res o = Raise (reraised (snd (exec diagnostics_panic_snap
                                       (st (timestep (st (steps n s)))))) e0)
    /\ raised_by (st (steps n s)) (log (timestep (st (steps n s)))) e0
    /\ log o = log (steps n s) ++ log (timestep (st (steps n s)))
               ++ [ev_call diagnostics_panic_snap]
    /\ ~ In (ev_call diagnostics_panic_snap)
            (log (steps n s) ++ log (timestep (st (steps n s))))
    /\ ~ In ev_shift_time (log (timestep (st (steps n s))))
    /\ st o = apply_event (st (timestep (st (steps n s))))
                          (ev_call diagnostics_panic_snap)
    /\ itt (st o) = itt (st (steps n s))
    /\ itt (st o) = itt s + Z.of_nat n
    /\ pointers (st o) = pointers (st (steps n s)).
Proof.
  revert fuel s. induction n as [|n IH]; intros fuel s Rn Hlt Rt Hf.
  - destruct fuel as [|fuel]; [lia|].
    cbn [steps ret st log res app Z.of_nat] in Rt |- *.
    assert (Hlt' : itt s < enditt s) by lia.
    replace (itt s + 0) with (itt s) by lia.
    destruct (iteration_raise s e0 Rt) as [I1 [I2 I3]].
    destruct (timestep_raise s e0 Rt) as [T1 [T2 T3]].
    assert (Hst : st (iteration s) = set_vars s (vars (st (iteration s)))).
    { rewrite I2. simpl. rewrite T3 at 1. reflexivity. }
    exists (iteration s). rewrite (main_loop_fail fuel s e0 Hlt' Rt).
    repeat split; try assumption.
    + intros Hin. apply timestep_log_stages in Hin. simpl in Hin. lia.
    + intros Hin. rewrite Forall_forall in T2. exact (T2 _ Hin).
    + rewrite Hst. reflexivity.
    + rewrite Hst. reflexivity.
    + rewrite Hst. reflexivity.
  - destruct fuel as [|fuel]; [lia|].
    pose proof (steps_cons_inv n s Rn) as R1.
    destruct (steps_cons_ok n s R1) as [E1 [E2 E3]].
    destruct (timestep_ok_pointers s R1) as [_ [Hi [He _]]].
    rewrite E1 in Rn. rewrite E2 in Rt.
    destruct (IH fuel (st (timestep s)) Rn ltac:(lia) Rt ltac:(lia))
      as [o [M [A1 [A2 [A3 [A4 [A5 [A6 [A7 [A8 A9]]]]]]]]]].
    exists (prepend (log (timestep s)) o).
    rewrite (main_loop_pass fuel s ltac:(lia) R1), M, E2, E3.
    unfold prepend. cbn [option_map res st log].
    repeat split; try assumption.
    + rewrite A3, app_assoc. reflexivity.
    + intros Hin. rewrite <- app_assoc in Hin. apply in_app_or in Hin.
      destruct Hin as [Hin|Hin]; [|exact (A4 Hin)].
      apply timestep_log_stages in Hin. simpl in Hin. lia.
    + rewrite A8. lia.
Qed.

(** *** Setup *)

(** The calls of [setup] after [set_parameter], and its closing check. *)
Definition setup_calls : M unit :=
  call self_allocate ;;
  call self_set_grid ;;
  call numerics_calc_grid ;;
  call self_set_coriolis ;;
  call numerics_calc_beta ;;
  call self_set_topography ;;
  call numerics_calc_topo ;;
  call idemix_calc_spectral_topo ;;
  call self_set_initial_conditions ;;
  call numerics_calc_initial_conditions ;;
  call self_set_forcing ;;
  when_ enable_streamfunction (call external_streamfunction_init) ;;
  call diagnostics_init_diagnostics ;;
  call self_set_diagnostics ;;
  call eke_init_eke ;;
  call isoneutral_check_isoneutral_slope_crit.

Definition check_setup : M unit :=
  s <- get ;;
  if enable_tke (settings s) && negb (enable_implicit_vert_friction (settings s))
  then raise (RuntimeError tke_error_message)
  else ret tt.

Definition setup_calls_trace (c : Settings) : list Event :=
  [ev_call self_allocate; ev_call self_set_grid; ev_call numerics_calc_grid;
   ev_call self_set_coriolis; ev_call numerics_calc_beta;
   ev_call self_set_topography; ev_call numerics_calc_topo;
   ev_call idemix_calc_spectral_topo;
   ev_call self_set_initial_conditions; ev_call numerics_calc_initial_conditions;
   ev_call self_set_forcing]
  ++ opt (enable_streamfunction c) [ev_call external_streamfunction_init]
  ++ [ev_call diagnostics_init_diagnostics; ev_call self_set_diagnostics;
      ev_call eke_init_eke; ev_call isoneutral_check_isoneutral_slope_crit].

Definition setup_trace (c : Settings) : list Event :=
  ev_set_parameter :: setup_calls_trace c.

(** [returns_normally s l]: started in [s], no call of [l] raises. *)
Definition returns_normally (s : PyOM) (l : list Event) : Prop :=
  forall pre c rest, l = pre ++ ev_call c :: rest -> snd (exec c (replay s pre)) = None.

Lemma bind_ext {A B} (m : M A) (k k' : A -> M B) (s : PyOM) :
  (forall a s', k a s' = k' a s') -> bind m k s = bind m k' s.
Proof.
  intros H. unfold bind. destruct (res (m s)); [rewrite H|]; reflexivity.
Qed.

Lemma setup_split (s : PyOM) :
  setup s = (call_set_parameter ;; (setup_calls ;; check_setup)) s.
Proof.
  unfold setup, setup_calls. apply bind_ext. intros _ s1.
  repeat (rewrite bind_assoc; apply bind_ext; intros [] ?).
  reflexivity.
Qed.

Lemma setup_calls_follows : follows setup_calls (fun c _ => setup_calls_trace c).
Proof.
  eapply follows_ext.
  - unfold setup_calls. follow_with fail.
  - intros c k. reflexivity.
Qed.

Lemma setup_calls_trace_calls (c : Settings) : Forall is_call (setup_calls_trace c).
Proof. unfold setup_calls_trace, opt. all_calls. Qed.

Definition tke_misconfigured (c : Settings) : bool :=
  enable_tke c && negb (enable_implicit_vert_friction c).

Definition not_setup_stage (ev : Event) : bool :=
  match ev with
  | ev_shift_time => false
  | ev_call c =>
      match c with
      | self_set_forcing => true
      | _ => negb (is_step_call c)
      end
  | ev_set_parameter => true
  end.

Lemma setup_trace_no_step (c : Settings) :
  forallb not_setup_stage (setup_trace c) = true.
Proof.
  unfold setup_trace, setup_calls_trace, opt.
  destruct (enable_streamfunction c); reflexivity.
Qed.

Lemma bind_ok {A B} (m : M A) (k : A -> M B) (s : PyOM) (a : A) :
  res (m s) = Ok a -> bind m k s = prepend (log (m s)) (k a (st (m s))).
Proof. unfold bind. intros ->. reflexivity. Qed.

Lemma bind_raise {A B} (m : M A) (k : A -> M B) (s : PyOM) (e : exn) :
  res (m s) = Raise e -> bind m k s = mk_out (Raise e) (st (m s)) (log (m s)).
Proof. unfold bind. intros ->. reflexivity. Qed.

Lemma check_setup_eq (s : PyOM) :
  check_setup s
  = mk_out (if tke_misconfigured (settings s)
            then Raise (RuntimeError tke_error_message) else Ok tt) s [].
Proof.
  unfold check_setup, bind, get, tke_misconfigured. cbn [res st log].
  destruct (enable_tke (settings s) && negb (enable_implicit_vert_friction (settings s)));
    reflexivity.
Qed.

Lemma setup_eq (s : PyOM) (c : Settings) (v : Vars) :
  set_parameter s = (c, v, None) ->
  setup s = prepend [ev_set_parameter]
                    ((setup_calls ;; check_setup) (set_vars (set_settings s c) v)).
Proof.
  intros P. rewrite setup_split. unfold bind at 1, call_set_parameter.
  rewrite P. reflexivity.
Qed.

(** What [setup] does once [set_parameter] has returned the settings [c]. *)
Lemma setup_after_set_parameter (s : PyOM) (c : Settings) (v : Vars) :
  set_parameter s = (c, v, None) ->
  (exists rest, setup_trace c = log (setup s) ++ rest)
  /\ settings (st (setup s)) = c
  /\ st (setup s) = set_vars (set_settings s c) (vars (st (setup s)))
  /\ match res (setup s) with
     | Ok _ => tke_misconfigured c = false
     | Raise e =>
         raised_by s (log (setup s)) e
         \/ (e = RuntimeError tke_error_message
             /\ tke_misconfigured c = true
             /\ log (setup s) = setup_trace c)
     end.
Proof.
  intros P. rewrite (setup_eq s c v P).
  set (s1 := set_vars (set_settings s c) v).
  assert (A1 : apply_event s ev_set_parameter = s1) by (simpl; rewrite P; reflexivity).
  destruct (setup_calls_follows s1) as [Hst Hlog].
  change (settings s1) with c in Hlog.
  assert (Hc : Forall is_call (log (setup_calls s1))).
  { pose proof (setup_calls_trace_calls c) as Hc.
    destruct (res (setup_calls s1)).
    - rewrite Hlog. exact Hc.
    - destruct Hlog as [_ [rest Hrest]]. rewrite Hrest in Hc.
      apply Forall_app in Hc. apply Hc. }
  assert (Hs : st (setup_calls s1) = set_vars s1 (vars (st (setup_calls s1)))).
  { rewrite Hst at 1. rewrite Hst at 1. apply replay_calls, Hc. }
  unfold setup_trace.
  destruct (res (setup_calls s1)) as [[]|e] eqn:R.
  - rewrite (bind_ok _ _ _ _ R), check_setup_eq. unfold prepend. cbn [res st log].
    rewrite Hs. cbn [settings set_vars vars]. change (settings s1) with c.
    rewrite app_nil_r, Hlog.
    split; [exists []; rewrite app_nil_r; reflexivity|].
    split; [reflexivity|]. split; [reflexivity|].
    destruct (tke_misconfigured c); auto.
  - rewrite (bind_raise _ _ _ _ R). unfold prepend. cbn [res st log].
    destruct Hlog as [[pre [c' [Hl He]]] [rest Hrest]].
    split; [exists rest; rewrite Hrest; reflexivity|].
    rewrite Hs. split; [reflexivity|]. split; [reflexivity|]. left.
    exists (ev_set_parameter :: pre), c'. split.
    + rewrite Hl. reflexivity.
    + change (replay s (ev_set_parameter :: pre))
        with (replay (apply_event s ev_set_parameter) pre).
      rewrite A1. exact He.
Qed.

(** C5.  When [set_parameter] returns settings with [enable_tke] set and
    [enable_implicit_vert_friction] not set, [setup] raises: the
    [RuntimeError] of its closing check, unless one of the calls made before
    the check raised first.  [run], which calls [setup] before it enters the
    loop, then ends with the same exception whatever the fuel: its log is the
    log of [setup], no pass through the loop body has begun (no momentum
    solve, no rotation) and the step counter is untouched. *)
Theorem tke_without_implicit_friction_aborts
  (snapint_arg runlen_arg : Float) (fuel : nat) (s : PyOM) (c : Settings) (v : Vars) :
  let s0 := set_snapint (set_runlen s runlen_arg) snapint_arg in
  set_parameter s0 = (c, v, None) ->
  enable_tke c = true ->
  enable_implicit_vert_friction c = false ->
  exists e,
    res (setup s0) = Raise e
    /\ (e = RuntimeError tke_error_message \/ raised_by s0 (log (setup s0)) e)
    /\ (returns_normally s0 (setup_trace c) -> e = RuntimeError tke_error_message)
    /\ (exists rest, setup_trace c = log (setup s0) ++ rest)
    /\ exists o,
         run snapint_arg runlen_arg fuel s = Some o
         /\ res o = Raise e
         /\ st o = st (setup s0)
         /\ log o = log (setup s0)
         /\ ~ In ev_shift_time (log o)
         /\ ~ In (ev_call momentum_momentum) (log o)
         /\ itt (st o) = itt s.
Proof.
  intros s0 P Htke Himp.
  destruct (setup_after_set_parameter s0 c v P) as [[rest Hpre] [Hset [Hst Hres]]].
  assert (Hbad : tke_misconfigured c = true)
    by (unfold tke_misconfigured; rewrite Htke, Himp; reflexivity).
  destruct (res (setup s0)) as [[]|e] eqn:R; [congruence|].
  exists e. split; [reflexivity|].
  split; [destruct Hres as [H|[H _]]; auto|].
  split.
  { intros Hn. destruct Hres as [[pre [c' [Hl He]]]|[H _]]; [|exact H].
    rewrite Hl, <- app_assoc in Hpre. simpl in Hpre.
    rewrite (Hn _ _ _ Hpre) in He. discriminate. }
  split; [exists rest; exact Hpre|].
  assert (Hrun : run_prologue snapint_arg runlen_arg s
                 = mk_out (Raise e) (st (setup s0)) (log (setup s0))).
  { unfold run_prologue.
    rewrite (bind_ok (modify _) _ s tt eq_refl).
    cbn [modify st log]. fold s0.
    rewrite (bind_raise setup _ s0 e R). reflexivity. }
  exists (mk_out (Raise e) (st (setup s0)) (log (setup s0))).
  unfold run. rewrite Hrun. cbn [res st log].
  pose proof (setup_trace_no_step c) as Hno. rewrite Hpre in Hno.
  rewrite forallb_app in Hno. apply andb_true_iff in Hno. destruct Hno as [Hno _].
  rewrite forallb_forall in Hno.
  repeat split.
  - intros Hin. apply Hno in Hin. discriminate.
  - intros Hin. apply Hno in Hin. discriminate.
  - rewrite Hst. reflexivity.
Qed.

(** *** The main boundary exchange *)

(** Modelled from the spec: the prognostic fields the stages of a pass write
    into the next time level.  The solver modules are not among the sources;
    sections 3 and 4.1 of the specification give the momentum solver the next
    velocity, the tracer solver the next temperature, salinity and density,
    and each enabled closure its own energy field. *)
Definition fields_written (c : Settings) : list Field :=
  [fld_u; fld_v; fld_temp; fld_salt; fld_rho]
  ++ (if enable_eke c then [fld_eke] else [])
  ++ (if enable_idemix c then [fld_E_iw] else [])
  ++ (if enable_idemix_M2 c then [fld_E_M2] else [])
  ++ (if enable_idemix_niw c then [fld_E_niw] else [])
  ++ (if enable_tke c then [fld_tke] else []).

(** The exchange of a completed pass reaches every field written in it. *)
Definition exchanges_every_written_field (s : PyOM) : Prop :=
  res (timestep s) = Ok tt ->
  enable_cyclic_x (settings s) = true ->
  forall f, In f (fields_written (settings s)) ->
            In (ev_call (cyclic_setcyclic_x f (taup1 s))) (log (timestep s)).

Definition before_exchange (c : Settings) : list Event :=
  forcing_stage ++ precompute_stage c ++ momentum_stage ++ tracer_stage
  ++ wgrid_stage c ++ eke_stage c ++ idemix_stage c ++ tke_stage c.

Lemma exchanged_fields_spec (c : Settings) (f : Field) :
  In f (exchanged_fields c) <->
  f = fld_u \/ f = fld_v
  \/ (f = fld_tke /\ enable_tke c = true)
  \/ (f = fld_eke /\ enable_eke c = true)
  \/ (f = fld_E_iw /\ enable_idemix c = true)
  \/ (f = fld_E_M2 /\ enable_idemix_M2 c = true)
  \/ (f = fld_E_niw /\ enable_idemix_niw c = true).
Proof.
  unfold exchanged_fields.
  destruct (enable_tke c), (enable_eke c), (enable_idemix c),
    (enable_idemix_M2 c), (enable_idemix_niw c); simpl; split; intros H;
    repeat match goal with
           | H : _ \/ _ |- _ => destruct H
           | H : _ /\ _ |- _ => destruct H
           | H : False |- _ => destruct H
           end; subst; try discriminate; auto 12.
Qed.

(** C4, as the code has it.  In a completed pass the calls of [setcyclic_x]
    stand together after the solver and closure stages and before the
    diagnostics and the rotation; they are made only when [enable_cyclic_x]
    is set, at the next time level, and on these fields in this order: [u],
    [v], then [tke], [eke], [E_iw], [E_M2], [E_niw], each when its switch is
    set.  Temperature, salinity, density and the vertical velocity are not
    among them. *)
Theorem main_exchange_fields (s : PyOM) :
  res (timestep s) = Ok tt ->
  log (timestep s)
  = before_exchange (settings s)
    ++ exchange_stage (settings s) (taup1 s)
    ++ diagnostic_stage (settings s) ++ [ev_shift_time]
  /\ (forall ev, In ev (before_exchange (settings s)) -> stage ev < 9)
  /\ (forall ev, In ev (diagnostic_stage (settings s)) -> stage ev = 10)
  /\ exchange_stage (settings s) (taup1 s)
     = (if enable_cyclic_x (settings s)
        then map (fun f => ev_call (cyclic_setcyclic_x f (taup1 s)))
                 (exchanged_fields (settings s))
        else [])
  /\ (forall f, In f (exchanged_fields (settings s)) <->
        f = fld_u \/ f = fld_v
        \/ (f = fld_tke /\ enable_tke (settings s) = true)
        \/ (f = fld_eke /\ enable_eke (settings s) = true)
        \/ (f = fld_E_iw /\ enable_idemix (settings s) = true)
        \/ (f = fld_E_M2 /\ enable_idemix_M2 (settings s) = true)
        \/ (f = fld_E_niw /\ enable_idemix_niw (settings s) = true)).
Proof.
  intros R. destruct (timestep_follows s) as [_ Hlog]. rewrite R in Hlog.
  split; [|split; [|split; [|split]]].
  - rewrite Hlog. unfold step_trace, before_exchange, rotation_stage.
    repeat rewrite <- app_assoc. reflexivity.
  - intros ev H. apply Z.ltb_lt. revert ev H. apply forallb_forall.
    unfold before_exchange. unfold_stages. by_settings (settings s); reflexivity.
  - intros ev H. apply Z.eqb_eq. revert ev H. apply forallb_forall.
    unfold_stages. by_settings (settings s); reflexivity.
  - reflexivity.
  - apply exchanged_fields_spec.
Qed.

(** ** Further properties of the loop and of setup *)

Definition is_rotation (ev : Event) : bool :=
  match ev with ev_shift_time => true | _ => false end.

(** The number of time-level rotations in a log. *)
Definition rotations (l : list Event) : nat := List.length (filter is_rotation l).

Lemma rotations_app (l1 l2 : list Event) :
  rotations (l1 ++ l2) = (rotations l1 + rotations l2)%nat.
Proof. unfold rotations. rewrite filter_app, List.length_app. reflexivity. Qed.

Lemma rotations_calls (l : list Event) : Forall is_call l -> rotations l = O.
Proof.
  induction 1 as [|ev l Hev _ IH]; [reflexivity|].
  destruct ev; try contradiction. exact IH.
Qed.

Lemma steps_rotations (n : nat) (s : PyOM) :
  res (steps n s) = Ok tt -> rotations (log (steps n s)) = n.
Proof.
  induction n as [|n IH]; intros R; [reflexivity|].
  destruct (steps_S_ok n s R) as [Rn [Rt [_ Hl]]].
  destruct (timestep_ok _ Rt) as [_ Ht].
  rewrite Hl, rotations_app, (IH Rn), Ht, rotations_app.
  rewrite (rotations_calls _ (solver_trace_calls _ _)).
  change (rotations [ev_shift_time]) with 1%nat. lia.
Qed.

(** X1.  When none of the [enditt - itt] passes that are due raises, the loop of
    [run] ends normally after exactly these passes: the step counter stands at
    [enditt] (or where it was, if it was there already), the log is the log of
    the passes with one rotation for each, and [diagnostics.panic_snap] was
    never called. *)
Theorem loop_runs_to_enditt (fuel : nat) (s : PyOM) :
  res (steps (Z.to_nat (enditt s - itt s)) s) = Ok tt ->
  (Z.to_nat (enditt s - itt s) <= fuel)%nat ->
  exists o,
    main_loop fuel s = Some o
    /\ res o = Ok tt
    /\ st o = st (steps (Z.to_nat (enditt s - itt s)) s)
    /\ log o = log (steps (Z.to_nat (enditt s - itt s)) s)
    /\ itt (st o) = Z.max (itt s) (enditt s)
    /\ enditt (st o) = enditt s
    /\ rotations (log o) = Z.to_nat (enditt s - itt s)
    /\ ~ In (ev_call diagnostics_panic_snap) (log o).
Proof.
  remember (Z.to_nat (enditt s - itt s)) as n eqn:Hn.
  revert fuel s Hn. induction n as [|n IH]; intros fuel s Hn R Hf.
  - assert (T : (itt s <? enditt s) = false) by (apply Z.ltb_ge; lia).
    exists (ret tt s). split.
    + destruct fuel; simpl; rewrite T; reflexivity.
    + simpl. repeat split; try lia; try (intros []).
  - destruct fuel as [|fuel]; [lia|].
    assert (T : itt s < enditt s) by lia.
    pose proof (steps_cons_inv n s R) as R1.
    destruct (steps_cons_ok n s R1) as [E1 [E2 E3]].
    destruct (timestep_ok_pointers s R1) as [_ [Hi [He _]]].
    rewrite E1 in R.
    destruct (IH fuel (st (timestep s)) ltac:(lia) R ltac:(lia))
      as [o [M [A1 [A2 [A3 [A4 [A5 [A6 A7]]]]]]]].
    exists (prepend (log (timestep s)) o).
    rewrite (main_loop_pass fuel s T R1), M, E2, E3.
    unfold prepend. cbn [option_map res st log].
    assert (Hrot : rotations (log (timestep s)) = 1%nat).
    { destruct (timestep_ok s R1) as [_ Ht]. rewrite Ht, rotations_app.
      rewrite (rotations_calls _ (solver_trace_calls _ _)). reflexivity. }
    repeat split; try assumption.
    + rewrite A3. reflexivity.
    + lia.
    + lia.
    + rewrite rotations_app, Hrot, A6. lia.
    + intros Hin. apply in_app_or in Hin. destruct Hin as [Hin|Hin]; [|exact (A7 Hin)].
      apply timestep_log_stages in Hin. simpl in Hin. lia.
Qed.

Lemma rotated_thrice (p : Z * Z * Z) : rotated (rotated (rotated p)) = p.
Proof. destruct p as [[a b] c]. reflexivity. Qed.

Lemma iter_rotated_cycles (q r : nat) (p : Z * Z * Z) :
  Nat.iter (3 * q + r) rotated p = Nat.iter r rotated p.
Proof.
  induction q as [|q IH]; [reflexivity|].
  replace (3 * S q + r)%nat with (3 + (3 * q + r))%nat by lia.
  rewrite Nat.iter_add.
  change (rotated (rotated (rotated (Nat.iter (3 * q + r) rotated p)))
          = Nat.iter r rotated p).
  rewrite rotated_thrice. exact IH.
Qed.

Lemma iter_rotated_mod (n : nat) (p : Z * Z * Z) :
  Nat.iter n rotated p = Nat.iter (n mod 3) rotated p.
Proof.
  rewrite <- (iter_rotated_cycles (n / 3) (n mod 3) p).
  f_equal. apply Nat.div_mod_eq.
Qed.

(** X2.  The pointers after [n] completed passes depend on [n] modulo 3 only:
    every third pass brings them back, whatever they were. *)
Theorem pointers_have_period_three (n : nat) (s : PyOM) :
  res (steps n s) = Ok tt ->
  pointers (st (steps n s)) = Nat.iter (n mod 3) rotated (pointers s).
Proof.
  intros R. rewrite <- iter_rotated_mod. revert R.
  induction n as [|n IH]; intros R; [reflexivity|].
  destruct (steps_S_ok n s R) as [Rn [Rt [-> _]]].
  destruct (timestep_ok_pointers _ Rt) as [-> _].
  rewrite (IH Rn). reflexivity.
Qed.

(** X3.  [diagnostics.panic_snap] is called in a run of the loop exactly when the
    loop ends with an exception, and then once, as the last thing done. *)
Theorem panic_snap_iff_exception (fuel : nat) (s : PyOM) (o : out unit) :
  main_loop fuel s = Some o ->
  (In (ev_call diagnostics_panic_snap) (log o) <-> exists e, res o = Raise e)
  /\ (In (ev_call diagnostics_panic_snap) (log o) ->
      exists l, log o = l ++ [ev_call diagnostics_panic_snap]
                /\ ~ In (ev_call diagnostics_panic_snap) l).
Proof.
  intros H. destruct (main_loop_inv fuel s o H) as [n [Rn Hn]].
  destruct (res o) as [[]|e] eqn:R.
  - destruct Hn as [_ [Hl _]].
    assert (No : ~ In (ev_call diagnostics_panic_snap) (log o)).
    { rewrite Hl. intros Hin. apply (steps_log_stages n s _ Rn) in Hin.
      simpl in Hin. lia. }
    split; [split|].
    + intros Hin. contradiction.
    + intros [e He]. discriminate.
    + intros Hin. contradiction.
  - destruct Hn as [_ [_ [_ [Hl [e0 He0]]]]].
    destruct (iteration_raise _ e0 He0) as [_ [_ I3]].
    rewrite I3, app_assoc in Hl.
    assert (No : ~ In (ev_call diagnostics_panic_snap)
                     (log (steps n s) ++ log (timestep (st (steps n s))))).
    { intros Hin. apply in_app_or in Hin. destruct Hin as [Hin|Hin].
      - apply (steps_log_stages n s _ Rn) in Hin. simpl in Hin. lia.
      - apply timestep_log_stages in Hin. simpl in Hin. lia. }
    split; [split|].
    + intros _. exists e. reflexivity.
    + intros _. rewrite Hl. apply in_or_app. right. left. reflexivity.
    + intros _. eexists. split; [exact Hl|exact No].
Qed.

(** *** Setup and the prologue of [run] *)

Lemma follows_returns (m : M unit) L (s : PyOM) :
  follows m L ->
  returns_normally s (L (settings s) (taup1 s)) ->
  res (m s) = Ok tt.
Proof.
  intros Hf Hn. destruct (Hf s) as [_ Hlog].
  destruct (res (m s)) as [[]|e]; [reflexivity|].
  destruct Hlog as [[pre [c [Hl He]]] [rest Hrest]].
  rewrite Hl, <- app_assoc in Hrest. simpl in Hrest.
  rewrite (Hn _ _ _ Hrest) in He. discriminate.
Qed.

Lemma returns_normally_app (s : PyOM) (l1 l2 : list Event) :
  returns_normally s (l1 ++ l2) ->
  returns_normally s l1 /\ returns_normally (replay s l1) l2.
Proof.
  intros H. split.
  - intros pre c rest E. apply (H pre c (rest ++ l2)).
    rewrite E, <- app_assoc. reflexivity.
  - intros pre c rest E. rewrite <- replay_app. apply (H (l1 ++ pre) c rest).
    rewrite E, <- app_assoc. reflexivity.
Qed.

Lemma returns_normally_after_set_parameter (s : PyOM) (l : list Event) :
  returns_normally s (ev_set_parameter :: l) ->
  returns_normally (apply_event s ev_set_parameter) l.
Proof.
  intros H.
  exact (proj2 (returns_normally_app s [ev_set_parameter] l H)).
Qed.

Lemma setup_outcome (s : PyOM) (c : Settings) (v : Vars) :
  set_parameter s = (c, v, None) ->
  tke_misconfigured c = false ->
  returns_normally s (setup_trace c) ->
  res (setup s) = Ok tt
  /\ log (setup s) = setup_trace c
  /\ st (setup s) = replay s (setup_trace c)
  /\ settings (st (setup s)) = c
  /\ clock (st (setup s)) = clock s.
Proof.
  intros P B Hn. rewrite (setup_eq s c v P).
  set (s1 := set_vars (set_settings s c) v).
  assert (A1 : apply_event s ev_set_parameter = s1) by (simpl; rewrite P; reflexivity).
  apply returns_normally_after_set_parameter in Hn. rewrite A1 in Hn.
  pose proof (follows_returns setup_calls _ s1 setup_calls_follows Hn) as R.
  destruct (setup_calls_follows s1) as [Hst Hlog]. rewrite R in Hlog.
  change (settings s1) with c in Hlog.
  pose proof (setup_calls_trace_calls c) as Hc. rewrite <- Hlog in Hc.
  assert (Hs : st (setup_calls s1) = set_vars s1 (vars (st (setup_calls s1)))).
  { rewrite Hst at 1. rewrite Hst at 1. apply replay_calls, Hc. }
  rewrite (bind_ok _ _ _ _ R), check_setup_eq. unfold prepend. cbn [res st log].
  assert (Hset : settings (st (setup_calls s1)) = c) by (rewrite Hs; reflexivity).
  rewrite Hset, B, app_nil_r, Hlog.
  split; [reflexivity|]. split; [reflexivity|]. split; [|split].
  - rewrite Hst, Hlog. unfold setup_trace.
    change (replay s (ev_set_parameter :: setup_calls_trace c))
      with (replay (apply_event s ev_set_parameter) (setup_calls_trace c)).
    rewrite A1. reflexivity.
  - reflexivity.
  - rewrite Hs. reflexivity.
Qed.

(** X4.  [setup] with usable settings and no failing call: every stage is
    run, in the order of [setup_trace] ([streamfunction_init] exactly when
    [enable_streamfunction] is set), the settings are those of
    [set_parameter], and the pointers and the step counter are untouched. *)
Theorem setup_returns_normally (s : PyOM) (c : Settings) (v : Vars) :
  set_parameter s = (c, v, None) ->
  tke_misconfigured c = false ->
  returns_normally s (setup_trace c) ->
  res (setup s) = Ok tt
  /\ log (setup s) = setup_trace c
  /\ st (setup s) = replay s (setup_trace c)
  /\ settings (st (setup s)) = c
  /\ clock (st (setup s)) = clock s.
Proof. exact (setup_outcome s c v). Qed.

(** X5.  When [set_parameter] raises (as the method of the base class does, which
    is [_not_implemented]), [setup] and [run] end with its exception at once:
    no other call is made. *)
Theorem set_parameter_failure_stops_run
  (snapint_arg runlen_arg : Float) (fuel : nat) (s : PyOM)
  (c : Settings) (v : Vars) (e : exn) :
  set_parameter (set_snapint (set_runlen s runlen_arg) snapint_arg) = (c, v, Some e) ->
  res (setup (set_snapint (set_runlen s runlen_arg) snapint_arg)) = Raise e
  /\ log (setup (set_snapint (set_runlen s runlen_arg) snapint_arg)) = [ev_set_parameter]
  /\ exists o,
       run snapint_arg runlen_arg fuel s = Some o
       /\ res o = Raise e
       /\ log o = [ev_set_parameter]
       /\ clock (st o) = clock s.
Proof.
  intros P. set (s0 := set_snapint (set_runlen s runlen_arg) snapint_arg) in *.
  assert (S1 : setup s0
               = mk_out (Raise e) (set_vars (set_settings s0 c) v) [ev_set_parameter]).
  { unfold setup. unfold bind at 1. unfold call_set_parameter. rewrite P. reflexivity. }
  rewrite S1. split; [reflexivity|]. split; [reflexivity|].
  exists (mk_out (Raise e) (set_vars (set_settings s0 c) v) [ev_set_parameter]).
  unfold run, run_prologue.
  rewrite (bind_ok (modify _) _ s tt eq_refl). cbn [modify st log]. fold s0.
  assert (R : res (setup s0) = Raise e) by (rewrite S1; reflexivity).
  rewrite (bind_raise setup _ s0 e R), S1. repeat split.
Qed.

Lemma clock_itt (a b : PyOM) : clock a = clock b -> itt a = itt b.
Proof. unfold clock. intros E. injection E as _ _ _ E. exact E. Qed.

(** What [run] does between [setup] and the loop. *)
Definition read_restarts_at (i : Z) : M unit :=
  call (restart_read_restart i) ;;
  when_ enable_diag_averages (call diagnostics_diag_averages_read_restart) ;;
  when_ enable_diag_energy (call diagnostics_diag_energy_read_restart) ;;
  when_ enable_diag_overturning (call diagnostics_diag_over_read_restart) ;;
  when_ enable_diag_particles (call diagnostics_diag_particles_read_restart).

Definition set_last_step : M unit :=
  s <- get ;;
  n <- lift (int_of_quotient (runlen (settings s)) (dt_tracer (settings s))) ;;
  modify (fun s => set_enditt s (itt s + n)).

Definition restart_trace (c : Settings) (i : Z) : list Event :=
  [ev_call (restart_read_restart i)]
  ++ opt (enable_diag_averages c) [ev_call diagnostics_diag_averages_read_restart]
  ++ opt (enable_diag_energy c) [ev_call diagnostics_diag_energy_read_restart]
  ++ opt (enable_diag_overturning c) [ev_call diagnostics_diag_over_read_restart]
  ++ opt (enable_diag_particles c) [ev_call diagnostics_diag_particles_read_restart].

Lemma read_restarts_follows (i : Z) :
  follows (read_restarts_at i) (fun c _ => restart_trace c i).
Proof.
  eapply follows_ext.
  - unfold read_restarts_at. follow_with fail.
  - intros c k. reflexivity.
Qed.

Lemma restart_trace_calls (c : Settings) (i : Z) : Forall is_call (restart_trace c i).
Proof. unfold restart_trace, opt. all_calls. Qed.

Lemma bind_get {B} (k : PyOM -> M B) (s : PyOM) : bind get k s = k s s.
Proof. unfold bind, get. simpl. apply out_eta. Qed.

Lemma run_prologue_split (snapint_arg runlen_arg : Float) (s : PyOM) :
  run_prologue snapint_arg runlen_arg s
  = (modify (fun s => set_snapint (set_runlen s runlen_arg) snapint_arg) ;;
     setup ;;
     (s <- get ;; read_restarts_at (itt s) ;; set_last_step)) s.
Proof.
  unfold run_prologue. apply bind_ext. intros _ s1.
  apply bind_ext. intros _ s2. apply bind_ext. intros s3 s4.
  unfold read_restarts_at.
  repeat (rewrite bind_assoc; apply bind_ext; intros [] ?).
  reflexivity.
Qed.

Definition last_step (r : result Z) (first : Z) (otherwise : Z) : Z :=
  match r with Ok n => first + n | Raise _ => otherwise end.

(** X6.  The prologue of [run] when the settings are usable and no call
    fails: [run] stores its two arguments, [setup] runs, and in it
    [set_parameter] chooses the settings [c] ([runlen] and [snapint] among
    them, so that it may overwrite what [run] has stored); then come the
    restart reads in the order of [restart_trace], then
    [enditt = itt + int(runlen / dt_tracer)] with the [runlen] and the
    [dt_tracer] of [c].  When that division raises (a zero [dt_tracer], the
    default), [run] ends with its exception before the first pass; otherwise
    [run] is the loop, started with the new [enditt]. *)
Theorem run_prologue_sets_last_step
  (snapint_arg runlen_arg : Float) (fuel : nat) (s : PyOM) (c : Settings) (v : Vars) :
  set_parameter (set_snapint (set_runlen s runlen_arg) snapint_arg) = (c, v, None) ->
  tke_misconfigured c = false ->
  returns_normally (set_snapint (set_runlen s runlen_arg) snapint_arg)
                   (setup_trace c ++ restart_trace c (itt s)) ->
  let o := run_prologue snapint_arg runlen_arg s in
  res o = match int_of_quotient (runlen c) (dt_tracer c) with
          | Ok _ => Ok tt
          | Raise e => Raise e
          end
  /\ log o = setup_trace c ++ restart_trace c (itt s)
  /\ clock (st o) = clock s
  /\ settings (st o) = c
  /\ enditt (st o)
     = last_step (int_of_quotient (runlen c) (dt_tracer c)) (itt s) (enditt s)
  /\ run snapint_arg runlen_arg fuel s
     = match int_of_quotient (runlen c) (dt_tracer c) with
       | Ok _ => option_map (prepend (log o)) (main_loop fuel (st o))
       | Raise _ => Some o
       end.
Proof.
  intros P B Hn o. subst o. unfold run.
  rewrite (run_prologue_split snapint_arg runlen_arg s).
  rewrite (bind_ok (modify _) _ s tt eq_refl). cbn [modify st log].
  set (s0 := set_snapint (set_runlen s runlen_arg) snapint_arg) in *.
  apply returns_normally_app in Hn. destruct Hn as [Hn1 Hn2].
  destruct (setup_outcome s0 c v P B Hn1) as [R1 [L1 [S1 [C1 K1]]]].
  rewrite (bind_ok setup _ s0 tt R1), bind_get.
  set (s2 := st (setup s0)) in *.
  assert (I2 : itt s2 = itt s) by exact (clock_itt _ _ K1).
  rewrite I2. rewrite <- S1 in Hn2.
  assert (Hn3 : returns_normally s2 (restart_trace (settings s2) (itt s)))
    by (rewrite C1; exact Hn2).
  pose proof (follows_returns (read_restarts_at (itt s)) _ s2
                (read_restarts_follows (itt s)) Hn3) as R3.
  destruct (read_restarts_follows (itt s) s2) as [S3 L3]. rewrite R3, C1 in L3.
  pose proof (restart_trace_calls c (itt s)) as Hc. rewrite <- L3 in Hc.
  assert (E3 : st (read_restarts_at (itt s) s2)
               = set_vars s2 (vars (st (read_restarts_at (itt s) s2)))).
  { rewrite S3 at 1. rewrite S3 at 1. apply replay_calls, Hc. }
  rewrite (bind_ok (read_restarts_at (itt s)) _ s2 tt R3).
  set (s3 := st (read_restarts_at (itt s) s2)) in *.
  assert (T3 : settings s3 = c) by (rewrite E3; exact C1).
  unfold set_last_step. rewrite bind_get. unfold bind at 1 3 5 7 9 11, lift at 1 2 3 4 5 6.
  cbn [res st log]. rewrite T3.
  assert (K3 : clock s3 = clock s).
  { rewrite E3. unfold clock in *. simpl in *. congruence. }
  assert (N3 : enditt s3 = enditt s).
  { rewrite E3. cbn [enditt set_vars]. unfold s2.
    destruct (setup_after_set_parameter s0 c v P) as [_ [_ [Hs _]]].
    rewrite Hs. reflexivity. }
  destruct (int_of_quotient (runlen c) (dt_tracer c)) as [n|e];
    unfold prepend, lift; cbn [res st log modify last_step app];
    rewrite ?app_nil_r, L1, L3.
  - repeat split; try assumption.
    cbn [enditt set_enditt]. rewrite (clock_itt _ _ K3). reflexivity.
  - repeat split; assumption.
Qed.

End Model.

Arguments mk_out {Float Vars A} _ _ _.
Arguments res {Float Vars A} _.
Arguments st {Float Vars A} _.
Arguments log {Float Vars A} _.

(** ** A small model run, used to exercise the statements above *)

Definition field_index (f : Field) : Z :=
  match f with
  | fld_u => 0 | fld_v => 1 | fld_w => 2 | fld_temp => 3 | fld_salt => 4
  | fld_rho => 5 | fld_tke => 6 | fld_eke => 7 | fld_E_iw => 8
  | fld_E_M2 => 9 | fld_E_niw => 10
  end.

(** One number per field and time level stands for the whole array. *)
Definition demo_vars : Type := Field -> Z -> Z.

Definition write (v : demo_vars) (f : Field) (k x : Z) : demo_vars :=
  fun g j => if (field_index g =? field_index f) && (j =? k) then x else v g j.

(** The momentum solver stores the step number in the next level of [u] and
    fails to converge in step 3; the tracer solver stores ten times the step
    number in the next level of [temp]. *)
Definition demo_exec (c : Call) (s : @PyOM unit demo_vars) : demo_vars * option exn :=
  match c with
  | momentum_momentum =>
      if itt s =? 3
      then (vars s, Some (ExternalError "congrad: no convergence"))
      else (write (vars s) fld_u (taup1 s) (itt s), None)
  | thermodynamics_thermodynamics =>
      (write (vars s) fld_temp (taup1 s) (10 * itt s), None)
  | _ => (vars s, None)
  end.

Definition demo_settings (cyclic tke_on implicit : bool) : @Settings unit :=
  {| dt_tracer := tt;
     enable_cyclic_x := cyclic;
     enable_implicit_vert_friction := implicit;
     enable_hydrostatic := true;
     enable_streamfunction := true;
     enable_idemix := false;
     enable_idemix_M2 := false;
     enable_idemix_niw := false;
     enable_tke := tke_on;
     enable_eke := false;
     enable_diag_averages := false;
     enable_diag_energy := false;
     enable_diag_overturning := false;
     enable_diag_particles := false;
     runlen := tt;
     snapint := tt |}.

Definition demo_set_parameter (c : @Settings unit) (s : @PyOM unit demo_vars)
  : @Settings unit * demo_vars * option exn :=
  (c, vars s, None).

Definition demo_initial : @PyOM unit demo_vars :=
  set_default_settings tt (fun _ _ => 0).

(** Six steps to go, cyclic in x, TKE closure with implicit friction. *)
Definition demo_start : @PyOM unit demo_vars :=
  set_enditt (set_settings demo_initial (demo_settings true true true)) 7.

Lemma demo_writes_next_only (c : Call) (s : @PyOM unit demo_vars) (f : Field) (k : Z) :
  is_step_call c = true -> k <> taup1 s ->
  fst (demo_exec c s) f k = vars s f k.
Proof.
  intros _ Hk. destruct c; try reflexivity; simpl.
  - destruct (itt s =? 3); [reflexivity|]. simpl. unfold write.
    destruct (k =? taup1 s) eqn:E; [apply Z.eqb_eq in E; contradiction|].
    rewrite andb_false_r. reflexivity.
  - unfold write.
    destruct (k =? taup1 s) eqn:E; [apply Z.eqb_eq in E; contradiction|].
    rewrite andb_false_r. reflexivity.
Qed.

Lemma demo_two_passes : res (steps false demo_exec 2 demo_start) = Ok tt.
Proof. vm_compute. reflexivity. Qed.

(** Two passes from the initial pointers: the past level after the second
    pass is the current level after the first, contents included. *)
Lemma time_level_rotation_witness :
  taum1 (st (steps false demo_exec 2 demo_start))
  = tau (st (steps false demo_exec 1 demo_start))
  /\ forall f,
       vars (st (steps false demo_exec 2 demo_start)) f
            (taum1 (st (steps false demo_exec 2 demo_start)))
       = vars (st (steps false demo_exec 1 demo_start)) f
              (tau (st (steps false demo_exec 1 demo_start))).
Proof.
  destruct (time_level_rotation tt (fun _ _ => Ok 6) false demo_exec
              (demo_set_parameter (demo_settings true true true))
              Z (fun v => v) demo_writes_next_only (fun _ _ => 0) tt tt)
    as [_ [_ [_ [_ H]]]].
  destruct (H demo_start 1%nat eq_refl demo_two_passes) as [A [_ [_ B]]].
  split; [exact A|exact B].
Defined.

(** Where the run of [demo_start] ends: in step 3 the momentum solver
    raises. *)
Definition demo_end : @out unit demo_vars unit :=
  match main_loop false demo_exec 10 demo_start with
  | Some o => o
  | None => ret tt demo_start
  end.

Definition demo_error : exn := ExternalError "congrad: no convergence".

Lemma demo_run_ends : main_loop false demo_exec 10 demo_start = Some demo_end.
Proof. vm_compute. reflexivity. Qed.

Lemma demo_run_raises : res demo_end = Raise demo_error.
Proof. vm_compute. reflexivity. Qed.

Lemma demo_third_pass :
  res (timestep false demo_exec (st (steps false demo_exec 2 demo_start)))
  = Raise demo_error.
Proof. vm_compute. reflexivity. Qed.

Lemma panic_snap_then_reraise_witness :
  exists o,
    main_loop false demo_exec 10 demo_start = Some o
    /\ res o = Raise (reraised
                        (snd (demo_exec diagnostics_panic_snap
                                (st (timestep false demo_exec
                                       (st (steps false demo_exec 2 demo_start))))))
                        demo_error)
    /\ log o = log (steps false demo_exec 2 demo_start)
               ++ log (timestep false demo_exec (st (steps false demo_exec 2 demo_start)))
               ++ [ev_call diagnostics_panic_snap]
    /\ itt (st o) = itt demo_start + 2.
Proof.
  destruct (panic_snap_then_reraise false demo_exec
              (demo_set_parameter (demo_settings true true true))
              2 10 demo_start demo_error
              demo_two_passes ltac:(vm_compute; reflexivity) demo_third_pass
              ltac:(repeat constructor))
    as [o [A [B [_ [C [_ [_ [_ [_ [D _]]]]]]]]]].
  exists o. repeat split; assumption.
Defined.

(** [set_parameter] switches the TKE closure on and leaves vertical friction
    explicit: [run] stops in [setup]. *)
Lemma tke_without_implicit_friction_aborts_witness :
  exists e o,
    res (setup demo_exec (demo_set_parameter (demo_settings true true false))
               (set_snapint (set_runlen demo_initial tt) tt)) = Raise e
    /\ run (fun _ _ => Ok 6) false demo_exec
           (demo_set_parameter (demo_settings true true false)) tt tt 0 demo_initial
       = Some o
    /\ res o = Raise e
    /\ ~ In (ev_call momentum_momentum) (log o).
Proof.
  destruct (tke_without_implicit_friction_aborts (fun _ _ => Ok 6) false demo_exec
              (demo_set_parameter (demo_settings true true false))
              tt tt 0 demo_initial (demo_settings true true false) (fun _ _ => 0)
              eq_refl eq_refl eq_refl)
    as [e [A [_ [_ [_ [o [B [C [_ [_ [_ [D _]]]]]]]]]]]].
  exists e, o. repeat split; assumption.
Defined.

Lemma demo_first_pass : res (timestep false demo_exec demo_start) = Ok tt.
Proof. vm_compute. reflexivity. Qed.

(** The first pass of [demo_start] exchanges [u], [v] and [tke] at level 2. *)
Lemma main_exchange_fields_witness :
  res (timestep false demo_exec demo_start) = Ok tt
  /\ exchange_stage (settings demo_start) (taup1 demo_start)
     = map (fun f => ev_call (cyclic_setcyclic_x f 2)) [fld_u; fld_v; fld_tke]
  /\ forall ev, In ev (before_exchange (settings demo_start)) -> stage ev < 9.
Proof.
  destruct (main_exchange_fields false demo_exec
              (demo_set_parameter (demo_settings true true true)) demo_start
              demo_first_pass)
    as [_ [A [_ [B _]]]].
  split; [exact demo_first_pass|]. split; [exact B|exact A].
Defined.

Lemma demo_first_pass_log :
  log (timestep false demo_exec demo_start)
  = map ev_call
        [self_set_forcing; eke_set_eke_diffusivities; tke_set_tke_diffusivities;
         momentum_momentum; thermodynamics_thermodynamics;
         advection_calculate_velocity_on_wgrid; tke_integrate_tke;
         cyclic_setcyclic_x fld_u 2; cyclic_setcyclic_x fld_v 2;
         cyclic_setcyclic_x fld_tke 2;
         momentum_vertical_velocity; diagnostics_diagnose]
    ++ [ev_shift_time].
Proof. vm_compute. reflexivity. Qed.

(** C4 as stated fails: in the first pass of [demo_start] the tracer solver
    writes the next level of [temp], and [run] does not exchange it. *)
Lemma exchange_misses_temperature :
  ~ exchanges_every_written_field false demo_exec demo_start.
Proof.
  intros H.
  assert (W : In fld_temp (fields_written (settings demo_start)))
    by (right; right; left; reflexivity).
  apply (H demo_first_pass eq_refl) in W.
  rewrite demo_first_pass_log in W. simpl in W.
  repeat (destruct W as [W|W]; [discriminate W|]). exact W.
Qed.


(** ** Runs of the small model for the further properties *)

(** Two steps to go: both pass. *)
Definition demo_short : @PyOM unit demo_vars := set_enditt demo_start 3.

Lemma demo_short_passes :
  res (steps false demo_exec (Z.to_nat (enditt demo_short - itt demo_short)) demo_short)
  = Ok tt.
Proof. vm_compute. reflexivity. Qed.

Lemma loop_runs_to_enditt_witness :
  exists o,
    main_loop false demo_exec 5 demo_short = Some o
    /\ res o = Ok tt
    /\ itt (st o) = 3
    /\ rotations (log o) = 2%nat.
Proof.
  destruct (loop_runs_to_enditt false demo_exec
              (demo_set_parameter (demo_settings true true true))
              5 demo_short demo_short_passes ltac:(vm_compute; repeat constructor))
    as [o [A [B [_ [_ [C [_ [D _]]]]]]]].
  exists o. repeat split; assumption.
Defined.

(** Past the failing step: three passes from step 4 bring the pointers back. *)
Definition demo_late : @PyOM unit demo_vars := set_itt demo_start 4.

Lemma demo_late_passes : res (steps false demo_exec 3 demo_late) = Ok tt.
Proof. vm_compute. reflexivity. Qed.

Lemma pointers_have_period_three_witness :
  pointers (st (steps false demo_exec 3 demo_late)) = pointers demo_late.
Proof.
  exact (pointers_have_period_three false demo_exec
           (demo_set_parameter (demo_settings true true true))
           3 demo_late demo_late_passes).
Defined.

Lemma panic_snap_iff_exception_witness :
  In (ev_call diagnostics_panic_snap) (log demo_end) <-> exists e, res demo_end = Raise e.
Proof.
  exact (proj1 (panic_snap_iff_exception false demo_exec
                  (demo_set_parameter (demo_settings true true true))
                  10 demo_start demo_end demo_run_ends)).
Defined.

Lemma demo_exec_quiet (c : Call) (s : @PyOM unit demo_vars) :
  not_setup_stage (ev_call c) = true -> snd (demo_exec c s) = None.
Proof. destruct c; try reflexivity; discriminate. Qed.

Lemma demo_returns_normally (sp : @PyOM unit demo_vars -> @Settings unit * demo_vars * option exn)
  (s : @PyOM unit demo_vars) (l : list Event) :
  forallb not_setup_stage l = true -> returns_normally demo_exec sp s l.
Proof.
  intros H pre c rest E. apply demo_exec_quiet.
  rewrite forallb_forall in H. apply H. rewrite E.
  apply in_or_app. right. left. reflexivity.
Qed.

Lemma setup_returns_normally_witness :
  res (setup demo_exec (demo_set_parameter (demo_settings true true true)) demo_initial)
  = Ok tt
  /\ log (setup demo_exec (demo_set_parameter (demo_settings true true true)) demo_initial)
     = setup_trace (demo_settings true true true).
Proof.
  destruct (setup_returns_normally demo_exec
              (demo_set_parameter (demo_settings true true true))
              demo_initial (demo_settings true true true) (fun _ _ => 0)
              eq_refl eq_refl
              (demo_returns_normally _ _ (setup_trace (demo_settings true true true))
                 eq_refl))
    as [A [B _]].
  split; [exact A|exact B].
Defined.

(** [set_parameter = _not_implemented], as in the class [PyOM] itself. *)
Definition not_implemented {Float Vars : Type} (s : @PyOM Float Vars)
  : @Settings Float * Vars * option exn :=
  (settings s, vars s, Some NotImplementedError).

Lemma set_parameter_failure_stops_run_witness :
  exists o,
    run (fun _ _ => Ok 6) false demo_exec not_implemented tt tt 10 demo_initial = Some o
    /\ res o = Raise NotImplementedError
    /\ log o = [ev_set_parameter].
Proof.
  destruct (set_parameter_failure_stops_run (fun _ _ => Ok 6) false demo_exec
              not_implemented tt tt 10 demo_initial
              (settings demo_initial) (vars demo_initial) NotImplementedError eq_refl)
    as [_ [_ [o [A [B [C _]]]]]].
  exists o. repeat split; assumption.
Defined.

(** A model whose [set_parameter] asks for two hours in steps of half an
    hour, run with another length as the argument of [run]. *)
Definition hour_settings : @Settings Z :=
  {| dt_tracer := 1800;
     enable_cyclic_x := false;
     enable_implicit_vert_friction := false;
     enable_hydrostatic := true;
     enable_streamfunction := false;
     enable_idemix := false;
     enable_idemix_M2 := false;
     enable_idemix_niw := false;
     enable_tke := false;
     enable_eke := false;
     enable_diag_averages := false;
     enable_diag_energy := false;
     enable_diag_overturning := false;
     enable_diag_particles := false;
     runlen := 7200;
     snapint := 86400 |}.

Definition hour_set_parameter (s : @PyOM Z demo_vars)
  : @Settings Z * demo_vars * option exn :=
  (hour_settings, vars s, None).

Definition quiet_exec (c : Call) (s : @PyOM Z demo_vars) : demo_vars * option exn :=
  (vars s, None).

Definition whole_quotient (a b : Z) : result Z :=
  if b =? 0 then Raise (ExternalError "float division by zero") else Ok (a / b).

Lemma run_prologue_sets_last_step_witness :
  enditt (st (run_prologue whole_quotient quiet_exec hour_set_parameter 0 999999
                (set_default_settings 0 (fun _ _ => 0))))
  = 5.
Proof.
  destruct (run_prologue_sets_last_step whole_quotient false quiet_exec
              hour_set_parameter 0 999999 0 (set_default_settings 0 (fun _ _ => 0))
              hour_settings (fun _ _ => 0) eq_refl eq_refl
              (fun pre c rest _ => eq_refl))
    as [_ [_ [_ [_ [A _]]]]].
  exact A.
Defined.

End Pyom.

(** * global_one_degree.py: the global one-degree setup *)

Module Global_one_degree.

Section Setup.

Context {F : Type} {scalar_F : Scalar F}.

Definition Arr1 : Type := Z -> F.
Definition Arr2 : Type := Z -> Z -> F.
Definition Arr3 : Type := Z -> Z -> Z -> F.
Definition Arr4 : Type := Z -> Z -> Z -> Z -> F.

(** The contents of [DATA_FILES], as [_read_binary] returns them with the
    shapes the callers ask for. *)
Record DataFiles : Type := {
  temperature : Arr3;
  salt_data : Arr3;
  sss : Arr3;
  tau_x : Arr3;
  tau_y : Arr3;
  q_net : Arr3;
  dqdt : Arr3;
  swf : Arr3;
  sst : Arr3;
  bathymetry : Arr2;
  tidal_energy : Arr2;
  wind_energy : Arr2
}.

(** What [set_initial_conditions] reads of the model ([m] and [self]). *)
Record Grid : Type := {
  nx : Z;
  ny : Z;
  nz : Z;
  np_ : Z;                        (* m.np *)
  rho_0 : F;
  pi_ : F;                        (* m.pi *)
  legacy_mode : bool;
  enable_cyclic_x : bool;
  enable_idemix : bool;
  enable_idemix_M2 : bool;
  enable_idemix_niw : bool;
  maskT : Arr3;
  maskW : Arr3;
  kbot : Z -> Z -> Z;
  zw : Arr1;
  dzt : Arr1;
  coriolis_t : Arr2
}.

(** What [set_initial_conditions] writes. *)
Record Fields : Type := mk_fields {
  temp : Arr4;
  salt : Arr4;
  taux : Arr3;
  tauy : Arr3;
  qnet : Arr3;
  qnec : Arr3;
  qsol : Arr3;
  t_star : Arr3;
  s_star : Arr3;
  forc_M2 : Arr3;                 (* idm.forc_M2 *)
  forc_niw : Arr3;                (* idm.forc_niw *)
  forc_iw_bottom : Arr2;
  forc_iw_surface : Arr2;
  omega_niw : Arr2;               (* idm.omega_niw *)
  divpen_shortwave : Arr1
}.

Definition set_temp (s : Fields) (x : Arr4) : Fields :=
  mk_fields x (salt s) (taux s) (tauy s) (qnet s) (qnec s) (qsol s) (t_star s) (s_star
    s) (forc_M2 s) (forc_niw s) (forc_iw_bottom s) (forc_iw_surface s) (omega_niw s)
    (divpen_shortwave s).
Definition set_salt (s : Fields) (x : Arr4) : Fields :=
  mk_fields (temp s) x (taux s) (tauy s) (qnet s) (qnec s) (qsol s) (t_star s) (s_star
    s) (forc_M2 s) (forc_niw s) (forc_iw_bottom s) (forc_iw_surface s) (omega_niw s)
    (divpen_shortwave s).
Definition set_taux (s : Fields) (x : Arr3) : Fields :=
  mk_fields (temp s) (salt s) x (tauy s) (qnet s) (qnec s) (qsol s) (t_star s) (s_star
    s) (forc_M2 s) (forc_niw s) (forc_iw_bottom s) (forc_iw_surface s) (omega_niw s)
    (divpen_shortwave s).
Definition set_tauy (s : Fields) (x : Arr3) : Fields :=
  mk_fields (temp s) (salt s) (taux s) x (qnet s) (qnec s) (qsol s) (t_star s) (s_star
    s) (forc_M2 s) (forc_niw s) (forc_iw_bottom s) (forc_iw_surface s) (omega_niw s)
    (divpen_shortwave s).
Definition set_qnet (s : Fields) (x : Arr3) : Fields :=
  mk_fields (temp s) (salt s) (taux s) (tauy s) x (qnec s) (qsol s) (t_star s) (s_star
    s) (forc_M2 s) (forc_niw s) (forc_iw_bottom s) (forc_iw_surface s) (omega_niw s)
    (divpen_shortwave s).
Definition set_qnec (s : Fields) (x : Arr3) : Fields :=
  mk_fields (temp s) (salt s) (taux s) (tauy s) (qnet s) x (qsol s) (t_star s) (s_star
    s) (forc_M2 s) (forc_niw s) (forc_iw_bottom s) (forc_iw_surface s) (omega_niw s)
    (divpen_shortwave s).
Definition set_qsol (s : Fields) (x : Arr3) : Fields :=
  mk_fields (temp s) (salt s) (taux s) (tauy s) (qnet s) (qnec s) x (t_star s) (s_star
    s) (forc_M2 s) (forc_niw s) (forc_iw_bottom s) (forc_iw_surface s) (omega_niw s)
    (divpen_shortwave s).
Definition set_t_star (s : Fields) (x : Arr3) : Fields :=
  mk_fields (temp s) (salt s) (taux s) (tauy s) (qnet s) (qnec s) (qsol s) x (s_star s)
    (forc_M2 s) (forc_niw s) (forc_iw_bottom s) (forc_iw_surface s) (omega_niw s)
    (divpen_shortwave s).
Definition set_s_star (s : Fields) (x : Arr3) : Fields :=
  mk_fields (temp s) (salt s) (taux s) (tauy s) (qnet s) (qnec s) (qsol s) (t_star s) x
    (forc_M2 s) (forc_niw s) (forc_iw_bottom s) (forc_iw_surface s) (omega_niw s)
    (divpen_shortwave s).
Definition set_forc_M2 (s : Fields) (x : Arr3) : Fields :=
  mk_fields (temp s) (salt s) (taux s) (tauy s) (qnet s) (qnec s) (qsol s) (t_star s)
    (s_star s) x (forc_niw s) (forc_iw_bottom s) (forc_iw_surface s) (omega_niw s)
    (divpen_shortwave s).
Definition set_forc_niw (s : Fields) (x : Arr3) : Fields :=
  mk_fields (temp s) (salt s) (taux s) (tauy s) (qnet s) (qnec s) (qsol s) (t_star s)
    (s_star s) (forc_M2 s) x (forc_iw_bottom s) (forc_iw_surface s) (omega_niw s)
    (divpen_shortwave s).
Definition set_forc_iw_bottom (s : Fields) (x : Arr2) : Fields :=
  mk_fields (temp s) (salt s) (taux s) (tauy s) (qnet s) (qnec s) (qsol s) (t_star s)
    (s_star s) (forc_M2 s) (forc_niw s) x (forc_iw_surface s) (omega_niw s)
    (divpen_shortwave s).
Definition set_forc_iw_surface (s : Fields) (x : Arr2) : Fields :=
  mk_fields (temp s) (salt s) (taux s) (tauy s) (qnet s) (qnec s) (qsol s) (t_star s)
    (s_star s) (forc_M2 s) (forc_niw s) (forc_iw_bottom s) x (omega_niw s)
    (divpen_shortwave s).
Definition set_omega_niw (s : Fields) (x : Arr2) : Fields :=
  mk_fields (temp s) (salt s) (taux s) (tauy s) (qnet s) (qnec s) (qsol s) (t_star s)
    (s_star s) (forc_M2 s) (forc_niw s) (forc_iw_bottom s) (forc_iw_surface s) x
    (divpen_shortwave s).
Definition set_divpen_shortwave (s : Fields) (x : Arr1) : Fields :=
  mk_fields (temp s) (salt s) (taux s) (tauy s) (qnet s) (qnec s) (qsol s) (t_star s)
    (s_star s) (forc_M2 s) (forc_niw s) (forc_iw_bottom s) (forc_iw_surface s)
    (omega_niw s) x.

(** The two boundary-exchange routines, which are not part of this file. *)
Variable fortran_setcyclic_xyz : Z -> Z -> Z -> Z -> Arr3 -> Arr3.
Variable cyclic_setcyclic_xyz : Arr3 -> bool -> Z -> Z -> Arr3.

(** [2:-2, 2:-2] of an array of [nx + 4] by [ny + 4] columns. *)
Definition interior (g : Grid) (i j : Z) : bool := inner (nx g) i && inner (ny g) j.

(** [lo:hi] on an axis. *)
Definition within (lo hi k : Z) : bool := (lo <=? k) && (k <? hi).

(** [a[2:-2, 2:-2, :n] = rhs], with [rhs] indexed from 0. *)
Definition assign_interior (g : Grid) (lo hi : Z) (a : Arr3) (rhs : Arr3) : Arr3 :=
  fun i j k => if interior g i j && within lo hi k then rhs (i - 2) (j - 2) k else a i j k.

(** [a[2:-2, 2:-2, :, l] = rhs]. *)
Definition assign_level (g : Grid) (l : Z) (a : Arr4) (rhs : Arr3) : Arr4 :=
  fun i j k l' =>
    if interior g i j && within 0 (nz g) k && (l' =? l)
    then rhs (i - 2) (j - 2) k else a i j k l'.

(** [a[2:-2, 2:-2] = rhs]. *)
Definition assign_surface (g : Grid) (a : Arr2) (rhs : Arr2) : Arr2 :=
  fun i j => if interior g i j then rhs (i - 2) (j - 2) else a i j.

(** [data[..., ::-1] * m.maskT[2:-2, 2:-2, :]]. *)
Definition reversed_times_mask (g : Grid) (data : Arr3) : Arr3 :=
  fun i j k => fmul (data i j (nz g - 1 - k)) (maskT g (i + 2) (j + 2) k).

(** [data * m.maskT[2:-2, 2:-2, :12]] for twelve months of [data].  The slice
    holds the first twelve of the [nz] levels of the mask: numpy multiplies
    entry by entry when these are twelve levels, repeats the single level of
    a grid with [nz = 1] for every month, and raises [ValueError] (the shapes
    cannot be broadcast) for every other [nz]. *)
Definition months_broadcast (g : Grid) : bool := (12 <=? nz g) || (nz g =? 1).

Definition times_mask (g : Grid) (data : Arr3) : Arr3 :=
  fun i j k =>
    fmul (data i j k) (maskT g (i + 2) (j + 2) (if nz g =? 1 then 0 else k)).

(** [a[a < -99.9] = 0.]. *)
Definition clear_missing (a : Arr3) : Arr3 :=
  fun i j k => if fltb (a i j k) (lit (-999 # 10)) then lit 0 else a i j k.

Definition setcyclic_taux (g : Grid) (a : Arr3) : Arr3 :=
  if legacy_mode g
  then fortran_setcyclic_xyz (-1) (nx g + 2) (-1) (ny g + 2) a
  else cyclic_setcyclic_xyz a (enable_cyclic_x g) (nx g) 12.

Definition rpart_shortwave : F := lit (58 # 100).
Definition efold1_shortwave : F := lit (35 # 100).
Definition efold2_shortwave : F := lit 23.

(** The penetration profile of solar radiation. *)
Definition pen (g : Grid) : Arr1 :=
  fun k =>
    fadd (fmul rpart_shortwave (fexp (fdiv (zw g k) efold1_shortwave)))
         (fmul (fsub (lit 1) rpart_shortwave) (fexp (fdiv (zw g k) efold2_shortwave))).

Definition divpen (g : Grid) : Arr1 :=
  fun k =>
    if k =? 0 then lit 0
    else if within 1 (nz g) k then fdiv (fsub (pen g k) (pen g (k - 1))) (dzt g k)
    else lit 0.

(** *** GlobalOneDegree.set_initial_conditions *)

(** Lines 177 to 199: initial tracers and wind stress. *)
Definition set_tracers_and_wind (g : Grid) (d : DataFiles) (s : Fields) : Fields :=
  let s := set_temp s (assign_level g 0 (temp s) (reversed_times_mask g (temperature d))) in
  let s := set_temp s (assign_level g 1 (temp s) (reversed_times_mask g (temperature d))) in
  let s := set_salt s (assign_level g 0 (salt s) (reversed_times_mask g (salt_data d))) in
  let s := set_salt s (assign_level g 1 (salt s) (reversed_times_mask g (salt_data d))) in
  let s := set_taux s (assign_interior g 0 12 (taux s)
                         (fun i j k => fdiv (tau_x d i j k) (rho_0 g))) in
  let s := set_taux s (clear_missing (taux s)) in
  let s := set_tauy s (assign_interior g 0 12 (tauy s)
                         (fun i j k => fdiv (tau_y d i j k) (rho_0 g))) in
  let s := set_tauy s (clear_missing (tauy s)) in
  let s := set_taux s (setcyclic_taux g (taux s)) in
  let s := set_tauy s (setcyclic_taux g (tauy s)) in
  s.

(** Lines 202 to 216, on a grid where the shapes can be broadcast: heat
    fluxes, restoring temperature and salinity. *)
Definition set_monthly_fields (g : Grid) (d : DataFiles) (s : Fields) : Fields :=
  let s := set_qnet s (assign_interior g 0 12 (qnet s)
                         (times_mask g (fun i j k => fneg (q_net d i j k)))) in
  let s := set_qnec s (assign_interior g 0 12 (qnec s) (times_mask g (dqdt d))) in
  let s := set_qsol s (assign_interior g 0 12 (qsol s)
                         (times_mask g (fun i j k => fneg (swf d i j k)))) in
  let s := set_t_star s (assign_interior g 0 12 (t_star s) (times_mask g (sst d))) in
  let s := set_s_star s (assign_interior g 0 12 (s_star s) (times_mask g (sss d))) in
  s.

(** Lines 177 to 216. *)
Definition set_surface_conditions (g : Grid) (d : DataFiles) (s : Fields) : Fields :=
  set_monthly_fields g d (set_tracers_and_wind g d s).

(** [m.maskW[mask_x, mask_y, mask_z]] reads, in every interior column, the
    level [max 0 (kbot - 1)]; numpy raises [IndexError] when one of these
    levels is not among the [nz] levels of [maskW]. *)
Definition bottom_levels_exist (g : Grid) : bool :=
  forallb (fun i =>
             forallb (fun j => Z.max 0 (kbot g (i + 2) (j + 2) - 1) <? nz g)
                     (range (ny g)))
          (range (nx g)).

(** [tidal_energy_data] after [*= m.maskW[mask_x, mask_y, mask_z] / m.rho_0]. *)
Definition masked_tidal_energy (g : Grid) (d : DataFiles) : Arr2 :=
  fun i j =>
    fmul (tidal_energy d i j)
         (fdiv (maskW g (i + 2) (j + 2) (Z.max 0 (kbot g (i + 2) (j + 2) - 1))) (rho_0 g)).

(** [wind_energy_data] after [*= m.maskW[2:-2, 2:-2, -1] / m.rho_0 * 0.2]. *)
Definition masked_wind_energy (g : Grid) (d : DataFiles) : Arr2 :=
  fun i j =>
    fmul (wind_energy d i j)
         (fmul (fdiv (maskW g (i + 2) (j + 2) (nz g - 1)) (rho_0 g)) (lit (2 # 10))).

(** Lines 233 to 275, reached with [idm] bound. *)
Definition set_wave_and_shortwave (g : Grid) (d : DataFiles) (s : Fields)
  : Fields * result unit :=
  let wind_energy_data := masked_wind_energy g d in
  let s :=
    if enable_idemix_niw g
    then
      let s := set_forc_niw s
                 (assign_interior g 0 (np_ g - 1) (forc_niw s)
                    (fun i j _ => fdiv (fmul (lit 1) (wind_energy_data i j))
                                       (fmul (lit 2) (pi_ g)))) in
      set_forc_iw_surface s (assign_surface g (forc_iw_surface s) (fun _ _ => lit 0))
    else set_forc_iw_surface s (assign_surface g (forc_iw_surface s) wind_energy_data) in
  let s :=
    if enable_idemix_niw g
    then set_omega_niw s
           (fun i j => if inner (nx g) i
                       then fmax (lit (1 # 100000000))
                                 (fabs (fmul (lit (105 # 100)) (coriolis_t g i j)))
                       else omega_niw s i j)
    else s in
  if enable_idemix_niw g || enable_idemix_M2 g
  then (s, Raise NotImplementedError)
  else (set_divpen_shortwave s (divpen g), Ok tt).

(** The whole method.  Line 203 is the first to multiply twelve months by
    the mask.  [tidal_energy_data] and [idm] are local names bound in the
    branch [if m.enable_idemix:] only; the [else:] branch reads
    [tidal_energy_data]. *)
Definition set_initial_conditions (g : Grid) (d : DataFiles) (s : Fields)
  : Fields * result unit :=
  let s := set_tracers_and_wind g d s in
  if months_broadcast g
  then
    let s := set_monthly_fields g d s in
    if enable_idemix g
    then
      if bottom_levels_exist g
      then
        let tidal_energy_data := masked_tidal_energy g d in
        let s :=
          if enable_idemix_M2 g
          then set_forc_M2 s
                 (assign_interior g 1 (np_ g - 1) (forc_M2 s)
                    (fun i j _ => fdiv (fmul (lit (5 # 10)) (tidal_energy_data i j))
                                       (fmul (lit 2) (pi_ g))))
          else set_forc_iw_bottom s
                 (assign_surface g (forc_iw_bottom s)
                    (fun i j => fmul (lit (5 # 10)) (tidal_energy_data i j))) in
        set_wave_and_shortwave g d s
      else (s, Raise IndexError)
    else (s, Raise (UnboundLocalError "tidal_energy_data"))
  else (s, Raise ValueError).

(** *** GlobalOneDegree.set_topography *)

(** One pass of [for k in xrange(m.nz-1, -1, -1)]. *)
Definition mark_level (g_nx g_ny : Z) (salt_file : Arr3) (kb : Z -> Z -> Z) (k : Z)
  : Z -> Z -> Z :=
  fun i j =>
    if inner g_nx i && inner g_ny j && negb (feqb (salt_file (i - 2) (j - 2) k) (lit 0))
    then k + 1 else kb i j.

(** [m.kbot[2:-2, 2:-2][mask] = 0] for a mask over [np.indices((nx, ny))]. *)
Definition close_cells (g_nx g_ny : Z) (mask : Z -> Z -> bool) (kb : Z -> Z -> Z)
  : Z -> Z -> Z :=
  fun i j => if inner g_nx i && inner g_ny j && mask (i - 2) (j - 2) then 0 else kb i j.

Definition channel_1 (i j : Z) : bool := (207 <=? i) && (i <? 214) && (j <? 5).
Definition aleutian_island (i j : Z) : bool := (i =? 104) && (j =? 134).
Definition english_channel (i j : Z) : bool := (269 <=? i) && (i <? 271) && (j =? 130).

Definition set_topography (g_nx g_ny g_nz : Z) (bathymetry_data : Arr2)
  (salt_file : Arr3) (kb : Z -> Z -> Z) : Z -> Z -> Z :=
  let kb := fold_left (mark_level g_nx g_ny salt_file) (rev (range g_nz)) kb in
  let kb := close_cells g_nx g_ny (fun i j => feqb (bathymetry_data i j) (lit 0)) kb in
  let kb := fun i j => Z.min (kb i j) g_nz in
  let kb := close_cells g_nx g_ny channel_1 kb in
  let kb := close_cells g_nx g_ny aleutian_island kb in
  let kb := close_cells g_nx g_ny english_channel kb in
  kb.

(** ** Properties of the setup *)

Definition in_array (g : Grid) (i j k : Z) : bool :=
  within 0 (nx g + 4) i && within 0 (ny g + 4) j && within 0 (nz g) k.

Lemma tracers_after (g : Grid) (d : DataFiles) (s : Fields) :
  temp (fst (set_initial_conditions g d s))
  = assign_level g 1 (assign_level g 0 (temp s) (reversed_times_mask g (temperature d)))
                 (reversed_times_mask g (temperature d))
  /\ salt (fst (set_initial_conditions g d s))
     = assign_level g 1 (assign_level g 0 (salt s) (reversed_times_mask g (salt_data d)))
                    (reversed_times_mask g (salt_data d)).
Proof.
  unfold set_initial_conditions, set_wave_and_shortwave.
  destruct (months_broadcast g), (enable_idemix g), (bottom_levels_exist g),
    (enable_idemix_M2 g), (enable_idemix_niw g);
    split; reflexivity.
Qed.

(** How the method ends. *)
Lemma set_initial_conditions_outcome (g : Grid) (d : DataFiles) (s : Fields) :
  snd (set_initial_conditions g d s)
  = if months_broadcast g
    then if enable_idemix g
         then if bottom_levels_exist g
              then if enable_idemix_niw g || enable_idemix_M2 g
                   then Raise NotImplementedError else Ok tt
              else Raise IndexError
         else Raise (UnboundLocalError "tidal_energy_data")
    else Raise ValueError.
Proof.
  unfold set_initial_conditions, set_wave_and_shortwave.
  destruct (months_broadcast g), (enable_idemix g), (bottom_levels_exist g),
    (enable_idemix_M2 g), (enable_idemix_niw g); reflexivity.
Qed.

Lemma months_broadcast_spec (g : Grid) :
  months_broadcast g = true <-> (nz g = 1 \/ 12 <= nz g).
Proof.
  unfold months_broadcast. rewrite orb_true_iff, Z.leb_le, Z.eqb_eq. tauto.
Qed.

Lemma assign_level_masked (g : Grid) (a : Arr4) (data : Arr3) (l i j k l' : Z) :
  (forall x : F, fmul x fzero = fzero) ->
  maskT g i j k = fzero ->
  interior g i j = true -> within 0 (nz g) k = true -> l' = l ->
  assign_level g l a (reversed_times_mask g data) i j k l' = fzero.
Proof.
  intros Hmul Hm Hi Hk ->. unfold assign_level, reversed_times_mask.
  rewrite Hi, Hk, Z.eqb_refl. simpl.
  replace (i - 2 + 2) with i by lia. replace (j - 2 + 2) with j by lia.
  rewrite Hm. apply Hmul.
Qed.

Lemma assign_level_halo (g : Grid) (a : Arr4) (rhs : Arr3) (l i j k l' : Z) :
  interior g i j = false -> assign_level g l a rhs i j k l' = a i j k l'.
Proof. intros Hi. unfold assign_level. rewrite Hi. reflexivity. Qed.

Lemma assign_level_value (g : Grid) (a : Arr4) (data : Arr3) (i j k l : Z) :
  interior g i j = true -> within 0 (nz g) k = true -> l = 0 \/ l = 1 ->
  assign_level g 1 (assign_level g 0 a (reversed_times_mask g data))
               (reversed_times_mask g data) i j k l
  = fmul (data (i - 2) (j - 2) (nz g - 1 - k)) (maskT g i j k).
Proof.
  intros Hi Hk Hl. unfold assign_level, reversed_times_mask. rewrite Hi, Hk. simpl.
  replace (i - 2 + 2) with i by lia. replace (j - 2 + 2) with j by lia.
  destruct Hl as [-> | ->]; reflexivity.
Qed.

(** C6.  Whether [set_initial_conditions] returns or raises, it has by then
    written time levels 0 and 1 of [temp] and [salt] in the interior: every
    cell there holds the value of the data file (levels reversed) times
    [maskT].  Hence, in an arithmetic where [x * 0 = 0] and with the halo of
    the two fields zero on entry (as allocation leaves it), both fields are
    zero in levels 0 and 1 at every cell of the array where [maskT] is
    zero. *)
Theorem initial_tracers_masked (g : Grid) (d : DataFiles) (s : Fields) :
  ScalarLaws F ->
  (forall i j k l, in_array g i j k = true -> interior g i j = false ->
                   temp s i j k l = fzero /\ salt s i j k l = fzero) ->
  (forall i j k l,
      in_array g i j k = true -> l = 0 \/ l = 1 ->
      maskT g i j k = fzero ->
      temp (fst (set_initial_conditions g d s)) i j k l = fzero
      /\ salt (fst (set_initial_conditions g d s)) i j k l = fzero)
  /\ (forall i j k l,
        in_array g i j k = true -> l = 0 \/ l = 1 ->
        interior g i j = true ->
        temp (fst (set_initial_conditions g d s)) i j k l
        = fmul (temperature d (i - 2) (j - 2) (nz g - 1 - k)) (maskT g i j k)
        /\ salt (fst (set_initial_conditions g d s)) i j k l
           = fmul (salt_data d (i - 2) (j - 2) (nz g - 1 - k)) (maskT g i j k)).
Proof.
  intros laws Hhalo.
  assert (Hin_k : forall i j k, in_array g i j k = true -> within 0 (nz g) k = true).
  { intros i j k Hin. unfold in_array in Hin. apply andb_true_iff in Hin. apply Hin. }
  split.
  - intros i j k l Hin Hl Hm.
    destruct (tracers_after g d s) as [-> ->].
    pose proof (Hin_k i j k Hin) as Hk.
    destruct (interior g i j) eqn:Hi.
    + destruct Hl as [-> | ->].
      * unfold assign_level at 1 3. rewrite Hi, Hk. simpl.
        split; apply assign_level_masked; auto; apply (fmul_0_r F laws).
      * split; apply assign_level_masked; auto; apply (fmul_0_r F laws).
    + rewrite !assign_level_halo by exact Hi. apply Hhalo; assumption.
  - intros i j k l Hin Hl Hi.
    destruct (tracers_after g d s) as [-> ->].
    pose proof (Hin_k i j k Hin) as Hk.
    split; apply assign_level_value; assumption.
Qed.

(** C9, on the code.  On a grid whose monthly data can be multiplied by the
    mask (one level, or twelve and more) and with IDEMIX disabled, the method
    raises on reading the unbound local name [tidal_energy_data]: it has
    assigned the surface conditions only, and [forc_iw_bottom] is as it was
    on entry. *)
Lemma set_initial_conditions_without_idemix (g : Grid) (d : DataFiles) (s : Fields) :
  enable_idemix g = false ->
  nz g = 1 \/ 12 <= nz g ->
  set_initial_conditions g d s
  = (set_surface_conditions g d s, Raise (UnboundLocalError "tidal_energy_data"))
  /\ forc_iw_bottom (fst (set_initial_conditions g d s)) = forc_iw_bottom s.
Proof.
  intros E Hnz. apply months_broadcast_spec in Hnz.
  unfold set_initial_conditions. rewrite E, Hnz. split; reflexivity.
Qed.

(** *** Topography *)

Lemma in_range (n k : Z) : In k (range n) -> 0 <= k < n.
Proof.
  unfold range. intros H. apply in_map_iff in H. destruct H as [m [<- Hm]].
  apply in_seq in Hm. lia.
Qed.

Lemma marked_nonneg (g_nx g_ny : Z) (salt_file : Arr3) (l : list Z) :
  (forall k, In k l -> 0 <= k) ->
  forall kb, (forall i j, 0 <= kb i j) ->
  forall i j, 0 <= fold_left (mark_level g_nx g_ny salt_file) l kb i j.
Proof.
  induction l as [|k l IH]; intros Hl kb Hkb i j; [apply Hkb|].
  simpl. apply IH.
  - intros k' Hk'. apply Hl. right. exact Hk'.
  - intros i' j'. unfold mark_level.
    destruct (inner g_nx i' && inner g_ny j'
              && negb (feqb (salt_file (i' - 2) (j' - 2) k) (lit 0))).
    + assert (0 <= k) by (apply Hl; left; reflexivity). lia.
    + apply Hkb.
Qed.

Lemma close_cells_range (g_nx g_ny lo hi : Z) (mask : Z -> Z -> bool) (kb : Z -> Z -> Z) :
  lo <= 0 <= hi ->
  (forall i j, lo <= kb i j <= hi) ->
  forall i j, lo <= close_cells g_nx g_ny mask kb i j <= hi.
Proof.
  intros H0 Hkb i j. unfold close_cells.
  destruct (inner g_nx i && inner g_ny j && mask (i - 2) (j - 2)); [lia|apply Hkb].
Qed.

Lemma close_cells_closed (g_nx g_ny : Z) (mask : Z -> Z -> bool) (kb : Z -> Z -> Z) (i j : Z) :
  inner g_nx i = true -> inner g_ny j = true ->
  mask (i - 2) (j - 2) = true \/ kb i j = 0 ->
  close_cells g_nx g_ny mask kb i j = 0.
Proof.
  intros Hi Hj H1. unfold close_cells. rewrite Hi, Hj. simpl.
  destruct (mask (i - 2) (j - 2)); [reflexivity|].
  destruct H1 as [H1|H1]; [discriminate|exact H1].
Qed.

(** C10.  With [nz >= 0] and no negative entry of [kbot] on entry (allocation
    leaves zeros), after [set_topography] every entry of [kbot] lies in
    [0, nz], and the cells of the three closed channels hold 0. *)
Theorem kbot_in_range (g_nx g_ny g_nz : Z) (bathymetry_data : Arr2)
  (salt_file : Arr3) (kb : Z -> Z -> Z) :
  0 <= g_nz ->
  (forall i j, 0 <= kb i j) ->
  forall i j,
    0 <= set_topography g_nx g_ny g_nz bathymetry_data salt_file kb i j <= g_nz
    /\ (inner g_nx i = true -> inner g_ny j = true ->
        channel_1 (i - 2) (j - 2) || aleutian_island (i - 2) (j - 2)
        || english_channel (i - 2) (j - 2) = true ->
        set_topography g_nx g_ny g_nz bathymetry_data salt_file kb i j = 0).
Proof.
  intros Hnz Hkb i j. unfold set_topography. split.
  - revert i j. do 3 (apply close_cells_range; [lia|]).
    intros i j.
    assert (0 <= close_cells g_nx g_ny
                   (fun i0 j0 => feqb (bathymetry_data i0 j0) (lit 0))
                   (fold_left (mark_level g_nx g_ny salt_file) (rev (range g_nz)) kb) i j).
    { unfold close_cells.
      destruct (inner g_nx i && inner g_ny j
                && feqb (bathymetry_data (i - 2) (j - 2)) (lit 0)); [lia|].
      apply marked_nonneg; [|exact Hkb].
      intros k Hk. apply in_rev in Hk. apply in_range in Hk. lia. }
    lia.
  - intros Hi Hj Hc.
    apply orb_true_iff in Hc. destruct Hc as [Hc|Hc];
      [apply orb_true_iff in Hc; destruct Hc as [Hc|Hc]|].
    + do 2 (apply close_cells_closed; auto; right).
      apply close_cells_closed; auto.
    + apply close_cells_closed; auto; right.
      apply close_cells_closed; auto.
    + apply close_cells_closed; auto.
Qed.

(** *** What [set_topography] computes *)

Definition salty (salt_file : Arr3) (i j k : Z) : bool :=
  negb (feqb (salt_file (i - 2) (j - 2) k) (lit 0)).

(** The loop runs from the last level to the first, so the first level with
    salt is the one whose assignment stays. *)
Lemma marked_first (g_nx g_ny : Z) (salt_file : Arr3) (l : list Z)
  (kb : Z -> Z -> Z) (i j : Z) :
  fold_left (mark_level g_nx g_ny salt_file) (rev l) kb i j
  = if inner g_nx i && inner g_ny j
    then match find (salty salt_file i j) l with
         | Some k => k + 1
         | None => kb i j
         end
    else kb i j.
Proof.
  induction l as [|k l IH]; simpl.
  - destruct (inner g_nx i && inner g_ny j); reflexivity.
  - rewrite fold_left_app. simpl. unfold mark_level at 1. rewrite IH.
    unfold salty.
    destruct (inner g_nx i && inner g_ny j); simpl; [|reflexivity].
    destruct (feqb (salt_file (i - 2) (j - 2) k) (lit 0)); reflexivity.
Qed.

Lemma find_absent (A : Type) (p : A -> bool) (l : list A) :
  (forall x, In x l -> p x = false) -> find p l = None.
Proof.
  induction l as [|a l IH]; intros H; [reflexivity|].
  simpl. rewrite (H a (or_introl eq_refl)). apply IH.
  intros x Hx. apply H. right. exact Hx.
Qed.

Lemma find_first_from (p : Z -> bool) (len start k0 : nat) :
  (start <= k0 < start + len)%nat ->
  p (Z.of_nat k0) = true ->
  (forall k, (start <= k < k0)%nat -> p (Z.of_nat k) = false) ->
  find p (map Z.of_nat (seq start len)) = Some (Z.of_nat k0).
Proof.
  revert start. induction len as [|len IH]; intros start Hk Hp Hbefore; [lia|].
  simpl. destruct (Nat.eq_dec start k0) as [->|Hne].
  - rewrite Hp. reflexivity.
  - rewrite (Hbefore start) by lia. apply IH; [lia|exact Hp|].
    intros k Hk'. apply Hbefore. lia.
Qed.

Lemma find_first_in_range (p : Z -> bool) (n k0 : Z) :
  0 <= k0 < n ->
  p k0 = true ->
  (forall k, 0 <= k < k0 -> p k = false) ->
  find p (range n) = Some k0.
Proof.
  intros Hk Hp Hbefore. unfold range.
  rewrite <- (Z2Nat.id k0) by lia.
  apply find_first_from.
  - lia.
  - rewrite Z2Nat.id by lia. exact Hp.
  - intros k Hk'. apply Hbefore. lia.
Qed.

(** X7.  An interior cell outside the three closed channels: with zero
    bathymetry it is land; otherwise [kbot] is one more than the first level
    of the salinity file that is not zero there, and where the file has no
    such level the entry stays as it was, cut at [nz]. *)
Theorem kbot_is_first_salt_level (g_nx g_ny g_nz : Z) (bathymetry_data : Arr2)
  (salt_file : Arr3) (kb : Z -> Z -> Z) (i j : Z) :
  0 <= g_nz ->
  inner g_nx i = true -> inner g_ny j = true ->
  channel_1 (i - 2) (j - 2) || aleutian_island (i - 2) (j - 2)
  || english_channel (i - 2) (j - 2) = false ->
  (feqb (bathymetry_data (i - 2) (j - 2)) (lit 0) = true ->
   set_topography g_nx g_ny g_nz bathymetry_data salt_file kb i j = 0)
  /\ (feqb (bathymetry_data (i - 2) (j - 2)) (lit 0) = false ->
      forall k0,
        0 <= k0 < g_nz ->
        feqb (salt_file (i - 2) (j - 2) k0) (lit 0) = false ->
        (forall k, 0 <= k < k0 -> feqb (salt_file (i - 2) (j - 2) k) (lit 0) = true) ->
        set_topography g_nx g_ny g_nz bathymetry_data salt_file kb i j = k0 + 1)
  /\ (feqb (bathymetry_data (i - 2) (j - 2)) (lit 0) = false ->
      (forall k, 0 <= k < g_nz -> feqb (salt_file (i - 2) (j - 2) k) (lit 0) = true) ->
      set_topography g_nx g_ny g_nz bathymetry_data salt_file kb i j
      = Z.min (kb i j) g_nz).
Proof.
  intros Hnz Hi Hj Hopen.
  apply orb_false_iff in Hopen. destruct Hopen as [Hopen He].
  apply orb_false_iff in Hopen. destruct Hopen as [Hc Ha].
  assert (E : set_topography g_nx g_ny g_nz bathymetry_data salt_file kb i j
              = Z.min (if feqb (bathymetry_data (i - 2) (j - 2)) (lit 0) then 0
                       else match find (salty salt_file i j) (range g_nz) with
                            | Some k => k + 1
                            | None => kb i j
                            end) g_nz).
  { unfold set_topography, close_cells. rewrite marked_first, Hi, Hj, Hc, Ha, He.
    reflexivity. }
  rewrite E. split; [|split].
  - intros ->. lia.
  - intros -> k0 Hk0 Hsalt Hbefore.
    rewrite (find_first_in_range (salty salt_file i j) g_nz k0).
    + lia.
    + exact Hk0.
    + unfold salty. rewrite Hsalt. reflexivity.
    + intros k Hk. unfold salty. rewrite (Hbefore k Hk). reflexivity.
  - intros -> Hnone. rewrite find_absent; [reflexivity|].
    intros k Hk. apply in_range in Hk. unfold salty. rewrite (Hnone k Hk). reflexivity.
Qed.

(** Outside [2:-2, 2:-2] the method only cuts the entry at [nz]. *)
Lemma kbot_halo (g_nx g_ny g_nz : Z) (bathymetry_data : Arr2)
  (salt_file : Arr3) (kb : Z -> Z -> Z) (i j : Z) :
  inner g_nx i && inner g_ny j = false ->
  set_topography g_nx g_ny g_nz bathymetry_data salt_file kb i j = Z.min (kb i j) g_nz.
Proof.
  intros H. unfold set_topography, close_cells. rewrite marked_first, H. reflexivity.
Qed.

(** *** The monthly fields and the wave forcing of [set_initial_conditions] *)

Lemma monthly_after (g : Grid) (d : DataFiles) (s : Fields) :
  months_broadcast g = true ->
  qnet (fst (set_initial_conditions g d s))
  = assign_interior g 0 12 (qnet s) (times_mask g (fun i j k => fneg (q_net d i j k)))
  /\ qnec (fst (set_initial_conditions g d s))
     = assign_interior g 0 12 (qnec s) (times_mask g (dqdt d))
  /\ qsol (fst (set_initial_conditions g d s))
     = assign_interior g 0 12 (qsol s) (times_mask g (fun i j k => fneg (swf d i j k)))
  /\ t_star (fst (set_initial_conditions g d s))
     = assign_interior g 0 12 (t_star s) (times_mask g (sst d))
  /\ s_star (fst (set_initial_conditions g d s))
     = assign_interior g 0 12 (s_star s) (times_mask g (sss d)).
Proof.
  intros B. unfold set_initial_conditions, set_wave_and_shortwave. rewrite B.
  destruct (enable_idemix g), (bottom_levels_exist g), (enable_idemix_M2 g),
    (enable_idemix_niw g);
    repeat split; reflexivity.
Qed.

(** X8.  The five monthly fields (heat fluxes, restoring temperature and
    salinity), for a grid of at least twelve levels, where the slices
    [maskT[2:-2, 2:-2, :12]] and the data have equal shapes: whether the method
    returns or raises, month [k] of an interior column holds the data times
    [maskT] of LEVEL [k] of that column, which in an arithmetic with
    [x * 0 = 0] is zero where that level is masked. *)
Theorem monthly_fields_masked_by_level (g : Grid) (d : DataFiles) (s : Fields)
  (i j k : Z) :
  ScalarLaws F ->
  12 <= nz g ->
  interior g i j = true ->
  0 <= k < 12 ->
  let s' := fst (set_initial_conditions g d s) in
  (qnet s' i j k = fmul (fneg (q_net d (i - 2) (j - 2) k)) (maskT g i j k)
   /\ qnec s' i j k = fmul (dqdt d (i - 2) (j - 2) k) (maskT g i j k)
   /\ qsol s' i j k = fmul (fneg (swf d (i - 2) (j - 2) k)) (maskT g i j k)
   /\ t_star s' i j k = fmul (sst d (i - 2) (j - 2) k) (maskT g i j k)
   /\ s_star s' i j k = fmul (sss d (i - 2) (j - 2) k) (maskT g i j k))
  /\ (maskT g i j k = fzero ->
      qnet s' i j k = fzero /\ qnec s' i j k = fzero /\ qsol s' i j k = fzero
      /\ t_star s' i j k = fzero /\ s_star s' i j k = fzero).
Proof.
  intros laws Hnz Hi Hk s'.
  assert (Hw : within 0 12 k = true).
  { unfold within. apply andb_true_iff. split; [apply Z.leb_le|apply Z.ltb_lt]; lia. }
  assert (H1 : (nz g =? 1) = false) by (apply Z.eqb_neq; lia).
  assert (A : forall a data,
             assign_interior g 0 12 a (times_mask g data) i j k
             = fmul (data (i - 2) (j - 2) k) (maskT g i j k)).
  { intros a data. unfold assign_interior, times_mask. rewrite Hi, Hw, H1. simpl.
    replace (i - 2 + 2) with i by lia. replace (j - 2 + 2) with j by lia.
    reflexivity. }
  assert (B : months_broadcast g = true) by (apply months_broadcast_spec; lia).
  destruct (monthly_after g d s B) as [E1 [E2 [E3 [E4 E5]]]].
  unfold s'. rewrite E1, E2, E3, E4, E5, !A.
  split.
  - repeat split.
  - intros ->. rewrite !(fmul_0_r F laws). repeat split.
Qed.

Lemma range_in (n k : Z) : 0 <= k < n -> In k (range n).
Proof.
  intros H. unfold range. apply in_map_iff. exists (Z.to_nat k).
  split; [lia|]. apply in_seq. lia.
Qed.

Lemma bottom_levels_exist_spec (g : Grid) :
  bottom_levels_exist g = true
  <-> forall i j, 0 <= i < nx g -> 0 <= j < ny g ->
                  Z.max 0 (kbot g (i + 2) (j + 2) - 1) < nz g.
Proof.
  unfold bottom_levels_exist. rewrite forallb_forall. split.
  - intros H i j Hi Hj. specialize (H i (range_in _ _ Hi)).
    rewrite forallb_forall in H. apply Z.ltb_lt. apply H. apply range_in. exact Hj.
  - intros H i Hi. apply forallb_forall. intros j Hj. apply Z.ltb_lt.
    apply H; apply in_range; assumption.
Qed.

(** X9.  The method returns normally exactly when the monthly data can be
    multiplied by the mask (one level, or twelve and more), IDEMIX is on
    without its M2 and near-inertial compartments, and every interior column
    has the level [max 0 (kbot - 1)].  It has then set the bottom and surface
    wave forcing of the interior and the divergence of the shortwave profile,
    and has left [forc_M2], [forc_niw] and [omega_niw] alone; whenever it
    raises, [divpen_shortwave] is as before the call. *)
Theorem set_initial_conditions_on_return (g : Grid) (d : DataFiles) (s : Fields) :
  (snd (set_initial_conditions g d s) = Ok tt
   <-> ((nz g = 1 \/ 12 <= nz g)
        /\ enable_idemix g = true
        /\ enable_idemix_M2 g = false /\ enable_idemix_niw g = false
        /\ forall i j, 0 <= i < nx g -> 0 <= j < ny g ->
                       Z.max 0 (kbot g (i + 2) (j + 2) - 1) < nz g))
  /\ (snd (set_initial_conditions g d s) = Ok tt ->
      divpen_shortwave (fst (set_initial_conditions g d s)) = divpen g
      /\ forc_iw_bottom (fst (set_initial_conditions g d s))
         = assign_surface g (forc_iw_bottom s)
             (fun i j => fmul (lit (5 # 10)) (masked_tidal_energy g d i j))
      /\ forc_iw_surface (fst (set_initial_conditions g d s))
         = assign_surface g (forc_iw_surface s) (masked_wind_energy g d)
      /\ forc_M2 (fst (set_initial_conditions g d s)) = forc_M2 s
      /\ forc_niw (fst (set_initial_conditions g d s)) = forc_niw s
      /\ omega_niw (fst (set_initial_conditions g d s)) = omega_niw s)
  /\ (forall e, snd (set_initial_conditions g d s) = Raise e ->
      divpen_shortwave (fst (set_initial_conditions g d s)) = divpen_shortwave s).
Proof.
  split; [|split].
  - rewrite set_initial_conditions_outcome, <- months_broadcast_spec,
      <- bottom_levels_exist_spec.
    destruct (months_broadcast g), (enable_idemix g), (bottom_levels_exist g),
      (enable_idemix_M2 g), (enable_idemix_niw g); simpl;
      (split; [intros H; try discriminate H; repeat split
              |intros [H1 [H2 [H3 [H4 H5]]]]; try discriminate; reflexivity]).
  - unfold set_initial_conditions, set_wave_and_shortwave.
    destruct (months_broadcast g), (enable_idemix g), (bottom_levels_exist g),
      (enable_idemix_M2 g), (enable_idemix_niw g); simpl;
      intros H; try discriminate H; repeat split.
  - unfold set_initial_conditions, set_wave_and_shortwave.
    destruct (months_broadcast g), (enable_idemix g), (bottom_levels_exist g),
      (enable_idemix_M2 g), (enable_idemix_niw g); simpl;
      intros e H; try discriminate H; reflexivity.
Qed.

End Setup.

(** *** GlobalOneDegree.__init__ *)

Definition DATA_FILES : list (string * string) :=
  [("dz", "dz.bin"); ("temperature", "lev_clim_temp.bin");
   ("salt", "lev_clim_salt.bin"); ("sss", "lev_sss.bin");
   ("tau_x", "ECMWFBB_taux.bin"); ("tau_y", "ECMWFBB_tauy.bin");
   ("q_net", "ECMWFBB_qnet.bin"); ("dqdt", "ECMWFBB_dqdt.bin");
   ("swf", "ECMWFBB_swf.bin"); ("sst", "ECMWFBB_target_sst.bin");
   ("bathymetry", "bathymetry.bin"); ("tidal_energy", "tidal_energy.bin");
   ("wind_energy", "wind_energy_ncep.bin")]%string.

(** [RuntimeError("{} data file {} not found".format(name, filepath))]. *)
Definition not_found (name filepath : string) : exn :=
  RuntimeError (name ++ " data file " ++ filepath ++ " not found")%string.

(** The loop over [DATA_FILES.items()], which yields the entries in the
    order [items]; [isfile] is [os.path.isfile]. *)
Fixpoint check_files (isfile : string -> bool) (items : list (string * string))
  : result unit :=
  match items with
  | [] => Ok tt
  | (name, filepath) :: rest =>
      if negb (isfile filepath) then Raise (not_found name filepath)
      else check_files isfile rest
  end.

(** [super_init] is the outcome of the constructor of the base class. *)
Definition __init__ {A : Type} (isfile : string -> bool) (items : list (string * string))
  (super_init : result A) : result A :=
  match check_files isfile items with
  | Ok _ => super_init
  | Raise e => Raise e
  end.

Lemma check_files_present (isfile : string -> bool) (items : list (string * string)) :
  (forall p, In p items -> isfile (snd p) = true) ->
  check_files isfile items = Ok tt.
Proof.
  induction items as [|[name filepath] rest IH]; intros H; [reflexivity|].
  simpl. pose proof (H (name, filepath) (or_introl eq_refl)) as E.
  simpl in E. rewrite E. simpl.
  apply IH. intros p Hp. apply H. right. exact Hp.
Qed.

Lemma check_files_missing (isfile : string -> bool) (items : list (string * string)) :
  (exists p, In p items /\ isfile (snd p) = false) ->
  exists p, In p items /\ isfile (snd p) = false
            /\ check_files isfile items = Raise (not_found (fst p) (snd p)).
Proof.
  induction items as [|[name filepath] rest IH]; intros [p [Hp Hm]]; [destruct Hp|].
  simpl. destruct (isfile filepath) eqn:E; simpl.
  - destruct Hp as [<-|Hp]; [simpl in Hm; congruence|].
    destruct (IH (ex_intro _ p (conj Hp Hm))) as [q [Hq [Hqm Hr]]].
    exists q. split; [right; exact Hq|]. split; assumption.
  - exists (name, filepath). split; [left; reflexivity|]. split; [exact E|reflexivity].
Qed.

(** X10.  In whatever order the dictionary yields its entries: with the thirteen
    data files in place the constructor goes on to the base class; with any
    of them missing it raises a [RuntimeError] that names a missing file, and
    the base class is not initialised. *)
Theorem data_files_are_checked (A : Type) (isfile : string -> bool)
  (items : list (string * string)) (super_init : result A) :
  Permutation items DATA_FILES ->
  ((forall name filepath, In (name, filepath) DATA_FILES -> isfile filepath = true) ->
   __init__ isfile items super_init = super_init)
  /\ (forall name filepath,
        In (name, filepath) DATA_FILES -> isfile filepath = false ->
        exists name' filepath',
          In (name', filepath') DATA_FILES
          /\ isfile filepath' = false
          /\ __init__ isfile items super_init = Raise (not_found name' filepath')).
Proof.
  intros P. unfold __init__. split.
  - intros H. rewrite check_files_present; [reflexivity|].
    intros [name filepath] Hp. apply (H name filepath).
    apply (Permutation_in _ P). exact Hp.
  - intros name filepath Hin Hm.
    destruct (check_files_missing isfile items) as [[n f] [Hq [Hqm Hr]]].
    + exists (name, filepath). split; [|exact Hm].
      apply (Permutation_in _ (Permutation_sym P)). exact Hin.
    + exists n, f. split; [apply (Permutation_in _ P); exact Hq|].
      split; [exact Hqm|]. simpl in Hr. rewrite Hr. reflexivity.
Qed.

(** *** GlobalOneDegree._get_periodic_interval

    The times are Python floats; they are taken here as exact rationals. *)

(** [round(x)]: to the nearest integer, halves away from zero. *)
Definition py_round (x : Q) : Z :=
  if Qle_bool 0 x then Qfloor (x + (1 # 2)) else Qceiling (x - (1 # 2)).

(** [a % b]: the remainder with the sign of [b]. *)
Definition py_mod (a b : Q) : Q := (a - b * inject_Z (Qfloor (a / b)))%Q.

(** [int(x)]: truncation towards zero. *)
Definition py_int (x : Q) : Z := if Qle_bool 0 x then Qfloor x else Qceiling x.

Definition _get_periodic_interval (currentTime cycleLength recSpacing : Q) (nbrec : Z)
  : (Z * Q) * (Z * Q) :=
  let locTime := (currentTime - recSpacing * (5 # 10)
                  + cycleLength * (2 - inject_Z (py_round (currentTime / cycleLength))))%Q in
  let tmpTime := py_mod locTime cycleLength in
  let tRec1 := py_int (tmpTime / recSpacing) in
  let tRec2 := py_int (py_mod tmpTime (inject_Z nbrec)) in
  let wght2 := ((tmpTime - recSpacing * inject_Z tRec1) / recSpacing)%Q in
  let wght1 := (1 - wght2)%Q in
  ((tRec1, wght1), (tRec2, wght2)).

(** Lines 291 and 294 of [set_forcing]: the records and weights of time step
    [itt]. *)
Definition forcing_interval (itt : Z) (dt_tracer : Q) : (Z * Q) * (Z * Q) :=
  let fxa := (365 * 86400)%Q in
  _get_periodic_interval (inject_Z (itt - 1) * dt_tracer)%Q fxa (fxa / 12)%Q 12.

Lemma py_mod_bounds (a b : Q) : (0 < b -> 0 <= py_mod a b /\ py_mod a b < b)%Q.
Proof.
  intros Hb. unfold py_mod.
  pose proof (Qfloor_le (a / b)) as H1.
  pose proof (Qlt_floor (a / b)) as H2.
  rewrite inject_Z_plus in H2.
  assert (E : (a == (a / b) * b)%Q) by (field; lra).
  set (q := (a / b)%Q) in *. set (f := inject_Z (Qfloor q)) in *.
  change (inject_Z 1) with 1%Q in H2.
  split; nra.
Qed.

Lemma py_mod_comp (a a' b b' : Q) :
  (a == a' -> b == b' -> py_mod a b == py_mod a' b')%Q.
Proof.
  intros Ea Eb. unfold py_mod.
  rewrite (Qfloor_comp (a / b) (a' / b')) by (rewrite Ea, Eb; reflexivity).
  rewrite Ea, Eb. reflexivity.
Qed.

Lemma py_int_nonneg (x : Q) : (0 <= x)%Q -> py_int x = Qfloor x.
Proof.
  intros H. unfold py_int. apply Qle_bool_iff in H. rewrite H. reflexivity.
Qed.

Lemma Qfloor_bounds (x : Q) (n : Z) : (0 <= x)%Q -> (x < inject_Z n)%Q -> 0 <= Qfloor x < n.
Proof.
  intros H0 Hn. split.
  - change 0 with (Qfloor 0). apply Qfloor_resp_le. exact H0.
  - rewrite Zlt_Qlt. apply Qle_lt_trans with x; [apply Qfloor_le|exact Hn].
Qed.

Lemma py_mod_integers (a b : Z) :
  (py_mod (inject_Z a) (inject_Z b) == inject_Z (a mod b))%Q.
Proof.
  unfold py_mod, Qminus.
  rewrite <- Zdiv_Qdiv, <- inject_Z_mult, <- inject_Z_opp, <- inject_Z_plus.
  destruct (Z.eq_dec b 0) as [->|Hb].
  - rewrite Z.mod_0_r. simpl. rewrite Z.add_0_r. reflexivity.
  - rewrite Z.mod_eq by exact Hb. reflexivity.
Qed.

(** X11.  The records and weights of [_get_periodic_interval], for a positive
    cycle, spacing and number of records: both indices are valid positions
    among [nbrec] records (the first one when the cycle is [nbrec] spacings
    long), and the weights are a convex pair. *)
Theorem periodic_interval_weights (t c r : Q) (nb : Z) :
  (0 < c)%Q -> (0 < r)%Q -> 0 < nb ->
  let p := _get_periodic_interval t c r nb in
  0 <= fst (fst p)
  /\ 0 <= fst (snd p) < nb
  /\ (0 <= snd (snd p) /\ snd (snd p) < 1)%Q
  /\ (0 < snd (fst p) /\ snd (fst p) <= 1)%Q
  /\ (snd (fst p) + snd (snd p) == 1)%Q
  /\ ((c == inject_Z nb * r)%Q -> fst (fst p) < nb).
Proof.
  intros Hc Hr Hnb. unfold _get_periodic_interval. cbv zeta. simpl fst. simpl snd.
  set (T := py_mod _ c).
  destruct (py_mod_bounds (t - r * (5 # 10)
              + c * (2 - inject_Z (py_round (t / c)))) c Hc) as [T0 Tc].
  fold T in T0, Tc.
  assert (Eq : (T == (T / r) * r)%Q) by (field; lra).
  assert (Hq : (0 <= T / r)%Q).
  { set (q := (T / r)%Q) in *. nra. }
  rewrite (py_int_nonneg _ Hq).
  assert (HnbQ : (0 < inject_Z nb)%Q).
  { change 0%Q with (inject_Z 0). rewrite <- Zlt_Qlt. exact Hnb. }
  destruct (py_mod_bounds T (inject_Z nb) HnbQ) as [M0 Mn].
  rewrite (py_int_nonneg _ M0).
  assert (W : ((T - r * inject_Z (Qfloor (T / r))) / r
               == T / r - inject_Z (Qfloor (T / r)))%Q) by (field; lra).
  pose proof (Qfloor_le (T / r)) as F1.
  pose proof (Qlt_floor (T / r)) as F2.
  rewrite inject_Z_plus in F2. change (inject_Z 1) with 1%Q in F2.
  split; [|split; [|split; [|split; [|split]]]].
  - change 0 with (Qfloor 0). apply Qfloor_resp_le. exact Hq.
  - apply Qfloor_bounds; assumption.
  - rewrite W. split; lra.
  - rewrite W. split; lra.
  - ring.
  - intros Ec. apply Qfloor_bounds; [exact Hq|].
    set (q := (T / r)%Q) in *. rewrite Ec in Tc. nra.
Qed.

Lemma tmpTime_integers (t c r : Q) (L C : Z) :
  (t - r * (5 # 10) == inject_Z L)%Q ->
  (c == inject_Z C)%Q ->
  (py_mod (t - r * (5 # 10) + c * (2 - inject_Z (py_round (t / c)))) c
   == inject_Z (L mod C))%Q.
Proof.
  intros EL EC. set (z := py_round (t / c)).
  rewrite (py_mod_comp _ (inject_Z (L + (2 - z) * C)) c (inject_Z C)).
  - rewrite py_mod_integers, Z_mod_plus_full. reflexivity.
  - rewrite EL, EC, inject_Z_plus, inject_Z_mult.
    unfold Zminus. rewrite inject_Z_plus, inject_Z_opp.
    change (inject_Z 2) with 2%Q. ring.
  - exact EC.
Qed.

(** X12.  The call in [set_forcing], for a time step of a whole number [d] of
    seconds: with [M] the number of seconds since the middle of the first
    record, within the year, the first record is [M / 2628000] and the second
    is [M mod 12] (the remainder of the time, not the record after the first).
    For a step that is a multiple of twelve seconds, such as the 1800 s of
    [MAIN_OPTIONS], the second record is record 0 at every time step. *)
Theorem forcing_records (itt d : Z) :
  let M := ((itt - 1) * d - 1314000) mod 31536000 in
  fst (fst (forcing_interval itt (inject_Z d))) = M / 2628000
  /\ fst (snd (forcing_interval itt (inject_Z d))) = M mod 12
  /\ ((12 | d) -> fst (snd (forcing_interval itt (inject_Z d))) = 0).
Proof.
  intros M. unfold forcing_interval, _get_periodic_interval. cbv zeta. simpl fst. simpl snd.
  set (T := py_mod _ _).
  assert (ET : (T == inject_Z M)%Q).
  { unfold T, M. apply tmpTime_integers.
    - assert (K : (365 * 86400 / 12 * (5 # 10) == inject_Z 1314000)%Q) by reflexivity.
      rewrite K.
      replace ((itt - 1) * d - 1314000) with ((itt - 1) * d + - 1314000) by lia.
      rewrite (inject_Z_plus _ (- 1314000)), inject_Z_mult.
      change (inject_Z (- 1314000)) with (- inject_Z 1314000)%Q. ring.
    - reflexivity. }
  assert (HM : 0 <= M < 31536000) by (apply Z.mod_pos_bound; lia).
  assert (E1 : py_int (T / (365 * 86400 / 12)) = M / 2628000).
  { rewrite py_int_nonneg.
    - rewrite (Qfloor_comp _ (inject_Z M / inject_Z 2628000)).
      + symmetry. apply Zdiv_Qdiv.
      + assert (K : (365 * 86400 / 12 == inject_Z 2628000)%Q) by reflexivity.
        rewrite ET, K. reflexivity.
    - rewrite ET. apply Qle_shift_div_l; [reflexivity|].
      rewrite Qmult_0_l. change 0%Q with (inject_Z 0). rewrite <- Zle_Qle. lia. }
  assert (E2 : py_int (py_mod T (inject_Z 12)) = M mod 12).
  { assert (EM : (py_mod T (inject_Z 12) == inject_Z (M mod 12))%Q).
    { rewrite (py_mod_comp T (inject_Z M) (inject_Z 12) (inject_Z 12) ET (Qeq_refl _)).
      apply py_mod_integers. }
    rewrite py_int_nonneg.
    - rewrite (Qfloor_comp _ _ EM). apply Qfloor_Z.
    - rewrite EM. change 0%Q with (inject_Z 0). rewrite <- Zle_Qle.
      apply Z.mod_pos_bound. lia. }
  split; [exact E1|]. split; [exact E2|].
  intros [k Hk]. rewrite E2. unfold M.
  apply Z.mod_divide; [lia|].
  rewrite (Z.mod_eq ((itt - 1) * d - 1314000) 31536000) by lia.
  exists ((itt - 1) * k - 109500 - 2628000 * (((itt - 1) * d - 1314000) / 31536000)).
  subst d. lia.
Qed.

Example forcing_records_demo :
  fst (fst (forcing_interval 1 1800)) = 11 /\ fst (snd (forcing_interval 1 1800)) = 0
  /\ fst (fst (forcing_interval 2000 1800)) = 0 /\ fst (snd (forcing_interval 2000 1800)) = 0.
Proof. vm_compute. repeat split. Qed.

(** ** The data files, with the bathymetry missing *)

Definition demo_isfile (filepath : string) : bool :=
  negb (String.eqb filepath "bathymetry.bin").

Lemma data_files_are_checked_witness :
  exists name filepath,
    In (name, filepath) DATA_FILES
    /\ demo_isfile filepath = false
    /\ __init__ demo_isfile DATA_FILES (Ok tt) = Raise (not_found name filepath).
Proof.
  destruct (data_files_are_checked unit demo_isfile DATA_FILES (Ok tt)
              (Permutation_refl _)) as [_ H].
  apply (H "bathymetry" "bathymetry.bin")%string.
  - simpl. auto 20.
  - reflexivity.
Defined.

(** The middle of a step in the second month of the year. *)
Lemma periodic_interval_weights_witness :
  fst (fst (_get_periodic_interval 3598200 31536000 2628000 12)) < 12.
Proof.
  apply (periodic_interval_weights 3598200 31536000 2628000 12).
  - reflexivity.
  - reflexivity.
  - lia.
  - reflexivity.
Defined.

(** ** A grid of two by one columns and two levels *)

Definition demo_exchange_f (_ _ _ _ : Z) (a : @Arr3 Z) : @Arr3 Z := a.
Definition demo_exchange_c (a : @Arr3 Z) (_ : bool) (_ _ : Z) : @Arr3 Z := a.

(** Column (2, 2) is ocean, column (3, 2) is land. *)
Definition demo_grid (idemix : bool) : @Grid Z :=
  {| nx := 2; ny := 1; nz := 2; np_ := 0;
     rho_0 := 1024; pi_ := 3;
     legacy_mode := false;
     enable_cyclic_x := true;
     enable_idemix := idemix;
     enable_idemix_M2 := false;
     enable_idemix_niw := false;
     maskT := fun i j _ => if (i =? 2) && (j =? 2) then 1 else 0;
     maskW := fun i j _ => if (i =? 2) && (j =? 2) then 1 else 0;
     kbot := fun i j => if (i =? 2) && (j =? 2) then 2 else 0;
     zw := fun k => k - 2;
     dzt := fun _ => 1;
     coriolis_t := fun _ _ => 0 |}.

Definition demo_files : @DataFiles Z :=
  {| temperature := fun _ _ _ => 5;
     salt_data := fun _ _ _ => 35;
     sss := fun _ _ _ => 35;
     tau_x := fun _ _ _ => 1;
     tau_y := fun _ _ _ => 1;
     q_net := fun _ _ _ => 7;
     dqdt := fun _ _ _ => 1;
     swf := fun _ _ _ => 2;
     sst := fun _ _ _ => 5;
     bathymetry := fun i _ => if i =? 0 then 1 else 0;
     tidal_energy := fun _ _ => 4;
     wind_energy := fun _ _ => 3 |}.

Definition demo_fields : @Fields Z :=
  {| temp := fun _ _ _ _ => 0; salt := fun _ _ _ _ => 0;
     taux := fun _ _ _ => 0; tauy := fun _ _ _ => 0;
     qnet := fun _ _ _ => 0; qnec := fun _ _ _ => 0; qsol := fun _ _ _ => 0;
     t_star := fun _ _ _ => 0; s_star := fun _ _ _ => 0;
     forc_M2 := fun _ _ _ => 0; forc_niw := fun _ _ _ => 0;
     forc_iw_bottom := fun _ _ => 0; forc_iw_surface := fun _ _ => 0;
     omega_niw := fun _ _ => 0;
     divpen_shortwave := fun _ => 0 |}.

Example demo_ocean_temperature :
  temp (fst (set_initial_conditions demo_exchange_f demo_exchange_c
               (demo_grid true) demo_files demo_fields)) 2 2 0 1 = 5.
Proof. reflexivity. Qed.

(** The demo grid with twelve levels, the lowest of them closed in column
    (2, 2). *)
Definition demo_deep (idemix : bool) : @Grid Z :=
  {| nx := 2; ny := 1; nz := 12; np_ := 0;
     rho_0 := 1024; pi_ := 3;
     legacy_mode := false;
     enable_cyclic_x := true;
     enable_idemix := idemix;
     enable_idemix_M2 := false;
     enable_idemix_niw := false;
     maskT := fun i j k => if (i =? 2) && (j =? 2) && (0 <? k) then 1 else 0;
     maskW := fun i j _ => if (i =? 2) && (j =? 2) then 1 else 0;
     kbot := fun i j => if (i =? 2) && (j =? 2) then 2 else 0;
     zw := fun k => k - 12;
     dzt := fun _ => 1;
     coriolis_t := fun _ _ => 0 |}.

Definition demo_deep_grid : @Grid Z := demo_deep true.

(** On the two-level grid the method stops at the monthly heat flux; on the
    twelve-level grid it returns. *)
Example demo_outcomes :
  snd (set_initial_conditions demo_exchange_f demo_exchange_c
         (demo_grid true) demo_files demo_fields) = Raise ValueError
  /\ snd (set_initial_conditions demo_exchange_f demo_exchange_c
            demo_deep_grid demo_files demo_fields) = Ok tt.
Proof. split; reflexivity. Qed.

(** On the twelve-level grid the land cell (3, 2, 0) holds zero in time
    level 0, and the ocean cell (2, 2, 1) holds the temperature of the
    file. *)
Lemma initial_tracers_masked_witness :
  temp (fst (set_initial_conditions demo_exchange_f demo_exchange_c
               demo_deep_grid demo_files demo_fields)) 3 2 0 0 = 0
  /\ salt (fst (set_initial_conditions demo_exchange_f demo_exchange_c
                  demo_deep_grid demo_files demo_fields)) 3 2 0 0 = 0
  /\ temp (fst (set_initial_conditions demo_exchange_f demo_exchange_c
                  demo_deep_grid demo_files demo_fields)) 2 2 1 0 = 5.
Proof.
  destruct (initial_tracers_masked demo_exchange_f demo_exchange_c
              demo_deep_grid demo_files demo_fields scalar_laws_Z
              (fun _ _ _ _ _ _ => conj eq_refl eq_refl))
    as [A B].
  destruct (A 3 2 0 0 eq_refl (or_introl eq_refl) eq_refl) as [A1 A2].
  destruct (B 2 2 1 0 eq_refl (or_introl eq_refl) eq_refl) as [B1 _].
  split; [exact A1|]. split; [exact A2|]. rewrite B1. reflexivity.
Defined.

(** With IDEMIX disabled the method raises on the twelve-level grid, and
    the bottom forcing is still what allocation left. *)
Lemma set_initial_conditions_without_idemix_witness :
  snd (set_initial_conditions demo_exchange_f demo_exchange_c
         (demo_deep false) demo_files demo_fields)
  = Raise (UnboundLocalError "tidal_energy_data")
  /\ forc_iw_bottom (fst (set_initial_conditions demo_exchange_f demo_exchange_c
                            (demo_deep false) demo_files demo_fields)) 2 2 = 0.
Proof.
  destruct (set_initial_conditions_without_idemix demo_exchange_f demo_exchange_c
              (demo_deep false) demo_files demo_fields eq_refl)
    as [E B].
  - right. simpl. lia.
  - split; [rewrite E; reflexivity|rewrite B; reflexivity].
Defined.

Example demo_kbot :
  set_topography 2 1 2 (bathymetry demo_files) (salt_data demo_files) (fun _ _ => 0) 2 2 = 1
  /\ set_topography 2 1 2 (bathymetry demo_files) (salt_data demo_files) (fun _ _ => 0) 3 2 = 0.
Proof. split; reflexivity. Qed.

(** Entry (2, 2) of the demo grid's [kbot] lies between 0 and 2. *)
Lemma kbot_in_range_witness :
  0 <= set_topography 2 1 2 (bathymetry demo_files) (salt_data demo_files)
         (fun _ _ => 0) 2 2 <= 2.
Proof.
  apply (kbot_in_range 2 1 2 (bathymetry demo_files) (salt_data demo_files)
           (fun _ _ => 0)).
  - lia.
  - intros i j. lia.
Defined.

(** ** A salinity file whose first level is empty *)

Definition demo_salt_file : @Arr3 Z := fun _ _ k => if k =? 0 then 0 else 35.

Lemma kbot_is_first_salt_level_witness :
  set_topography 2 1 2 (bathymetry demo_files) demo_salt_file (fun _ _ => 0) 2 2 = 2.
Proof.
  destruct (kbot_is_first_salt_level 2 1 2 (bathymetry demo_files) demo_salt_file
              (fun _ _ => 0) 2 2) as [_ [H _]].
  - lia.
  - reflexivity.
  - reflexivity.
  - reflexivity.
  - apply (H eq_refl 1).
    + lia.
    + reflexivity.
    + intros k Hk. assert (k = 0) as -> by lia. reflexivity.
Defined.

(** January of the restoring temperature is zero in the ocean column
    (2, 2), whose level 0 is masked; February is not. *)
Lemma monthly_fields_masked_by_level_witness :
  t_star (fst (set_initial_conditions demo_exchange_f demo_exchange_c
                 demo_deep_grid demo_files demo_fields)) 2 2 0 = 0
  /\ t_star (fst (set_initial_conditions demo_exchange_f demo_exchange_c
                    demo_deep_grid demo_files demo_fields)) 2 2 1 = 5.
Proof.
  split.
  - destruct (monthly_fields_masked_by_level demo_exchange_f demo_exchange_c
                demo_deep_grid demo_files demo_fields 2 2 0 scalar_laws_Z)
      as [_ H].
    + simpl. lia.
    + reflexivity.
    + lia.
    + apply (H eq_refl).
  - destruct (monthly_fields_masked_by_level demo_exchange_f demo_exchange_c
                demo_deep_grid demo_files demo_fields 2 2 1 scalar_laws_Z)
      as [[_ [_ [_ [H _]]]] _].
    + simpl. lia.
    + reflexivity.
    + lia.
    + rewrite H. reflexivity.
Defined.

End Global_one_degree.

(** * tracer_monitor.py: global tracer content *)

Module Tracer_monitor.

Section Monitor.

Context {F : Type} {scalar_F : Scalar F}.

(** [veros.distributed.global_sum] of a number: the sum over the processes,
    which is the number itself on a single process. *)
Variable global_sum : F -> F.

(** What [output] reads of [state.variables]. *)
Record Variables : Type := {
  nx : Z;
  ny : Z;
  nz : Z;
  tau : Z;
  area_t : Z -> Z -> F;
  dzt : Z -> F;
  maskT : Z -> Z -> Z -> F;
  temp : Z -> Z -> Z -> Z -> F;
  salt : Z -> Z -> Z -> Z -> F
}.

(** [self.variables]. *)
Record TracerVariables : Type := {
  tempm1 : F;
  vtemp1 : F;
  saltm1 : F;
  vsalt1 : F
}.

(** The index triples of an array of shape [(nx, ny, nz)], in storage order. *)
Definition cells (vs : Variables) : list (Z * Z * Z) :=
  flat_map (fun i => flat_map (fun j => map (fun k => (i, j, k)) (range (nz vs)))
                              (range (ny vs)))
           (range (nx vs)).

(** [np.sum] of the entries listed. *)
Definition np_sum (l : list F) : F := fold_left fadd l (lit 0).

(** [vs.area_t[2:-2, 2:-2, np.newaxis] * vs.dzt[np.newaxis, np.newaxis, :]
     * vs.maskT[2:-2, 2:-2, :]]. *)
Definition cell_volume (vs : Variables) (c : Z * Z * Z) : F :=
  let '(i, j, k) := c in
  fmul (fmul (area_t vs (i + 2) (j + 2)) (dzt vs k)) (maskT vs (i + 2) (j + 2) k).

(** [x[2:-2, 2:-2, :, vs.tau]]. *)
Definition at_tau (vs : Variables) (x : Z -> Z -> Z -> Z -> F) (c : Z * Z * Z) : F :=
  let '(i, j, k) := c in x (i + 2) (j + 2) k (tau vs).

(** [x ** 2]. *)
Definition square (x : F) : F := fmul x x.

(** [global_sum(np.sum(cell_volume * x))]. *)
Definition content (vs : Variables) (x : Z * Z * Z -> F) : F :=
  global_sum (np_sum (map (fun c => fmul (cell_volume vs c) (x c)) (cells vs))).

(** A line of the log: the mean and its change since the last output. *)
Definition report_line (volm now before : F) : F * F :=
  (fdiv now volm, fdiv (fsub now before) volm).

(** *** TracerMonitor.output *)
Definition output (vs : Variables) (tracer_vs : TracerVariables)
  : TracerVariables * list (F * F) :=
  let volm := global_sum (np_sum (map (cell_volume vs) (cells vs))) in
  let tempm := content vs (at_tau vs (temp vs)) in
  let saltm := content vs (at_tau vs (salt vs)) in
  let vtemp := content vs (fun c => square (at_tau vs (temp vs) c)) in
  let vsalt := content vs (fun c => square (at_tau vs (salt vs) c)) in
  ({| tempm1 := tempm; vtemp1 := vtemp; saltm1 := saltm; vsalt1 := vsalt |},
   [report_line volm tempm (tempm1 tracer_vs);
    report_line volm saltm (saltm1 tracer_vs);
    report_line volm vtemp (vtemp1 tracer_vs);
    report_line volm vsalt (vsalt1 tracer_vs)]).

(** ** Properties *)

(** The same variables with other tracer fields. *)
Definition with_tracers (vs : Variables) (temp' salt' : Z -> Z -> Z -> Z -> F)
  : Variables :=
  {| nx := nx vs; ny := ny vs; nz := nz vs; tau := tau vs;
     area_t := area_t vs; dzt := dzt vs; maskT := maskT vs;
     temp := temp'; salt := salt' |}.

Definition is_land (vs : Variables) (c : Z * Z * Z) : Prop :=
  let '(i, j, k) := c in maskT vs (i + 2) (j + 2) k = fzero.

Lemma in_cells (vs : Variables) (i j k : Z) :
  In (i, j, k) (cells vs) <-> 0 <= i < nx vs /\ 0 <= j < ny vs /\ 0 <= k < nz vs.
Proof.
  unfold cells. rewrite in_flat_map. split.
  - intros [i' [Hi H]]. apply in_flat_map in H. destruct H as [j' [Hj H]].
    apply in_map_iff in H. destruct H as [k' [E Hk]]. injection E as -> -> ->.
    unfold range in *. rewrite in_map_iff in Hi, Hj, Hk.
    destruct Hi as [a [<- Ha]], Hj as [b [<- Hb]], Hk as [c [<- Hc]].
    apply in_seq in Ha, Hb, Hc. lia.
  - intros [Hi [Hj Hk]]. exists i. split.
    + unfold range. apply in_map_iff. exists (Z.to_nat i). split; [lia|].
      apply in_seq. lia.
    + apply in_flat_map. exists j. split.
      * unfold range. apply in_map_iff. exists (Z.to_nat j). split; [lia|].
        apply in_seq. lia.
      * apply in_map_iff. exists k. split; [reflexivity|].
        unfold range. apply in_map_iff. exists (Z.to_nat k). split; [lia|].
        apply in_seq. lia.
Qed.

Lemma NoDup_append (A : Type) (l1 l2 : list A) :
  NoDup l1 -> NoDup l2 -> (forall x, In x l1 -> ~ In x l2) -> NoDup (l1 ++ l2).
Proof.
  induction l1 as [|a l1 IH]; intros H1 H2 H; [exact H2|].
  simpl. inversion H1 as [|a' l' Ha Hl]; subst. constructor.
  - intros Hin. apply in_app_or in Hin. destruct Hin as [Hin|Hin].
    + exact (Ha Hin).
    + exact (H a (or_introl eq_refl) Hin).
  - apply IH; [exact Hl|exact H2|]. intros x Hx. apply H. right. exact Hx.
Qed.

Lemma NoDup_map_injective (A B : Type) (f : A -> B) (l : list A) :
  (forall x y, f x = f y -> x = y) -> NoDup l -> NoDup (map f l).
Proof.
  intros Hf. induction 1 as [|a l Ha Hl IH]; simpl; constructor.
  - intros Hin. apply in_map_iff in Hin. destruct Hin as [x [E Hx]].
    apply Hf in E. subst x. exact (Ha Hx).
  - exact IH.
Qed.

Lemma NoDup_flat_map (A B : Type) (f : A -> list B) (l : list A) :
  NoDup l ->
  (forall x, In x l -> NoDup (f x)) ->
  (forall x y z, In z (f x) -> In z (f y) -> x = y) ->
  NoDup (flat_map f l).
Proof.
  induction 1 as [|a l Ha Hl IH]; intros Hf Hsep; simpl; [constructor|].
  apply NoDup_append.
  - apply Hf. left. reflexivity.
  - apply IH; [intros x Hx; apply Hf; right; exact Hx|exact Hsep].
  - intros z Hz Hin. apply in_flat_map in Hin. destruct Hin as [y [Hy Hzy]].
    rewrite (Hsep a y z Hz Hzy) in Ha. exact (Ha Hy).
Qed.

Lemma NoDup_range (n : Z) : NoDup (range n).
Proof.
  unfold range. apply NoDup_map_injective.
  - intros x y. apply Nat2Z.inj.
  - apply seq_NoDup.
Qed.

(** Every interior cell is listed once. *)
Lemma cells_NoDup (vs : Variables) : NoDup (cells vs).
Proof.
  unfold cells. apply NoDup_flat_map.
  - apply NoDup_range.
  - intros i _. apply NoDup_flat_map.
    + apply NoDup_range.
    + intros j _. apply NoDup_map_injective; [|apply NoDup_range].
      intros x y E. injection E as ->. reflexivity.
    + intros x y z Hx Hy. apply in_map_iff in Hx, Hy.
      destruct Hx as [k1 [<- _]], Hy as [k2 [E _]]. injection E as -> _. reflexivity.
  - intros x y z Hx Hy. apply in_flat_map in Hx, Hy.
    destruct Hx as [j1 [_ Hx]], Hy as [j2 [_ Hy]]. apply in_map_iff in Hx, Hy.
    destruct Hx as [k1 [<- _]], Hy as [k2 [E _]]. injection E as -> _ _. reflexivity.
Qed.

Section Laws.

Hypothesis laws : ScalarLaws F.

Lemma land_volume (vs : Variables) (c : Z * Z * Z) :
  is_land vs c -> cell_volume vs c = fzero.
Proof.
  destruct c as [[i j] k]. unfold is_land, cell_volume. intros ->.
  apply (fmul_0_r F laws).
Qed.

Lemma land_summand (vs : Variables) (x : Z * Z * Z -> F) (c : Z * Z * Z) :
  is_land vs c -> fmul (cell_volume vs c) (x c) = fzero.
Proof. intros H. rewrite (land_volume vs c H). apply (fmul_0_l F laws). Qed.

Lemma content_ext (vs : Variables) (x y : Z * Z * Z -> F) :
  (forall c, In c (cells vs) -> is_land vs c \/ x c = y c) ->
  content vs x = content vs y.
Proof.
  intros H. unfold content. f_equal. f_equal. apply map_ext_in.
  intros c Hc. destruct (H c Hc) as [L| ->]; [|reflexivity].
  rewrite !land_summand by exact L. reflexivity.
Qed.

(** Adding the summand of a land cell leaves a partial sum as it is. *)
Lemma np_sum_skips_zero (l1 l2 : list F) :
  np_sum (l1 ++ fzero :: l2) = np_sum (l1 ++ l2).
Proof.
  unfold np_sum. rewrite !fold_left_app. simpl.
  rewrite (fadd_0_r F laws). reflexivity.
Qed.

(** C7.  [TracerMonitor.output] sums over the interior cells, each taken
    once.  With [volume = area_t * dzt * maskT] of a cell and the tracers at
    time level [tau], it stores the sums of [volume * temp], [volume * salt],
    [volume * temp ** 2] and [volume * salt ** 2] as the previous contents, and
    reports each of them, and its change since the last output, divided by
    the sum of the volumes.  In an arithmetic where [x * 0 = 0 * x = 0] and
    [x + 0 = x] the summand of every cell with [maskT = 0] is zero and leaves
    the sum as it is, so that the stored contents and the reported lines do
    not depend on the tracer values at such cells. *)
Theorem tracer_content_masked (vs : Variables) (tracer_vs : TracerVariables) :
  let volume := fun c : Z * Z * Z =>
    let '(i, j, k) := c in
    fmul (fmul (area_t vs (i + 2) (j + 2)) (dzt vs k)) (maskT vs (i + 2) (j + 2) k) in
  let t := fun c : Z * Z * Z => let '(i, j, k) := c in temp vs (i + 2) (j + 2) k (tau vs) in
  let sa := fun c : Z * Z * Z => let '(i, j, k) := c in salt vs (i + 2) (j + 2) k (tau vs) in
  let total := fun x : Z * Z * Z -> F =>
    global_sum (fold_left fadd (map (fun c => fmul (volume c) (x c)) (cells vs)) (lit 0)) in
  let volm := global_sum (fold_left fadd (map volume (cells vs)) (lit 0)) in
  (NoDup (cells vs)
   /\ forall i j k, In (i, j, k) (cells vs)
                    <-> 0 <= i < nx vs /\ 0 <= j < ny vs /\ 0 <= k < nz vs)
  /\ output vs tracer_vs
     = ({| tempm1 := total t;
           vtemp1 := total (fun c => fmul (t c) (t c));
           saltm1 := total sa;
           vsalt1 := total (fun c => fmul (sa c) (sa c)) |},
        [(fdiv (total t) volm, fdiv (fsub (total t) (tempm1 tracer_vs)) volm);
         (fdiv (total sa) volm, fdiv (fsub (total sa) (saltm1 tracer_vs)) volm);
         (fdiv (total (fun c => fmul (t c) (t c))) volm,
          fdiv (fsub (total (fun c => fmul (t c) (t c))) (vtemp1 tracer_vs)) volm);
         (fdiv (total (fun c => fmul (sa c) (sa c))) volm,
          fdiv (fsub (total (fun c => fmul (sa c) (sa c))) (vsalt1 tracer_vs)) volm)])
  /\ (forall i j k (x : F),
        maskT vs (i + 2) (j + 2) k = fzero ->
        volume (i, j, k) = fzero /\ fmul (volume (i, j, k)) x = fzero)
  /\ (forall l1 l2 : list F,
        fold_left fadd (l1 ++ fzero :: l2) (lit 0) = fold_left fadd (l1 ++ l2) (lit 0))
  /\ (forall temp' salt',
        (forall i j k, 0 <= i < nx vs -> 0 <= j < ny vs -> 0 <= k < nz vs ->
           maskT vs (i + 2) (j + 2) k = fzero
           \/ (temp' (i + 2) (j + 2) k (tau vs) = temp vs (i + 2) (j + 2) k (tau vs)
               /\ salt' (i + 2) (j + 2) k (tau vs) = salt vs (i + 2) (j + 2) k (tau vs))) ->
        output (with_tracers vs temp' salt') tracer_vs = output vs tracer_vs).
Proof.
  intros volume t sa total volm.
  split; [split; [apply cells_NoDup|apply in_cells]|].
  split; [reflexivity|]. split; [|split].
  - intros i j k x L. split.
    + apply (land_volume vs (i, j, k)). exact L.
    + apply (land_summand vs (fun _ => x) (i, j, k)). exact L.
  - apply np_sum_skips_zero.
  - intros temp' salt' H.
    assert (Hsame : forall i j k, In (i, j, k) (cells vs) ->
              is_land vs (i, j, k)
              \/ (temp' (i + 2) (j + 2) k (tau vs) = temp vs (i + 2) (j + 2) k (tau vs)
                  /\ salt' (i + 2) (j + 2) k (tau vs) = salt vs (i + 2) (j + 2) k (tau vs))).
    { intros i j k Hc. apply in_cells in Hc. destruct Hc as [Hi [Hj Hk]].
      exact (H i j k Hi Hj Hk). }
    assert (Et : content (with_tracers vs temp' salt') (at_tau (with_tracers vs temp' salt') temp')
                 = content vs (at_tau vs (temp vs))).
    { apply (content_ext vs). intros [[i j] k] Hc.
      destruct (Hsame i j k Hc) as [L|[E _]]; [left; exact L|right; exact E]. }
    assert (Es : content (with_tracers vs temp' salt') (at_tau (with_tracers vs temp' salt') salt')
                 = content vs (at_tau vs (salt vs))).
    { apply (content_ext vs). intros [[i j] k] Hc.
      destruct (Hsame i j k Hc) as [L|[_ E]]; [left; exact L|right; exact E]. }
    assert (Evt : content (with_tracers vs temp' salt')
                    (fun c => square (at_tau (with_tracers vs temp' salt') temp' c))
                  = content vs (fun c => square (at_tau vs (temp vs) c))).
    { apply (content_ext vs). intros [[i j] k] Hc.
      destruct (Hsame i j k Hc) as [L|[E _]]; [left; exact L|right].
      unfold square, at_tau. simpl. rewrite E. reflexivity. }
    assert (Evs : content (with_tracers vs temp' salt')
                    (fun c => square (at_tau (with_tracers vs temp' salt') salt' c))
                  = content vs (fun c => square (at_tau vs (salt vs) c))).
    { apply (content_ext vs). intros [[i j] k] Hc.
      destruct (Hsame i j k Hc) as [L|[_ E]]; [left; exact L|right].
      unfold square, at_tau. simpl. rewrite E. reflexivity. }
    unfold output.
    change (temp (with_tracers vs temp' salt')) with temp'.
    change (salt (with_tracers vs temp' salt')) with salt'.
    rewrite Et, Es, Evt, Evs. reflexivity.
Qed.

(** The sum of zeros. *)
Lemma np_sum_zeros (A : Type) (l : list A) : np_sum (map (fun _ => fzero) l) = fzero.
Proof.
  unfold np_sum.
  assert (G : forall acc : F, fold_left fadd (map (fun _ : A => fzero) l) acc = acc).
  { induction l as [|a l IH]; intros acc; [reflexivity|].
    simpl. rewrite (fadd_0_r F laws). apply IH. }
  apply G.
Qed.

Lemma content_of_land (vs : Variables) (x : Z * Z * Z -> F) :
  (forall c, In c (cells vs) -> is_land vs c) ->
  content vs x = global_sum fzero.
Proof.
  intros L. unfold content. f_equal.
  rewrite <- (np_sum_zeros _ (cells vs)). f_equal.
  apply map_ext_in. intros c Hc. apply land_summand. apply L. exact Hc.
Qed.

(** X13.  A domain without a wet cell (all of [maskT] zero in the interior, or no
    interior cell at all): the volume and the four contents are sums of
    zeros, so every line of the report divides by [global_sum 0], and the
    stored contents are [global_sum 0] whatever the tracers hold. *)
Theorem output_without_wet_cells (vs : Variables) (tracer_vs : TracerVariables) :
  (forall c, In c (cells vs) -> is_land vs c) ->
  let z := global_sum fzero in
  output vs tracer_vs
  = ({| tempm1 := z; vtemp1 := z; saltm1 := z; vsalt1 := z |},
     [(fdiv z z, fdiv (fsub z (tempm1 tracer_vs)) z);
      (fdiv z z, fdiv (fsub z (saltm1 tracer_vs)) z);
      (fdiv z z, fdiv (fsub z (vtemp1 tracer_vs)) z);
      (fdiv z z, fdiv (fsub z (vsalt1 tracer_vs)) z)]).
Proof.
  intros L z. unfold output, report_line.
  rewrite !(content_of_land vs _ L).
  assert (V : global_sum (np_sum (map (cell_volume vs) (cells vs))) = z).
  { unfold z. f_equal. rewrite <- (np_sum_zeros _ (cells vs)). f_equal.
    apply map_ext_in. intros c Hc. apply land_volume. apply L. exact Hc. }
  rewrite V. reflexivity.
Qed.

End Laws.

End Monitor.

(** ** Two columns, one of them land *)

Definition demo_variables (land_temp : Z) : @Variables Z :=
  {| nx := 2; ny := 1; nz := 1; tau := 1;
     area_t := fun _ _ => 10;
     dzt := fun _ => 2;
     maskT := fun i _ _ => if i =? 2 then 1 else 0;
     temp := fun i _ _ _ => if i =? 2 then 5 else land_temp;
     salt := fun i _ _ _ => if i =? 2 then 35 else land_temp |}.

Definition demo_previous : @TracerVariables Z :=
  {| tempm1 := 0; vtemp1 := 0; saltm1 := 0; vsalt1 := 0 |}.

Example demo_content :
  fst (output (fun x => x) (demo_variables 99) demo_previous)
  = {| tempm1 := 100; vtemp1 := 500; saltm1 := 700; vsalt1 := 24500 |}.
Proof. reflexivity. Qed.

(** The wet column alone makes the contents, whatever stands in the land
    column: a volume of 20 with temperature 5 and salinity 35. *)
Lemma tracer_content_masked_witness :
  output (fun x => x) (demo_variables 99) demo_previous
  = ({| tempm1 := 100; vtemp1 := 500; saltm1 := 700; vsalt1 := 24500 |},
     [(5, 5); (35, 35); (25, 25); (1225, 1225)]).
Proof.
  destruct (tracer_content_masked (fun x => x) scalar_laws_Z (demo_variables 0) demo_previous)
    as [_ [E [_ [_ H]]]].
  change (output (fun x => x)
            (with_tracers (demo_variables 0) (temp (demo_variables 99))
               (salt (demo_variables 99))) demo_previous
          = ({| tempm1 := 100; vtemp1 := 500; saltm1 := 700; vsalt1 := 24500 |},
             [(5, 5); (35, 35); (25, 25); (1225, 1225)])).
  rewrite (H (temp (demo_variables 99)) (salt (demo_variables 99))).
  - exact E.
  - intros i j k Hi Hj Hk. simpl in Hi.
    assert (Hi' : i = 0 \/ i = 1) by lia.
    destruct Hi' as [-> | ->]; [right; split; reflexivity|left; reflexivity].
Defined.

(** The demo columns with the mask cleared everywhere. *)
Definition demo_dry : @Variables Z :=
  {| nx := 2; ny := 1; nz := 1; tau := 1;
     area_t := fun _ _ => 10;
     dzt := fun _ => 2;
     maskT := fun _ _ _ => 0;
     temp := fun _ _ _ _ => 5;
     salt := fun _ _ _ _ => 35 |}.

Lemma output_without_wet_cells_witness :
  fst (output (fun x => x) demo_dry demo_previous)
  = {| tempm1 := 0; vtemp1 := 0; saltm1 := 0; vsalt1 := 0 |}.
Proof.
  rewrite (output_without_wet_cells (fun x => x) scalar_laws_Z demo_dry demo_previous).
  - reflexivity.
  - intros [[i j] k] _. reflexivity.
Defined.

End Tracer_monitor.

(** * overturning.py: the overturning diagnostic

    Writing the output file ([initialize_output], [write_output]) is
    represented by the list of arrays handed to the writer. *)

Module Overturning.

(** The keys of [VARIABLES] other than [nitts]. *)
Inductive Var : Type :=
| sigma | zarea | trans | vsf_iso | vsf_depth | bolus_iso | bolus_depth.

Definition var_index (x : Var) : Z :=
  match x with
  | sigma => 0 | zarea => 1 | trans => 2 | vsf_iso => 3 | vsf_depth => 4
  | bolus_iso => 5 | bolus_depth => 6
  end.

Definition var_eqb (x y : Var) : bool := var_index x =? var_index y.

(** [var in names]. *)
Definition mem (x : Var) (names : list Var) : bool := existsb (var_eqb x) names.

Section Diagnostic.

Context {F : Type} {scalar_F : Scalar F}.

Definition Arr2 : Type := Z -> Z -> F.

(** What the diagnostic reads of [state]: dimensions, settings, variables. *)
Record State : Type := {
  nx : Z;
  ny : Z;
  nz : Z;
  enable_neutral_diffusion : bool;
  enable_skew_diffusion : bool;
  tau : Z;
  dxt : Z -> F;
  cosu : Z -> F;
  dzt : Z -> F;
  maskV : Z -> Z -> Z -> F;
  v : Z -> Z -> Z -> Z -> F;
  salt : Z -> Z -> Z -> Z -> F;
  temp : Z -> Z -> Z -> Z -> F;
  B1_gm : Z -> Z -> Z -> F
}.

(** [self.variables]: the sample count and one array per name ([sigma] has
    one axis and is read at second index 0). *)
Record OvtVars : Type := {
  nitts : Z;
  arr : Var -> Arr2
}.

Definition set (a : Var -> Arr2) (x : Var) (val : Arr2) : Var -> Arr2 :=
  fun y => if var_eqb y x then val else a y.

(** Functions of other modules: [density.get_rho], [np.interp] applied row
    by row (lengths of the result and of the table first), and
    [veros.distributed.global_sum] entry by entry. *)
Variable get_rho : F -> F -> F -> F.
Variable np_interp : Z -> Z -> (Z -> F) -> (Z -> F) -> (Z -> F) -> Z -> F.
Variable global_sum : F -> F.

(** [Variable.active] where [VARIABLES] does not give it. *)
Variable default_active : bool.

(** *** Overturning.__init__ *)

Definition skew (st : State) : bool :=
  enable_neutral_diffusion st && enable_skew_diffusion st.

Definition DEFAULT_OUTPUT_VARS : list Var :=
  [sigma; zarea; trans; vsf_iso; vsf_depth; bolus_iso; bolus_depth].

Definition active (st : State) (x : Var) : bool :=
  match x with
  | bolus_iso | bolus_depth => skew st
  | _ => default_active
  end.

Definition output_variables (st : State) : list Var :=
  filter (active st) DEFAULT_OUTPUT_VARS.

(** *** diagnose_kernel *)

Definition nlevel (st : State) : Z := nz st * 4.

(** [np.sum] along an axis of length [n]. *)
Definition sum_over (n : Z) (f : Z -> F) : F :=
  fold_left fadd (map f (range n)) (lit 0).

(** [np.cumsum] along an axis, at position [k]. *)
Fixpoint cumsum (f : Z -> F) (k : nat) : F :=
  match k with
  | O => f 0
  | S k' => fadd (cumsum f k') (f (Z.of_nat k))
  end.

(** A Boolean array as a factor. *)
Definition of_bool (b : bool) : F := if b then lit 1 else lit 0.

Definition within (lo hi k : Z) : bool := (lo <=? k) && (k <? hi).

(** [zonal_sum]: the sum along the first axis, then over the processes. *)
Definition zonal_sum (st : State) (f : Z -> F) : F := global_sum (sum_over (nx st) f).

Definition sig_loc (st : State) (p_ref : F) (i j k : Z) : F :=
  if inner (nx st) i && within 2 (ny st + 3) j && within 0 (nz st) k
  then get_rho (salt st i j k (tau st)) (temp st i j k (tau st)) p_ref
  else lit 0.

(** Indexed like [sig_loc[2:-2, 2:-2, :]]. *)
Definition sig_loc_face (st : State) (p_ref : F) (i j k : Z) : F :=
  fmul (lit (5 # 10))
       (fadd (sig_loc st p_ref (i + 2) (j + 2) k) (sig_loc st p_ref (i + 2) (j + 3) k)).

Definition fac (st : State) (i j k : Z) : F :=
  fmul (fmul (fmul (dxt st (i + 2)) (cosu st (j + 2))) (dzt st k))
       (maskV st (i + 2) (j + 2) k).

(** [sig_loc_face > ovt_vs.sigma[m]]. *)
Definition below (st : State) (ovt : OvtVars) (p_ref : F) (m i j k : Z) : bool :=
  fltb (arr ovt sigma m 0) (sig_loc_face st p_ref i j k).

(** The local [trans] and [z_sig] after the loop over the levels; [j] runs
    over the whole [yu] axis. *)
Definition trans_now (st : State) (ovt : OvtVars) (p_ref : F) (j m : Z) : F :=
  if inner (ny st) j && within 0 (nlevel st) m
  then zonal_sum st (fun i =>
         sum_over (nz st) (fun k =>
           fmul (fmul (v st (i + 2) j k (tau st)) (fac st i (j - 2) k))
                (of_bool (below st ovt p_ref m i (j - 2) k))))
  else lit 0.

Definition z_sig (st : State) (ovt : OvtVars) (p_ref : F) (j m : Z) : F :=
  if inner (ny st) j && within 0 (nlevel st) m
  then zonal_sum st (fun i =>
         sum_over (nz st) (fun k =>
           fmul (fac st i (j - 2) k) (of_bool (below st ovt p_ref m i (j - 2) k))))
  else lit 0.

Definition bolus_trans (st : State) (ovt : OvtVars) (p_ref : F) (j m : Z) : F :=
  if inner (ny st) j && within 0 (nlevel st) m
  then zonal_sum st (fun i =>
         fadd
           (sum_over (nz st - 1) (fun k' =>
              let k := k' + 1 in
              fmul (fmul (fmul (fmul (fsub (B1_gm st (i + 2) j k)
                                           (B1_gm st (i + 2) j (k - 1)))
                                     (dxt st (i + 2)))
                               (cosu st j))
                         (maskV st (i + 2) j k))
                   (of_bool (below st ovt p_ref m i (j - 2) k))))
           (fmul (fmul (fmul (fmul (B1_gm st (i + 2) j 0) (dxt st (i + 2))) (cosu st j))
                       (maskV st (i + 2) j 0))
                 (of_bool (below st ovt p_ref m i (j - 2) 0))))
  else lit 0.

(** [update_add(a, at[2:-2, :], inc)] on an array with [n] columns. *)
Definition update_add_rows (st : State) (n : Z) (a inc : Arr2) : Arr2 :=
  fun j k => if inner (ny st) j && within 0 n k then fadd (a j k) (inc j k) else a j k.

Definition vsf_depth_now (st : State) (j k : Z) : F :=
  cumsum (fun k' =>
            fmul (zonal_sum st (fun i =>
                    fmul (fmul (fmul (dxt st (i + 2)) (cosu st j))
                               (v st (i + 2) j k' (tau st)))
                         (maskV st (i + 2) j k')))
                 (dzt st k'))
         (Z.to_nat k).

Definition bolus_depth_now (st : State) (j k : Z) : F :=
  zonal_sum st (fun i => fmul (fmul (dxt st (i + 2)) (cosu st j)) (B1_gm st (i + 2) j k)).

(** [_interpolate_depth_coords(z_sig[2:-2, :], table[2:-2, :], zarea[2:-2, :])]. *)
Definition interpolate_depth_coords (st : State) (ovt : OvtVars) (p_ref : F)
  (table : Z -> Z -> F) (j k : Z) : F :=
  np_interp (nz st) (nlevel st)
            (fun k' => fneg (arr ovt zarea j k'))
            (fun m => fneg (z_sig st ovt p_ref j m))
            (fun m => table j m)
            k.

Definition diagnose_kernel (st : State) (ovt : OvtVars) (p_ref : F) : Var -> Arr2 :=
  let a := arr ovt in
  let a := set a trans (fun j m => fadd (a trans j m) (trans_now st ovt p_ref j m)) in
  let a := set a vsf_depth (update_add_rows st (nz st) (a vsf_depth) (vsf_depth_now st)) in
  let a :=
    if skew st
    then set a bolus_depth (update_add_rows st (nz st) (a bolus_depth) (bolus_depth_now st))
    else a in
  let a := set a vsf_iso
             (update_add_rows st (nz st) (a vsf_iso)
                (interpolate_depth_coords st ovt p_ref (trans_now st ovt p_ref))) in
  let a :=
    if skew st
    then set a bolus_iso
           (update_add_rows st (nz st) (a bolus_iso)
              (interpolate_depth_coords st ovt p_ref (bolus_trans st ovt p_ref)))
    else a in
  a.

(** *** Overturning.diagnose *)
Definition diagnose (st : State) (p_ref : F) (ovt : OvtVars) : OvtVars :=
  {| nitts := nitts ovt + 1; arr := diagnose_kernel st ovt p_ref |}.

(** *** Overturning.output *)

Definition mean_variables : list Var := [trans; vsf_iso; vsf_depth].

(** [for var in mean_variables: if var not in self.output_variables: continue;
     setattr(ovt_vs, var, f(getattr(ovt_vs, var)))]. *)
Definition for_mean_variables (names : list Var) (f : Arr2 -> Arr2) (a : Var -> Arr2)
  : Var -> Arr2 :=
  fold_left (fun a x => if negb (mem x names) then a else set a x (f (a x)))
            mean_variables a.

Definition output (names : list Var) (ovt : OvtVars)
  : OvtVars * list (Var * Arr2) :=
  let a :=
    if 0 <? nitts ovt
    then for_mean_variables names
           (fun val j k => fdiv (val j k) (of_int (nitts ovt))) (arr ovt)
    else arr ovt in
  let written := map (fun x => (x, a x)) names in
  let a := for_mean_variables names (fun val j k => fmul (val j k) (lit 0)) a in
  ({| nitts := 0; arr := a |}, written).

(** ** Properties *)

(** What [diagnose] adds to the two eddy-driven streamfunctions. *)
Lemma diagnose_accumulates_bolus (st : State) (p_ref : F) (ovt : OvtVars) :
  skew st = true ->
  arr (diagnose st p_ref ovt) bolus_iso
  = update_add_rows st (nz st) (arr ovt bolus_iso)
      (interpolate_depth_coords st ovt p_ref (bolus_trans st ovt p_ref))
  /\ arr (diagnose st p_ref ovt) bolus_depth
     = update_add_rows st (nz st) (arr ovt bolus_depth) (bolus_depth_now st)
  /\ nitts (diagnose st p_ref ovt) = nitts ovt + 1.
Proof.
  intros E. unfold diagnose, diagnose_kernel. simpl. rewrite E.
  repeat split.
Qed.

Lemma output_variables_skew (st : State) :
  skew st = true ->
  output_variables st
  = (if default_active then [sigma; zarea; trans; vsf_iso; vsf_depth] else [])
    ++ [bolus_iso; bolus_depth].
Proof.
  intros E. unfold output_variables, DEFAULT_OUTPUT_VARS. simpl. rewrite E.
  destruct default_active; reflexivity.
Qed.

(** C8, on the code.  With neutral and skew diffusion enabled, [bolus_iso] and
    [bolus_depth] are output variables and [diagnose] accumulates them, but
    [output] hands their sums to the writer undivided and keeps them: only
    the sample count is reset. *)
Theorem output_keeps_bolus_sums (st : State) (ovt : OvtVars) :
  skew st = true ->
  In bolus_iso (output_variables st)
  /\ In bolus_depth (output_variables st)
  /\ In (bolus_iso, arr ovt bolus_iso) (snd (output (output_variables st) ovt))
  /\ In (bolus_depth, arr ovt bolus_depth) (snd (output (output_variables st) ovt))
  /\ arr (fst (output (output_variables st) ovt)) bolus_iso = arr ovt bolus_iso
  /\ arr (fst (output (output_variables st) ovt)) bolus_depth = arr ovt bolus_depth
  /\ nitts (fst (output (output_variables st) ovt)) = 0.
Proof.
  intros E. rewrite (output_variables_skew st E).
  unfold output, for_mean_variables, mean_variables.
  destruct default_active, (0 <? nitts ovt); simpl; repeat split; auto 10.
Qed.

(** The three variables [output] does treat: written as means, then zero. *)
Lemma output_means (st : State) (ovt : OvtVars) (x : Var) :
  ScalarLaws F ->
  default_active = true ->
  0 < nitts ovt ->
  In x mean_variables ->
  In (x, fun j k => fdiv (arr ovt x j k) (of_int (nitts ovt)))
     (snd (output (output_variables st) ovt))
  /\ forall j k, arr (fst (output (output_variables st) ovt)) x j k = fzero.
Proof.
  intros laws D N Hx. apply Z.ltb_lt in N.
  unfold output, for_mean_variables, mean_variables, output_variables,
    DEFAULT_OUTPUT_VARS. simpl. rewrite D, N.
  destruct (skew st); simpl in Hx |- *;
    destruct Hx as [<-|[<-|[<-|[]]]]; simpl;
    (split; [auto 10|intros j k; apply (fmul_0_r F laws)]).
Qed.

(** ** Further properties of the diagnostic *)

(** The same state with another meridional velocity. *)
Definition with_v (st : State) (v' : Z -> Z -> Z -> Z -> F) : State :=
  {| nx := nx st; ny := ny st; nz := nz st;
     enable_neutral_diffusion := enable_neutral_diffusion st;
     enable_skew_diffusion := enable_skew_diffusion st;
     tau := tau st; dxt := dxt st; cosu := cosu st; dzt := dzt st;
     maskV := maskV st; v := v'; salt := salt st; temp := temp st;
     B1_gm := B1_gm st |}.

Lemma sum_over_ext (n : Z) (f g : Z -> F) :
  (forall i, f i = g i) -> sum_over n f = sum_over n g.
Proof.
  intros E. unfold sum_over. f_equal. apply map_ext. exact E.
Qed.

Lemma cumsum_ext (f g : Z -> F) (k : nat) :
  (forall i, f i = g i) -> cumsum f k = cumsum g k.
Proof.
  intros E. induction k as [|k IH]; simpl; [apply E|].
  rewrite IH, E. reflexivity.
Qed.

Lemma output_keeps_axes (names : list Var) (ovt : OvtVars) :
  arr (fst (output names ovt)) sigma = arr ovt sigma.
Proof.
  unfold output, for_mean_variables, mean_variables. simpl.
  destruct (0 <? nitts ovt), (mem trans names), (mem vsf_iso names),
    (mem vsf_depth names); reflexivity.
Qed.

Lemma output_keeps_zarea (names : list Var) (ovt : OvtVars) :
  arr (fst (output names ovt)) zarea = arr ovt zarea.
Proof.
  unfold output, for_mean_variables, mean_variables. simpl.
  destruct (0 <? nitts ovt), (mem trans names), (mem vsf_iso names),
    (mem vsf_depth names); reflexivity.
Qed.

(** X14.  [diagnose] and [output] never write the axis [sigma] or the areas
    [zarea], [output] hands the writer exactly the output variables, in their
    order, and without skew diffusion neither method touches the two
    eddy-driven streamfunctions or writes them. *)
Theorem axes_are_never_written (st : State) (p_ref : F) (names : list Var) (ovt : OvtVars) :
  arr (diagnose st p_ref ovt) sigma = arr ovt sigma
  /\ arr (diagnose st p_ref ovt) zarea = arr ovt zarea
  /\ arr (fst (output names ovt)) sigma = arr ovt sigma
  /\ arr (fst (output names ovt)) zarea = arr ovt zarea
  /\ map fst (snd (output names ovt)) = names
  /\ (skew st = false ->
      arr (diagnose st p_ref ovt) bolus_iso = arr ovt bolus_iso
      /\ arr (diagnose st p_ref ovt) bolus_depth = arr ovt bolus_depth
      /\ arr (fst (output (output_variables st) ovt)) bolus_iso = arr ovt bolus_iso
      /\ arr (fst (output (output_variables st) ovt)) bolus_depth = arr ovt bolus_depth
      /\ ~ In bolus_iso (map fst (snd (output (output_variables st) ovt)))
      /\ ~ In bolus_depth (map fst (snd (output (output_variables st) ovt)))).
Proof.
  assert (Hnames : forall l a, map fst (map (fun x : Var => (x, a x : Arr2)) l) = l).
  { intros l a. rewrite map_map. simpl. apply map_id. }
  split; [|split; [|split; [|split; [|split]]]].
  - unfold diagnose, diagnose_kernel. simpl. destruct (skew st); reflexivity.
  - unfold diagnose, diagnose_kernel. simpl. destruct (skew st); reflexivity.
  - unfold output, for_mean_variables, mean_variables. simpl.
    destruct (0 <? nitts ovt), (mem trans names), (mem vsf_iso names),
      (mem vsf_depth names); reflexivity.
  - unfold output, for_mean_variables, mean_variables. simpl.
    destruct (0 <? nitts ovt), (mem trans names), (mem vsf_iso names),
      (mem vsf_depth names); reflexivity.
  - unfold output. simpl. apply Hnames.
  - intros E. split; [|split; [|split; [|split]]].
    + unfold diagnose, diagnose_kernel. simpl. rewrite E. reflexivity.
    + unfold diagnose, diagnose_kernel. simpl. rewrite E. reflexivity.
    + unfold output, for_mean_variables, mean_variables. simpl.
      destruct (0 <? nitts ovt), (mem trans (output_variables st)),
        (mem vsf_iso (output_variables st)), (mem vsf_depth (output_variables st));
        reflexivity.
    + unfold output, for_mean_variables, mean_variables. simpl.
      destruct (0 <? nitts ovt), (mem trans (output_variables st)),
        (mem vsf_iso (output_variables st)), (mem vsf_depth (output_variables st));
        reflexivity.
    + unfold output. simpl. rewrite Hnames.
      unfold output_variables, DEFAULT_OUTPUT_VARS. simpl. rewrite E.
      destruct default_active; simpl; split; intros H;
        repeat (destruct H as [H|H]; [discriminate H|]); exact H.
Qed.

Section Masked.

Hypothesis laws : ScalarLaws F.

(** X15.  Rows of the halo: [diagnose] changes an accumulator in the rows
    [2:-2] only ([trans] is added to as a whole, with zeros outside these
    rows). *)
Theorem diagnose_keeps_halo_rows (st : State) (p_ref : F) (ovt : OvtVars)
  (x : Var) (j k : Z) :
  inner (ny st) j = false ->
  arr (diagnose st p_ref ovt) x j k = arr ovt x j k.
Proof.
  intros Hj. unfold diagnose, diagnose_kernel. simpl.
  destruct (skew st), x; unfold set, var_eqb; simpl;
    unfold update_add_rows, trans_now; rewrite ?Hj; simpl;
    try reflexivity; apply (fadd_0_r F laws).
Qed.

(** X16.  The velocity at faces where [maskV] is zero does not enter the sums:
    the transport below each isopycnal and the streamfunction on depth
    levels are the same for any two velocity fields that agree at the other
    faces. *)
Theorem land_faces_are_ignored (st : State) (ovt : OvtVars) (p_ref : F)
  (v' : Z -> Z -> Z -> Z -> F) :
  (forall i j k, maskV st i j k = fzero \/ v' i j k (tau st) = v st i j k (tau st)) ->
  (forall j m, trans_now (with_v st v') ovt p_ref j m = trans_now st ovt p_ref j m)
  /\ (forall j k, vsf_depth_now (with_v st v') j k = vsf_depth_now st j k).
Proof.
  intros Hsame. split.
  - intros j m.
    unfold trans_now, zonal_sum, nlevel, below, sig_loc_face, sig_loc, fac. simpl.
    destruct (inner (ny st) j && within 0 (nz st * 4) m); [|reflexivity].
    f_equal. apply sum_over_ext. intros i. apply sum_over_ext. intros k.
    replace (j - 2 + 2) with j by lia.
    destruct (Hsame (i + 2) j k) as [L|E].
    + rewrite L, !(fmul_0_r F laws), !(fmul_0_l F laws).
      reflexivity.
    + rewrite E. reflexivity.
  - intros j k. unfold vsf_depth_now, zonal_sum. simpl.
    apply cumsum_ext. intros k'. f_equal. f_equal. apply sum_over_ext. intros i.
    destruct (Hsame (i + 2) j k') as [L|E].
    + rewrite L, !(fmul_0_r F laws). reflexivity.
    + rewrite E. reflexivity.
Qed.

(** What [output] leaves in the three variables it averages. *)
Lemma output_resets (st : State) (ovt : OvtVars) (x : Var) (j k : Z) :
  default_active = true ->
  In x mean_variables ->
  arr (fst (output (output_variables st) ovt)) x j k = fzero.
Proof.
  intros D Hx.
  unfold output, for_mean_variables, mean_variables, output_variables,
    DEFAULT_OUTPUT_VARS. simpl. rewrite D.
  destruct (skew st), (0 <? nitts ovt); simpl in Hx |- *;
    destruct Hx as [<-|[<-|[<-|[]]]]; apply (fmul_0_r F laws).
Qed.

(** What one sample of a variable that [output] averages depends on. *)
Lemma diagnose_mean_congr (st : State) (p_ref : F) (ovt1 ovt2 : OvtVars)
  (x : Var) (j k : Z) :
  arr ovt1 sigma = arr ovt2 sigma ->
  arr ovt1 zarea = arr ovt2 zarea ->
  arr ovt1 x j k = arr ovt2 x j k ->
  In x mean_variables ->
  arr (diagnose st p_ref ovt1) x j k = arr (diagnose st p_ref ovt2) x j k.
Proof.
  intros Hs Ha Hv Hx. unfold diagnose, diagnose_kernel. simpl.
  destruct (skew st); simpl in Hx;
    destruct Hx as [<-|[<-|[<-|[]]]]; unfold set, var_eqb; simpl;
    unfold update_add_rows, interpolate_depth_coords, z_sig, trans_now, below;
    rewrite ?Hs, ?Ha, Hv; reflexivity.
Qed.

(** X17.  For [trans], [vsf_iso] and [vsf_depth] an output closes the averaging
    interval: what [diagnose] holds after the next sample does not depend on
    the sums or on the sample count from before the output. *)
Theorem means_restart_after_output (st : State) (p_ref : F) (ovt1 ovt2 : OvtVars)
  (x : Var) (j k : Z) :
  default_active = true ->
  arr ovt1 sigma = arr ovt2 sigma ->
  arr ovt1 zarea = arr ovt2 zarea ->
  In x mean_variables ->
  arr (diagnose st p_ref (fst (output (output_variables st) ovt1))) x j k
  = arr (diagnose st p_ref (fst (output (output_variables st) ovt2))) x j k
  /\ nitts (diagnose st p_ref (fst (output (output_variables st) ovt1))) = 1.
Proof.
  intros D Hs Ha Hx. split; [|reflexivity].
  apply diagnose_mean_congr; trivial.
  - rewrite !output_keeps_axes. exact Hs.
  - rewrite !output_keeps_zarea. exact Ha.
  - rewrite !output_resets by trivial. reflexivity.
Qed.

End Masked.

End Diagnostic.


(** ** Two samples of a small section *)

Definition demo_state (skew_on : bool) : @State Z :=
  {| nx := 1; ny := 1; nz := 1;
     enable_neutral_diffusion := skew_on;
     enable_skew_diffusion := skew_on;
     tau := 1;
     dxt := fun _ => 1; cosu := fun _ => 1; dzt := fun _ => 1;
     maskV := fun _ _ _ => 1;
     v := fun _ _ _ _ => 2;
     salt := fun _ _ _ _ => 35; temp := fun _ _ _ _ => 5;
     B1_gm := fun _ _ _ => 3 |}.

(** Every sum stands at 6 after two samples. *)
Definition demo_sums : @OvtVars Z :=
  {| nitts := 2; arr := fun _ _ _ => 6 |}.

Example demo_output_trans :
  arr (fst (output (output_variables true (demo_state true)) demo_sums)) trans 2 0 = 0
  /\ In (trans, fun _ _ => 3)
        (snd (output (output_variables true (demo_state true)) demo_sums)).
Proof. split; [reflexivity|]. simpl. auto. Qed.

(** After the same call the sum of [bolus_iso] still stands at 6, and 6 is
    what was written. *)
Lemma output_keeps_bolus_sums_witness :
  arr (fst (output (output_variables true (demo_state true)) demo_sums)) bolus_iso 2 0 = 6
  /\ In (bolus_iso, fun _ _ => 6)
        (snd (output (output_variables true (demo_state true)) demo_sums)).
Proof.
  destruct (output_keeps_bolus_sums true (demo_state true) demo_sums eq_refl)
    as [_ [_ [W [_ [K _]]]]].
  split; [rewrite K; reflexivity|exact W].
Defined.

(** ** A section with one land face and one water face *)

Definition demo_rho (s t p : Z) : Z := s - t.

Definition demo_interp (n m : Z) (x xp fp : Z -> Z) (k : Z) : Z := fp (x k).

Definition demo_coast : @State Z :=
  {| nx := 2; ny := 1; nz := 1;
     enable_neutral_diffusion := false;
     enable_skew_diffusion := false;
     tau := 1;
     dxt := fun _ => 1; cosu := fun _ => 1; dzt := fun _ => 1;
     maskV := fun i _ _ => if i =? 2 then 0 else 1;
     v := fun _ _ _ _ => 2;
     salt := fun _ _ _ _ => 35; temp := fun _ _ _ _ => 5;
     B1_gm := fun _ _ _ => 3 |}.

(** Another velocity on the land face. *)
Definition demo_land_flow (i j k t : Z) : Z := if i =? 2 then 99 else 2.

Lemma diagnose_keeps_halo_rows_witness :
  arr (diagnose demo_rho demo_interp (fun x => x) (demo_state true) 2000 demo_sums)
      vsf_depth 1 0 = 6
  /\ arr (diagnose demo_rho demo_interp (fun x => x) (demo_state true) 2000 demo_sums)
         trans 3 0 = 6.
Proof.
  split.
  - exact (diagnose_keeps_halo_rows demo_rho demo_interp (fun x => x) scalar_laws_Z
             (demo_state true) 2000 demo_sums vsf_depth 1 0 eq_refl).
  - exact (diagnose_keeps_halo_rows demo_rho demo_interp (fun x => x) scalar_laws_Z
             (demo_state true) 2000 demo_sums trans 3 0 eq_refl).
Defined.

Lemma land_faces_are_ignored_witness :
  trans_now demo_rho (fun x => x) (with_v demo_coast demo_land_flow) demo_sums 2000 2 0
  = trans_now demo_rho (fun x => x) demo_coast demo_sums 2000 2 0
  /\ vsf_depth_now (fun x => x) (with_v demo_coast demo_land_flow) 2 0
     = vsf_depth_now (fun x => x) demo_coast 2 0.
Proof.
  assert (Hsame : forall i j k : Z,
             maskV demo_coast i j k = fzero
             \/ demo_land_flow i j k (tau demo_coast) = v demo_coast i j k (tau demo_coast)).
  { intros i j k. unfold demo_land_flow. simpl.
    destruct (i =? 2); [left|right]; reflexivity. }
  destruct (land_faces_are_ignored demo_rho (fun x => x) scalar_laws_Z
              demo_coast demo_sums 2000 demo_land_flow Hsame) as [T V].
  split; [apply T|apply V].
Defined.

Lemma means_restart_after_output_witness :
  arr (diagnose demo_rho demo_interp (fun x => x) (demo_state false) 2000
         (fst (output (output_variables true (demo_state false)) demo_sums)))
      vsf_depth 2 0
  = arr (diagnose demo_rho demo_interp (fun x => x) (demo_state false) 2000
           (fst (output (output_variables true (demo_state false))
                   {| nitts := 7; arr := fun x _ _ => if var_eqb x vsf_depth then 40 else 6 |})))
        vsf_depth 2 0.
Proof.
  apply (means_restart_after_output demo_rho demo_interp (fun x => x) true scalar_laws_Z
           (demo_state false) 2000 demo_sums
           {| nitts := 7; arr := fun x _ _ => if var_eqb x vsf_depth then 40 else 6 |}
           vsf_depth 2 0 eq_refl eq_refl eq_refl).
  simpl. auto.
Defined.

End Overturning.
